(** * hack/check-image-tags.py: version keys, latest-tag selection, status

    A shallow embedding of the checking engine of [hack/check-image-tags.py]:
    [parse_image_tag_lines], [run_skopeo_command], [parse_version],
    [get_latest_tag], [compare_versions] and the body of the loop of [main].
    The rest of [main], from the reading of the file on, is in [Main],
    and the lookup of [plugins/lookup/traefik_labels.py] in
    [TraefikLabels].

    Python values are modelled as follows.
    - [str] is [string]; a character is a code point below 256, and the
      character predicates of [str] and [re] are the ones Python has on
      that range.
    - an exception is a constructor of [exn]; code that can raise returns
      a [result].
    - the tuples [parse_version] returns are lists of [pyval]; they are
      compared as Python compares tuples.
    - a compiled pattern is a [regex]; matching is backtracking, with the
      alternatives tried in the order [re] tries them. *)

From Stdlib Require Import Bool Arith ZArith NArith List Ascii String Lia Sorted.
From Stdlib Require DecimalString.
Import ListNotations.

Local Open Scope string_scope.
Local Open Scope list_scope.

(* ================================================================= *)
(** ** Exceptions *)

Inductive exn :=
| ValueError
| TypeError
| TimeoutExpired        (* subprocess.TimeoutExpired *)
| OSError
| UnicodeDecodeError
| IndexError.

Inductive result (A : Type) :=
| Ret (a : A)
| Raise (e : exn).

Arguments Ret {A} a.
Arguments Raise {A} e.

Definition bind {A B} (m : result A) (f : A -> result B) : result B :=
  match m with
  | Ret a => f a
  | Raise e => Raise e
  end.

Notation "x <- m ;; k" := (bind m (fun x => k))
  (at level 61, m at next level, right associativity).

Fixpoint mapM {A B} (f : A -> result B) (l : list A) : result (list B) :=
  match l with
  | [] => Ret []
  | a :: l' => b <- f a ;; bs <- mapM f l' ;; Ret (b :: bs)
  end.

(** [isinstance(e, Exception)]: every exception of the model derives
    from [Exception]. *)
Definition is_Exception (e : exn) : bool := true.

Definition is_TimeoutExpired (e : exn) : bool :=
  match e with TimeoutExpired => true | _ => false end.

Definition is_ValueError (e : exn) : bool :=
  match e with ValueError => true | _ => false end.

(* ================================================================= *)
(** ** Strings *)

Module Str.

Definition code (c : ascii) : N := N_of_ascii c.

Definition between (lo hi : N) (c : ascii) : bool :=
  ((lo <=? code c) && (code c <=? hi))%N.

Definition code_is (n : N) (c : ascii) : bool := (code c =? n)%N.

(** [str.isspace] on one character; also [\s]. *)
Definition isspace (c : ascii) : bool :=
  between 9 13 c || between 28 32 c || code_is 133 c || code_is 160 c.

(** A decimal digit; also [\d]. *)
Definition isdecimal (c : ascii) : bool := between 48 57 c.

Definition isalpha (c : ascii) : bool :=
  between 65 90 c || between 97 122 c
  || code_is 170 c || code_is 181 c || code_is 186 c
  || between 192 214 c || between 216 246 c || between 248 255 c.

(** Superscript digits and vulgar fractions count as alphanumeric. *)
Definition isalnum (c : ascii) : bool :=
  isalpha c || isdecimal c
  || code_is 178 c || code_is 179 c || code_is 185 c || between 188 190 c.

(** [\w] *)
Definition isword (c : ascii) : bool := isalnum c || code_is 95 c.

Definition isupper (c : ascii) : bool :=
  between 65 90 c || between 192 214 c || between 216 222 c.

Definition lower_char (c : ascii) : ascii :=
  if isupper c then ascii_of_N (code c + 32) else c.

(** [s.lower()] *)
Fixpoint lower (s : string) : string :=
  match s with
  | EmptyString => EmptyString
  | String c s' => String (lower_char c) (lower s')
  end.

(** [s.startswith(p)] *)
Fixpoint startswith (s p : string) {struct p} : bool :=
  match p with
  | EmptyString => true
  | String b p' =>
      match s with
      | EmptyString => false
      | String a s' => Ascii.eqb a b && startswith s' p'
      end
  end.

(** [s[n:]] *)
Fixpoint slice_from (n : nat) (s : string) : string :=
  match n with
  | O => s
  | S n' =>
      match s with
      | EmptyString => EmptyString
      | String _ s' => slice_from n' s'
      end
  end.

(** [s[:n]] *)
Fixpoint slice_to (n : nat) (s : string) : string :=
  match n with
  | O => EmptyString
  | S n' =>
      match s with
      | EmptyString => EmptyString
      | String c s' => String c (slice_to n' s')
      end
  end.

Fixpoint lstrip (s : string) : string :=
  match s with
  | EmptyString => EmptyString
  | String c s' => if isspace c then lstrip s' else s
  end.

Fixpoint rstrip (s : string) : string :=
  match s with
  | EmptyString => EmptyString
  | String c s' =>
      match rstrip s' with
      | EmptyString => if isspace c then EmptyString else String c EmptyString
      | r => String c r
      end
  end.

(** [s.strip()] *)
Definition strip (s : string) : string := rstrip (lstrip s).

(** [s.split(sep)] for a separator of one character. *)
Fixpoint split (sep : ascii) (s : string) : list string :=
  match s with
  | EmptyString => [EmptyString]
  | String c s' =>
      if Ascii.eqb c sep then EmptyString :: split sep s'
      else
        match split sep s' with
        | [] => [String c EmptyString]
        | piece :: pieces => String c piece :: pieces
        end
  end.

(** The truth value of a string: the empty string is false. *)
Definition truthy (s : string) : bool :=
  match s with EmptyString => false | _ => true end.

(** The lines a text file yields when iterated: each keeps its newline. *)
Fixpoint readlines (text : string) : list string :=
  match text with
  | EmptyString => []
  | String c text' =>
      if Ascii.eqb c "010" then String c EmptyString :: readlines text'
      else
        match readlines text' with
        | [] => [String c EmptyString]
        | line :: lines => String c line :: lines
        end
  end.

(** *** [int] *)

(** CPython refuses to convert a string of more than
    [sys.get_int_max_str_digits()] digits; 4300 is the default. *)
Definition int_max_str_digits : N := 4300.

Definition digit_value (c : ascii) : Z := Z.of_N (code c) - 48.

Fixpoint int_digits (acc : Z) (s : string) : Z :=
  match s with
  | EmptyString => acc
  | String c s' => int_digits (10 * acc + digit_value c) s'
  end.

Fixpoint all_chars (p : ascii -> bool) (s : string) : bool :=
  match s with
  | EmptyString => true
  | String c s' => p c && all_chars p s'
  end.

(** The first character of [s], if there is one, satisfies [p]. *)
Definition first_char (p : ascii -> bool) (s : string) : Prop :=
  match s with
  | EmptyString => True
  | String c _ => p c = true
  end.

Definition nlength (s : string) : N := N.of_nat (String.length s).

(** [int(s)] for [s] a run of decimal digits, the only strings
    [parse_version] converts ([numeric_run_parts] below); anything else
    is reported as [ValueError] here. *)
Definition int (s : string) : result Z :=
  if truthy s && all_chars isdecimal s && (nlength s <=? int_max_str_digits)%N
  then Ret (int_digits 0 s)
  else Raise ValueError.

End Str.

(* ================================================================= *)
(** ** Regular expressions *)

Module Re.

(** The constructs the two patterns of the script use. *)
Inductive regex :=
| Chars (p : ascii -> bool)       (* one character of a set: [\w], [.], [[^...]] *)
| Lit (s : string)                (* literal text *)
| Cat (r1 r2 : regex)
| Opt (r : regex)                 (* [r?], greedy *)
| Star (r : regex)                (* [r*], greedy *)
| Group (n : nat) (r : regex)     (* capturing group number [n] *)
| Bol                             (* [^] *)
| Eol.                            (* [$] *)

(** [r+] *)
Definition Plus (r : regex) : regex := Cat r (Star r).

(** A point of a match: what is left of the subject, how much of it has
    been consumed, and the groups captured so far. *)
Record mstate := MState {
  pos : nat;
  rest : string;
  groups : list (nat * string)
}.

Definition advance (n : nat) (st : mstate) : mstate :=
  MState (pos st + n) (Str.slice_from n (rest st)) (groups st).

Definition capture (n : nat) (from to : mstate) : mstate :=
  MState (pos to) (rest to)
         ((n, Str.slice_to (pos to - pos from) (rest from)) :: groups to).

Definition progress (from to : mstate) : bool :=
  Nat.ltb (String.length (rest to)) (String.length (rest from)).

(** The repetitions of a starred pattern whose one repetition is [step]:
    one more repetition is tried before stopping, and a repetition has
    to consume something. The subject bounds the number of
    repetitions. *)
Fixpoint star (step : mstate -> list mstate) (fuel : nat) (st : mstate)
  : list mstate :=
  match fuel with
  | O => [st]
  | S fuel' =>
      flat_map (star step fuel') (filter (progress st) (step st)) ++ [st]
  end.

(** All the ways [r] matches at [st], in the order a backtracking
    matcher tries them. *)
Fixpoint run (r : regex) (st : mstate) : list mstate :=
  match r with
  | Chars p =>
      match rest st with
      | String c _ => if p c then [advance 1 st] else []
      | EmptyString => []
      end
  | Lit s =>
      if Str.startswith (rest st) s then [advance (String.length s) st] else []
  | Cat r1 r2 => flat_map (run r2) (run r1 st)
  | Opt r1 => run r1 st ++ [st]
  | Star r1 => star (run r1) (String.length (rest st)) st
  | Group n r1 => map (capture n st) (run r1 st)
  | Bol => if Nat.eqb (pos st) 0 then [st] else []
  | Eol =>
      match rest st with
      | EmptyString => [st]
      | String c EmptyString => if Ascii.eqb c "010" then [st] else []
      | _ => []
      end
  end.

(** What [run] enumerates, as a relation: [matches r st st'] when [r]
    can take the matcher from [st] to [st']. *)
Inductive matches : regex -> mstate -> mstate -> Prop :=
| MChars p st c s :
    rest st = String c s -> p c = true ->
    matches (Chars p) st (advance 1 st)
| MLit l st :
    Str.startswith (rest st) l = true ->
    matches (Lit l) st (advance (String.length l) st)
| MCat r1 r2 st mid st' :
    matches r1 st mid -> matches r2 mid st' ->
    matches (Cat r1 r2) st st'
| MOptTake r st st' :
    matches r st st' -> matches (Opt r) st st'
| MOptSkip r st :
    matches (Opt r) st st
| MStarStop r st :
    matches (Star r) st st
| MStarStep r st mid st' :
    matches r st mid -> progress st mid = true ->
    matches (Star r) mid st' ->
    matches (Star r) st st'
| MGroup n r st st' :
    matches r st st' -> matches (Group n r) st (capture n st st')
| MBol st :
    pos st = 0 -> matches Bol st st
| MEolEnd st :
    rest st = EmptyString -> matches Eol st st
| MEolNewline st :
    rest st = String "010" EmptyString -> matches Eol st st.

(** [st'] is [st] after the text [w] has been consumed and the groups
    [gs] captured. *)
Definition moved (gs : list (nat * string)) (w : string) (st st' : mstate)
  : Prop :=
  rest st = (w ++ rest st')%string /\
  pos st' = pos st + String.length w /\
  groups st' = gs ++ groups st.

(** [r] matches exactly by consuming a text [w] and capturing groups
    [gs] such that [P gs w x] holds, [x] being the text that follows. *)
Definition denotes (r : regex)
  (P : list (nat * string) -> string -> string -> Prop) : Prop :=
  forall st st',
    matches r st st' <-> exists gs w, P gs w (rest st') /\ moved gs w st st'.

(** [re.match(r, s)]: the first way to match [r] at the start of [s]. *)
Definition rmatch (r : regex) (s : string) : option mstate :=
  hd_error (run r (MState 0 s [])).

Fixpoint lookup (n : nat) (gs : list (nat * string)) : option string :=
  match gs with
  | [] => None
  | (k, v) :: gs' => if Nat.eqb k n then Some v else lookup n gs'
  end.

(** [m.group(n)], for a group that took part in the match. *)
Definition group (n : nat) (m : mstate) : string :=
  match lookup n (groups m) with
  | Some s => s
  | None => EmptyString
  end.

(** [re.split] for a pattern that is one character set. *)
Fixpoint split (p : ascii -> bool) (s : string) : list string :=
  match s with
  | EmptyString => [EmptyString]
  | String c s' =>
      if p c then EmptyString :: split p s'
      else
        match split p s' with
        | [] => [String c EmptyString]
        | piece :: pieces => String c piece :: pieces
        end
  end.

End Re.

(* ================================================================= *)
(** ** Values, tuples and [sorted] *)

Inductive pyval :=
| PInt (z : Z)
| PInf                  (* float("inf") *)
| PStr (s : string).

(** [a == b] *)
Definition py_eq (a b : pyval) : bool :=
  match a, b with
  | PInt x, PInt y => (x =? y)%Z
  | PInf, PInf => true
  | PStr s, PStr t => String.eqb s t
  | _, _ => false
  end.

(** [a < b]; a number and a string do not compare. *)
Definition py_lt (a b : pyval) : result bool :=
  match a, b with
  | PInt x, PInt y => Ret (x <? y)%Z
  | PInt _, PInf => Ret true
  | PInf, PInt _ => Ret false
  | PInf, PInf => Ret false
  | PStr s, PStr t => Ret (String.ltb s t)
  | _, _ => Raise TypeError
  end.

(** [a < b] on tuples: the first position where the items differ
    decides; if there is none the shorter tuple is the smaller. *)
Fixpoint tuple_lt (a b : list pyval) : result bool :=
  match a, b with
  | [], [] => Ret false
  | [], _ :: _ => Ret true
  | _ :: _, [] => Ret false
  | x :: a', y :: b' => if py_eq x y then tuple_lt a' b' else py_lt x y
  end.

Section Sorted.

Variables (A K : Type).
Variable lt : K -> K -> result bool.

(** [x] goes before the first item that is not smaller than it, so it
    stays ahead of the items it equals. *)
Fixpoint insert (x : K * A) (l : list (K * A)) : result (list (K * A)) :=
  match l with
  | [] => Ret [x]
  | y :: l' =>
      b <- lt (fst y) (fst x) ;;
      if b then (r <- insert x l' ;; Ret (y :: r)) else Ret (x :: y :: l')
  end.

Fixpoint stable_sort (l : list (K * A)) : result (list (K * A)) :=
  match l with
  | [] => Ret []
  | x :: l' => s <- stable_sort l' ;; insert x s
  end.

(** [sorted(l, key=key, reverse=reverse)]: the keys are computed once,
    the sort is stable and uses [<] only, and a reverse sort reverses
    the list, sorts it and reverses the outcome. Which items the
    library's sort compares is not modelled: when every two keys
    compare, as those of [parse_version] do, a stable sort has one
    outcome. *)
Definition sorted (l : list A) (key : A -> result K) (reverse : bool)
  : result (list A) :=
  keyed <- mapM (fun a => k <- key a ;; Ret (k, a)) l ;;
  s <- stable_sort (if reverse then rev keyed else keyed) ;;
  Ret (map snd (if reverse then rev s else s)).

(** The same sort for a comparison that cannot fail. *)
Variable ltb : K -> K -> bool.

Fixpoint insert_b (x : K * A) (l : list (K * A)) : list (K * A) :=
  match l with
  | [] => [x]
  | y :: l' => if ltb (fst y) (fst x) then y :: insert_b x l' else x :: y :: l'
  end.

Fixpoint sort_b (l : list (K * A)) : list (K * A) :=
  match l with
  | [] => []
  | x :: l' => insert_b x (sort_b l')
  end.

(** No item is smaller than one before it. *)
Definition ascending (l : list (K * A)) : Prop :=
  StronglySorted (fun a b => ltb (fst b) (fst a) = false) l.

End Sorted.

Arguments insert {A K} lt x l.
Arguments stable_sort {A K} lt l.
Arguments sorted {A K} lt l key reverse.
Arguments insert_b {A K} ltb x l.
Arguments sort_b {A K} ltb l.
Arguments ascending {A K} ltb l.

(** [a < b] for tuples that compare. *)
Definition tuple_ltb (a b : list pyval) : bool :=
  match tuple_lt a b with
  | Ret c => c
  | Raise _ => false
  end.

(* ================================================================= *)
(** ** hack/check-image-tags.py *)

Notation "r1 >> r2" := (Re.Cat r1 r2) (at level 61, right associativity).

Module CheckImageTags.

Import Str Re.

(** *** [parse_image_tag_lines] *)

Definition dquote : ascii := "034".
Definition squote : ascii := "039".

Definition is_quote (c : ascii) : bool := code_is 34 c || code_is 39 c.
Definition is_hash (c : ascii) : bool := code_is 35 c.

(** The set of the value: any character but a quote, a hash sign or
    white space. *)
Definition value_char (c : ascii) : bool :=
  negb (is_quote c || is_hash c || isspace c).

(** [.] *)
Definition any_char (c : ascii) : bool := negb (code_is 10 c).

(** [^(\w+_image_tag):\s*Q?(V+)Q?\s*#\s*(skopeo\s+list-tags\s+.+)$],
    with [Q] the set of the two quote characters and [V] the set of the
    value. *)
Definition pattern : regex :=
  Bol >>
  Group 1 (Plus (Chars isword) >> Lit "_image_tag") >> Lit ":" >>
  Star (Chars isspace) >>
  Opt (Chars is_quote) >> Group 2 (Plus (Chars value_char)) >>
  Opt (Chars is_quote) >> Star (Chars isspace) >>
  Lit "#" >> Star (Chars isspace) >>
  Group 3 (Lit "skopeo" >> Plus (Chars isspace) >> Lit "list-tags" >>
           Plus (Chars isspace) >> Plus (Chars any_char)) >>
  Eol.

Record item := Item {
  variable : string;
  current_value : string;
  skopeo_command : string;
  line_number : nat
}.

(** The loop over [enumerate(f, 1)], from line number [n] on. *)
Fixpoint scan_lines (n : nat) (lines : list string) : list item :=
  match lines with
  | [] => []
  | line :: lines' =>
      match rmatch pattern (strip line) with
      | Some m =>
          Item (group 1 m) (group 2 m) (group 3 m) n :: scan_lines (S n) lines'
      | None => scan_lines (S n) lines'
      end
  end.

(** [text] is what reading the file at [file_path] gives; opening and
    decoding the file are outside the model. *)
Definition parse_image_tag_lines (text : string) : list item :=
  scan_lines 1 (readlines text).

(** *** [run_skopeo_command] *)

Record CompletedProcess := Completed {
  returncode : Z;
  stdout : string
}.

Section Runner.

(** [subprocess.run(command, shell=True, capture_output=True, text=True,
    timeout=timeout)]: the shell and the registry are outside the
    program. *)
Variable subprocess_run : string -> nat -> result CompletedProcess.

Definition run_skopeo_command (command : string) (timeout : nat)
  : result (option (list string)) :=
  match
    (res <- subprocess_run command timeout ;;
     if negb (returncode res =? 0)%Z then Ret None
     else
       let tags :=
         map strip
             (filter (fun tag => truthy (strip tag))
                     (Str.split "010" (strip (stdout res)))) in
       Ret (Some tags))
  with
  | Ret v => Ret v
  | Raise e =>
      if is_TimeoutExpired e then Ret None
      else if is_Exception e then Ret None
      else Raise e
  end.

End Runner.

(** *** [parse_version] *)

Definition prefixes : list string := ["v"; "version-v"; "version-"].

(** The loop over the prefixes, left at the first one that matches. *)
Fixpoint remove_prefix (ps : list string) (cleaned : string) : string :=
  match ps with
  | [] => cleaned
  | prefix :: ps' =>
      if startswith (lower cleaned) prefix
      then slice_from (String.length prefix) cleaned
      else remove_prefix ps' cleaned
  end.

(** [[.\-_]] *)
Definition is_sep (c : ascii) : bool :=
  code_is 46 c || code_is 45 c || code_is 95 c.

(** Group 1 is [\d+(?:[.\-_]\d+)*], anchored by [^]. *)
Definition version_re : regex :=
  Bol >>
  Group 1 (Plus (Chars isdecimal) >>
           Star (Chars is_sep >> Plus (Chars isdecimal))).

(** [(float("inf"), tag)] *)
Definition fallback (tag : string) : list pyval := [PInf; PStr tag].

Definition parse_version (tag : string) : result (list pyval) :=
  let cleaned := remove_prefix prefixes tag in
  match rmatch version_re cleaned with
  | Some version_match =>
      let version_str := group 1 version_match in
      let parts := Re.split is_sep version_str in
      match mapM int parts with
      | Ret ns => Ret (map PInt ns)
      | Raise e => if is_ValueError e then Ret (fallback tag) else Raise e
      end
  | None => Ret (fallback tag)
  end.

(** The two kinds of tuple [parse_version] returns. *)
Definition is_key (k : list pyval) : Prop :=
  (exists ns, k = map PInt ns) \/ (exists tag, k = fallback tag).

(** The tuple [parse_version] returns for [tag]. *)
Definition version_key (tag : string) : list pyval :=
  match parse_version tag with
  | Ret k => k
  | Raise _ => []
  end.

(** A tag with its key, as [sorted] pairs them. *)
Definition keyed_tag (tag : string) : list pyval * string :=
  (version_key tag, tag).

(** *** [get_latest_tag] *)

Definition get_latest_tag (tags : list string) (current_value : string)
  : result (option string) :=
  match tags with
  | [] => Ret None
  | _ =>
      sorted_tags <- sorted tuple_lt tags parse_version true ;;
      match sorted_tags with
      | first :: _ => Ret (Some first)
      | [] => Raise IndexError
      end
  end.

(** *** [compare_versions] *)

Definition compare_versions (current latest : string) : string :=
  if String.eqb current latest then "up-to-date" else "update-available".

(** *** [main]: what the loop does for one item *)

Record check := Check {
  source : item;
  latest_value : option string;
  status : string;
  all_tags : list string
}.

(** [l[-n:]] for a positive [n] *)
Definition last_n {A} (n : nat) (l : list A) : list A :=
  skipn (List.length l - n) l.

Section Main.

Variable subprocess_run : string -> nat -> result CompletedProcess.

Definition main_item (timeout : nat) (it : item) : result check :=
  let current := current_value it in
  let command := skopeo_command it in
  tags <- run_skopeo_command subprocess_run command timeout ;;
  match tags with
  | None => Ret (Check it None "error" [])
  | Some tags =>
      latest <- get_latest_tag tags current ;;
      let status :=
        match latest with
        | Some l => if truthy l then compare_versions current l else "unknown"
        | None => "unknown"
        end in
      Ret (Check it latest status
                 (match tags with [] => [] | _ => last_n 10 tags end))
  end.

(** The loop of [main] over the items. *)
Definition main_loop (timeout : nat) (image_tags : list item)
  : result (list check) :=
  mapM (main_item timeout) image_tags.

End Main.

End CheckImageTags.

(* ================================================================= *)
(** ** The specification's wording *)

Module Spec.

Import Str Re CheckImageTags.

(** *** VersionKey *)

(** What follows the first digit of the leading numeric run of a text:
    more digits, and separators that a digit follows. *)
Fixpoint numeric_tail (s : string) : string :=
  match s with
  | EmptyString => EmptyString
  | String c s' =>
      if isdecimal c then String c (numeric_tail s')
      else if is_sep c then
        match s' with
        | String d s'' =>
            if isdecimal d then String c (String d (numeric_tail s''))
            else EmptyString
        | EmptyString => EmptyString
        end
      else EmptyString
  end.

(** The longest leading run of [s] made of digits, optionally followed
    by groups of a separator and digits; empty when [s] does not start
    with a digit. *)
Definition numeric_run (s : string) : string :=
  match s with
  | EmptyString => EmptyString
  | String c s' =>
      if isdecimal c then String c (numeric_tail s') else EmptyString
  end.

(** A run of digits that [int] converts. *)
Definition segment (seg : string) : Prop :=
  seg <> "" /\ all_chars isdecimal seg = true /\
  (nlength seg <= int_max_str_digits)%N.

(** The text of a purely numeric version: segments with one separator
    between two of them. *)
Fixpoint dotted (seg : string) (more : list (ascii * string)) : string :=
  match more with
  | [] => seg
  | (sep, seg') :: more' => (seg ++ String sep (dotted seg' more'))%string
  end.

(** [dotted seg more] is purely numeric: its segments are runs of digits
    and what stands between two of them is a separator. *)
Definition numeric_tag (seg : string) (more : list (ascii * string)) : Prop :=
  segment seg /\
  Forall (fun p => is_sep (fst p) = true /\ segment (snd p)) more.

(** The integers of the segments. *)
Definition segment_values (seg : string) (more : list (ascii * string))
  : list Z :=
  map (int_digits 0) (seg :: map snd more).

Fixpoint repeat_char (c : ascii) (n : nat) : string :=
  match n with
  | O => EmptyString
  | S n' => String c (repeat_char c n')
  end.

(** A tag whose second segment has 4301 digits. *)
Definition long_segment_tag : string :=
  ("1." ++ repeat_char "1" 4301)%string.

(** Position-by-position comparison of two sequences of integers: the
    first position where they differ decides, and a sequence that is a
    strict prefix of the other is the lesser. *)
Definition lex_lt (xs ys : list Z) : Prop :=
  (exists p x y xs' ys',
      xs = p ++ x :: xs' /\ ys = p ++ y :: ys' /\ (x < y)%Z) \/
  (exists y ys', ys = xs ++ y :: ys').

(** *** Resolver *)

(** [latest] is the tag of [tags] that a stable sort by descending key
    puts first: no tag has a greater key, and the tags before it in
    [tags] have smaller keys. *)
Definition first_greatest (tags : list string) (latest : string) : Prop :=
  exists before after,
    tags = before ++ latest :: after /\
    (forall t, In t before ->
               tuple_lt (version_key t) (version_key latest) = Ret true) /\
    (forall t, In t after ->
               tuple_lt (version_key latest) (version_key t) = Ret false).

(** *** Runner *)

(** The lines of a list that are not empty once trimmed, trimmed. *)
Definition trimmed (lines : list string) : list string :=
  map strip (filter (fun line => truthy (strip line)) lines).

(** The non-empty trimmed lines of the output [out]. *)
Definition nonempty_trimmed_lines (out : string) : list string :=
  trimmed (Str.split "010" out).

(** *** Extractor *)

(** Nothing, or one quote character. *)
Definition quote_mark (q : string) : Prop :=
  q = "" \/ q = String dquote "" \/ q = String squote "".

(** The comment text: the words [skopeo] and [list-tags], white space
    after each, then the trailing text. *)
Definition comment_shape (cmd : string) : Prop :=
  exists ws1 ws2 tail,
    cmd = ("skopeo" ++ ws1 ++ "list-tags" ++ ws2 ++ tail)%string /\
    ws1 <> "" /\ all_chars isspace ws1 = true /\
    ws2 <> "" /\ all_chars isspace ws2 = true /\
    tail <> "" /\ all_chars any_char tail = true.

(** A trimmed line [s] that declares [var] with value [value] and
    enumeration command [cmd]: an identifier ending in [_image_tag], a
    colon, the value with a quote mark or none on either side, a hash
    sign and the comment, with optional white space after the colon,
    before the hash sign and after it. *)
Definition line_shape (s var value cmd : string) : Prop :=
  exists name ws1 q1 q2 ws2 ws3,
    s = (var ++ ":" ++ ws1 ++ q1 ++ value ++ q2 ++ ws2 ++ "#" ++ ws3
         ++ cmd)%string /\
    var = (name ++ "_image_tag")%string /\
    name <> "" /\ all_chars isword name = true /\
    all_chars isspace ws1 = true /\
    quote_mark q1 /\
    value <> "" /\ all_chars value_char value = true /\
    quote_mark q2 /\
    all_chars isspace ws2 = true /\
    all_chars isspace ws3 = true /\
    comment_shape cmd.

(** The pieces of a trimmed line that has the outline of a declaration:
    a run of word characters, a colon, white space, quote characters,
    the value, quote characters, white space, a hash sign, white space
    and a comment. *)
Definition line_parts (s var ws1 q1 value q2 ws2 ws3 cmd : string) : Prop :=
  s = (var ++ ":" ++ ws1 ++ q1 ++ value ++ q2 ++ ws2 ++ "#" ++ ws3
       ++ cmd)%string /\
  all_chars isword var = true /\
  all_chars isspace ws1 = true /\
  all_chars is_quote q1 = true /\
  value <> "" /\ all_chars value_char value = true /\
  all_chars is_quote q2 = true /\
  all_chars isspace ws2 = true /\
  all_chars isspace ws3 = true /\
  first_char (fun c => negb (isspace c)) cmd.

(** The matching rule as the specification words it: the value is bare
    or stands between two quote marks of one kind, and the comment
    starts with the text [skopeo list-tags], whatever follows. *)
Definition stated_line_shape (s var value cmd : string) : Prop :=
  exists name ws1 q ws2 ws3 tail,
    s = (var ++ ":" ++ ws1 ++ q ++ value ++ q ++ ws2 ++ "#" ++ ws3
         ++ cmd)%string /\
    var = (name ++ "_image_tag")%string /\
    name <> "" /\ all_chars isword name = true /\
    all_chars isspace ws1 = true /\
    quote_mark q /\
    value <> "" /\ all_chars value_char value = true /\
    all_chars isspace ws2 = true /\
    all_chars isspace ws3 = true /\
    cmd = ("skopeo list-tags" ++ tail)%string.

(** A declaration whose value has an opening quote mark and no closing
    one. *)
Definition unpaired_quote_line : string :=
  ("foo_image_tag: " ++ String dquote
   "1.2.3  # skopeo list-tags docker://x")%string.

(** A declaration with a tab between [skopeo] and [list-tags]. *)
Definition tab_line : string :=
  ("foo_image_tag: 1.2.3  # skopeo" ++ String "009"
   "list-tags docker://x")%string.

(** A declaration whose comment stops after [skopeo list-tags]. *)
Definition bare_command_line : string :=
  "foo_image_tag: 1.2.3  # skopeo list-tags".

(** Line [n] of the document, [line], declares the tag source [it]. *)
Definition line_entry (n : nat) (line : string) (it : item) : Prop :=
  line_shape (strip line)
             (variable it) (current_value it) (skopeo_command it) /\
  line_number it = n.

(** The same with the matching rule as the specification words it. *)
Definition stated_line_entry (n : nat) (line : string) (it : item) : Prop :=
  stated_line_shape (strip line)
                    (variable it) (current_value it) (skopeo_command it) /\
  line_number it = n.

(** [its] has one tag source for each of [lines] that declares one
    according to [entry], in the order of the lines, which are numbered
    from [n]. *)
Inductive extracted (entry : nat -> string -> item -> Prop)
  : nat -> list string -> list item -> Prop :=
| ExtNil n :
    extracted entry n [] []
| ExtTake n line lines it its :
    entry n line it -> extracted entry (S n) lines its ->
    extracted entry n (line :: lines) (it :: its)
| ExtSkip n line lines its :
    (forall it, ~ entry n line it) -> extracted entry (S n) lines its ->
    extracted entry n (line :: lines) its.

(** The line of the specification's example; its value is in double
    quotes. *)
Definition example_line : string :=
  ("foo_image_tag: " ++ String dquote "1.2.3" ++ String dquote
   "  # skopeo list-tags docker://x | jq -r '.Tags[]'")%string.

(** An output of twelve lines, with blank lines and padding. *)
Definition example_stdout : string :=
  (String "010" " 1.0 " ++ String "010" "1.1" ++ String "010" ""
   ++ String "010" "1.2" ++ String "010" "1.3" ++ String "010" "1.4"
   ++ String "010" "1.5" ++ String "010" "  " ++ String "010" "1.6"
   ++ String "010" "1.7" ++ String "010" "1.8" ++ String "010" "1.9"
   ++ String "010" "1.10" ++ String "010" "v1.11" ++ String "010" "")%string.

(** An output that lists twelve tags from the newest to the oldest. *)
Definition descending_stdout : string :=
  ("12" ++ String "010" "11" ++ String "010" "10" ++ String "010" "9"
   ++ String "010" "8" ++ String "010" "7" ++ String "010" "6"
   ++ String "010" "5" ++ String "010" "4" ++ String "010" "3"
   ++ String "010" "2" ++ String "010" "1" ++ String "010" "")%string.

(** A shell in which every command prints [example_stdout]. *)
Definition example_shell (command : string) (timeout : nat)
  : result CompletedProcess :=
  Ret (Completed 0 example_stdout).

(** The same declaration with a comment that is not a [skopeo list-tags]
    command. *)
Definition example_line_other_comment : string :=
  ("foo_image_tag: " ++ String dquote "1.2.3" ++ String dquote
   "  # docker://x | jq -r '.Tags[]'")%string.

End Spec.

(* ================================================================= *)
(** ** [main]: the checks, the report and the exit status *)

Module Main.

Import Str CheckImageTags.

(** The options the checks and the report read. The file is given by
    its text, and [--no-color] only changes the escape sequences of the
    texts, which are not modelled. *)
Record arguments := Args {
  timeout : nat;
  updates_only : bool;
  json : bool
}.

(** What [main] writes to standard output, one constructor for each
    [print] that carries data; colours, glyphs and blank lines are left
    out. *)
Inductive printed :=
| SayNoImageTags                            (* no declaration was found *)
| SayChecking (n : nat)                     (* Checking n image tags... *)
| SayItem (variable : string)               (* Checking variable... *)
| SayProgress (word : string)               (* the outcome of one check *)
| SayJson (results : list check)            (* json.dumps(results) *)
| SayResults                                (* the heading of the report *)
| SayUpToDate (variable current : string)   (* the line with a check mark *)
| SayFailed (variable current : string)     (* the line with a cross *)
| SayUpdate (variable current : string) (latest : option string)
| SaySummary (total up_to_date updates errors : nat).

(** An exception nothing catches. *)
Inductive uncaught :=
| UnboundLocalError (name : string)
| Propagated (e : exn).

(** How the program ends. *)
Inductive ending :=
| SysExit (code : Z)
| Traceback (e : uncaught).

(** The local variables of [main] the loop over the items writes:
    [status] is unbound until a check assigns it. *)
Record locals := Locals {
  results : list check;
  updates_available : nat;
  status_var : option string;
  out : list printed
}.

(** [r["status"] == s] *)
Definition has_status (s : string) (r : check) : bool :=
  String.eqb (status r) s.

Section Run.

Variable subprocess_run : string -> nat -> result CompletedProcess.
Variable args : arguments.

(** One turn of the loop over [image_tags]. *)
Definition check_one (st : locals) (it : item) : result locals :=
  let variable := variable it in
  let current := current_value it in
  let command := skopeo_command it in
  let out1 := out st ++ [SayItem variable] in
  tags <- run_skopeo_command subprocess_run command (timeout args) ;;
  match tags with
  | None =>
      Ret (Locals (results st ++ [Check it None "error" []])
                  (updates_available st) (status_var st)
                  (out1 ++ [SayProgress "failed"]))
  | Some tags =>
      latest <- get_latest_tag tags current ;;
      let status :=
        match latest with
        | Some l => if truthy l then compare_versions current l else "unknown"
        | None => "unknown"
        end in
      let r := Check it latest status
                     (match tags with [] => [] | _ => last_n 10 tags end) in
      if String.eqb status "update-available" then
        Ret (Locals (results st ++ [r]) (S (updates_available st))
                    (Some status) (out1 ++ [SayProgress "update available"]))
      else if String.eqb status "up-to-date" then
        Ret (Locals (results st ++ [r]) (updates_available st)
                    (Some status) (out1 ++ [SayProgress "up-to-date"]))
      else
        Ret (Locals (results st ++ [r]) (updates_available st)
                    (Some status) (out1 ++ [SayProgress "unknown"]))
  end.

Fixpoint check_loop (image_tags : list item) (st : locals) : result locals :=
  match image_tags with
  | [] => Ret st
  | it :: image_tags' => st' <- check_one st it ;; check_loop image_tags' st'
  end.

(** [args.updates_only and r["status"] != "update-available"] *)
Definition skipped (r : check) : bool :=
  updates_only args && negb (has_status "update-available" r).

(** The first loop over [results]: it reads the local [status], which
    the loop over the items left, and stops at the first read if that
    loop never bound it. *)
Fixpoint report_checked (status_var : option string) (results : list check)
  : list printed * option uncaught :=
  match results with
  | [] => ([], None)
  | r :: results' =>
      if skipped r then report_checked status_var results'
      else
        let variable := variable (source r) in
        let current := current_value (source r) in
        match status_var with
        | None => ([], Some (UnboundLocalError "status"))
        | Some status =>
            let lines :=
              if String.eqb status "up-to-date" && negb (updates_only args)
              then [SayUpToDate variable current]
              else if String.eqb status "error" && negb (updates_only args)
              then [SayFailed variable current]
              else [] in
            let (more, e) := report_checked status_var results' in
            (lines ++ more, e)
        end
  end.

(** The second loop over [results]. *)
Fixpoint report_updates (results : list check) : list printed :=
  match results with
  | [] => []
  | r :: results' =>
      if skipped r then report_updates results'
      else
        let variable := variable (source r) in
        let current := current_value (source r) in
        let latest := latest_value r in
        let status := status r in
        if String.eqb status "update-available"
        then SayUpdate variable current latest :: report_updates results'
        else report_updates results'
  end.

(** [sys.exit(0 if updates_available == 0 else 1)] *)
Definition exit_status (updates_available : nat) : ending :=
  SysExit (if Nat.eqb updates_available 0 then 0 else 1).

(** What follows the loop over the items. *)
Definition report (st : locals) : list printed * ending :=
  if json args then
    let results :=
      if updates_only args
      then filter (has_status "update-available") (results st)
      else results st in
    (out st ++ [SayJson results], exit_status (updates_available st))
  else
    let out1 := out st ++ [SayResults] in
    match report_checked (status_var st) (results st) with
    | (lines, Some e) => (out1 ++ lines, Traceback e)
    | (lines, None) =>
        (out1 ++ lines ++ report_updates (results st)
         ++ [SaySummary
               (List.length (results st))
               (List.length (filter (has_status "up-to-date") (results st)))
               (updates_available st)
               (List.length (filter (has_status "error") (results st)))],
         exit_status (updates_available st))
    end.

(** [main] from the items on. An exception that leaves the loop ends
    the program; what the loop printed before it is not kept. *)
Definition main_checks (image_tags : list item) : list printed * ending :=
  match image_tags with
  | [] => ([SayNoImageTags], SysExit 0)
  | _ =>
      let start := Locals [] 0 None [SayChecking (List.length image_tags)] in
      match check_loop image_tags start with
      | Ret st => report st
      | Raise e => (out start, Traceback (Propagated e))
      end
  end.

(** [main] once the file has been found; [text] is what is in it. *)
Definition main (text : string) : list printed * ending :=
  main_checks (parse_image_tag_lines text).

(** The records of [image_tags], as [main_loop] gives them. *)
Definition checks (image_tags : list item) : list check :=
  match main_loop subprocess_run (timeout args) image_tags with
  | Ret rs => rs
  | Raise _ => []
  end.

End Run.

(** The status the loop over the items leaves in the local [status]:
    the status of the last record that is not an error, if there is
    one. *)
Fixpoint last_status (bound : option string) (rs : list check)
  : option string :=
  match rs with
  | [] => bound
  | r :: rs' =>
      last_status (if has_status "error" r then bound else Some (status r)) rs'
  end.

(** The number of records with status [s]. *)
Definition count_status (s : string) (rs : list check) : nat :=
  List.length (filter (has_status s) rs).

Definition is_SayUpToDate (p : printed) : bool :=
  match p with SayUpToDate _ _ => true | _ => false end.

Definition is_SayUpdate (p : printed) : bool :=
  match p with SayUpdate _ _ _ => true | _ => false end.

Definition is_SayJson (p : printed) : bool :=
  match p with SayJson _ => true | _ => false end.

Definition is_SaySummary (p : printed) : bool :=
  match p with SaySummary _ _ _ _ => true | _ => false end.

Definition is_SayFailed (p : printed) : bool :=
  match p with SayFailed _ _ => true | _ => false end.

(** The line with a check mark for the record [r]. *)
Definition up_to_date_line (r : check) : printed :=
  SayUpToDate (variable (source r)) (current_value (source r)).

(** The lines that announce the update of the record [r]. *)
Definition update_line (r : check) : printed :=
  SayUpdate (variable (source r)) (current_value (source r)) (latest_value r).

End Main.

(* ================================================================= *)
(** ** plugins/lookup/traefik_labels.py *)

Module TraefikLabels.

(** The values the lookup is given: texts and integers. *)
Inductive value :=
| VStr (s : string)
| VInt (z : Z).

(** [str(v)], which is also what an f-string puts for [{v}]. *)
Definition str (v : value) : string :=
  match v with
  | VStr s => s
  | VInt z => DecimalString.NilZero.string_of_int (Z.to_int z)
  end.

(** A [dict] with texts as keys, in the order of insertion. *)
Definition dict := list (string * value).

(** [d.get(k, default)] *)
Fixpoint dict_get (d : dict) (k : string) (default : value) : value :=
  match d with
  | [] => default
  | (k', v) :: d' => if String.eqb k' k then v else dict_get d' k default
  end.

(** [d[k] = v]: a key that is there keeps its place. *)
Fixpoint dict_set (d : dict) (k : string) (v : value) : dict :=
  match d with
  | [] => [(k, v)]
  | (k', v') :: d' =>
      if String.eqb k' k then (k, v) :: d' else (k', v') :: dict_set d' k v
  end.

(** A dictionary display: the pairs are inserted from left to right. *)
Definition dict_of (pairs : list (string * value)) : dict :=
  fold_left (fun d p => dict_set d (fst p) (snd p)) pairs [].

Definition keys (d : dict) : list string := map fst d.

Inductive lookup_exn :=
| AnsibleError (message : string)
| LookupIndexError.

Inductive outcome :=
| Returns (l : list dict)
| Raises (e : lookup_exn).

(** [terms[i]] *)
Definition item (terms : list value) (i : nat) (k : value -> outcome)
  : outcome :=
  match nth_error terms i with
  | Some v => k v
  | None => Raises LookupIndexError
  end.

(** [LookupModule.run(self, terms, variables=None, **kwargs)]; [self]
    and [variables] are not read. *)
Definition run (terms : list value) (kwargs : dict) : outcome :=
  if Nat.ltb (List.length terms) 3 then
    Raises (AnsibleError
              "traefik_labels lookup requires 3 arguments: name, host, port")
  else
    item terms 0 (fun name =>
    item terms 1 (fun host =>
    item terms 2 (fun port =>
    let entrypoint := dict_get kwargs "entrypoint" (VStr "websecure") in
    let network := dict_get kwargs "network" (VStr "traefik") in
    let labels :=
      dict_of
        [("traefik.enable", VStr "true");
         ("traefik.docker.network", network);
         ("traefik.http.routers." ++ str name ++ ".rule",
          VStr ("Host(`" ++ str host ++ "`)"));
         ("traefik.http.routers." ++ str name ++ ".entrypoints", entrypoint);
         ("traefik.http.services." ++ str name
          ++ ".loadbalancer.server.port",
          VStr (str port))]%string in
    Returns [labels]))).

(** The keys of the labels that carry the name [name]. *)
Definition router_keys (name : string) : list string :=
  ["traefik.http.routers." ++ name ++ ".rule";
   "traefik.http.routers." ++ name ++ ".entrypoints";
   "traefik.http.services." ++ name ++ ".loadbalancer.server.port"]%string.

End TraefikLabels.

(* ================================================================= *)
(** ** Shapes of tags *)

Module Tags.

Import Str CheckImageTags.

(** A text that does not carry on a numeric run: it starts neither with
    a digit nor with a separator that a digit follows. *)
Definition ends_run (suffix : string) : bool :=
  match suffix with
  | EmptyString => true
  | String c s' =>
      negb (isdecimal c) &&
      negb (is_sep c &&
            match s' with String d _ => isdecimal d | EmptyString => false end)
  end.

(** One of the spellings of the prefix that [parse_version] removes
    from a tag whose version starts with a digit, or none. *)
Definition v_prefix (pre : string) : Prop :=
  pre = "" \/ pre = "v" \/ pre = "V".

End Tags.

(* ================================================================= *)
(** * Properties *)

Import Str Re CheckImageTags Spec.

(** ** Strings *)

Lemma sapp_nil_r (s : string) : (s ++ "")%string = s.
Proof. induction s; simpl; congruence. Qed.

Lemma sapp_assoc (a b c : string) :
  ((a ++ b) ++ c)%string = (a ++ b ++ c)%string.
Proof. induction a; simpl; congruence. Qed.

Lemma slength_app (a b : string) :
  String.length (a ++ b) = String.length a + String.length b.
Proof. induction a; simpl; congruence. Qed.

Lemma slice_from_app (w x : string) :
  slice_from (String.length w) (w ++ x) = x.
Proof. induction w; simpl; auto. Qed.

Lemma slice_to_app (w x : string) :
  slice_to (String.length w) (w ++ x) = w.
Proof. induction w; simpl; congruence. Qed.

Lemma startswith_app (l x : string) : startswith (l ++ x) l = true.
Proof.
  induction l as [|c l IH]; simpl; [reflexivity|].
  rewrite Ascii.eqb_refl. exact IH.
Qed.

Lemma startswith_inv (s l : string) :
  startswith s l = true ->
  s = (l ++ slice_from (String.length l) s)%string.
Proof.
  revert s. induction l as [|c l IH]; intros s H; simpl in *.
  - reflexivity.
  - destruct s as [|a s]; [discriminate|].
    apply andb_true_iff in H. destruct H as [Ha Hs].
    apply Ascii.eqb_eq in Ha. subst a. f_equal. apply IH. exact Hs.
Qed.

Lemma all_chars_app (p : ascii -> bool) (a b : string) :
  all_chars p (a ++ b) = all_chars p a && all_chars p b.
Proof.
  induction a as [|c a IH]; simpl; [reflexivity|].
  rewrite IH. apply andb_assoc.
Qed.

(** ** The matcher *)

Lemma flat_map_ext_in {A B} (f g : A -> list B) (l : list A) :
  (forall a, In a l -> f a = g a) -> flat_map f l = flat_map g l.
Proof.
  induction l as [|a l IH]; intros H; simpl; [reflexivity|].
  rewrite (H a) by (left; reflexivity).
  rewrite IH; [reflexivity|].
  intros b Hb. apply H. right. exact Hb.
Qed.

Lemma progress_lt (st st' : mstate) :
  progress st st' = true <->
  String.length (rest st') < String.length (rest st).
Proof. unfold progress. apply Nat.ltb_lt. Qed.

Lemma filter_progress_nil (st : mstate) (l : list mstate) :
  String.length (rest st) = 0 -> filter (progress st) l = [].
Proof.
  intros H. induction l as [|x l IH]; simpl; [reflexivity|].
  destruct (progress st x) eqn:E; [|exact IH].
  apply progress_lt in E. lia.
Qed.

(** Any fuel that covers the subject gives the same repetitions. *)
Lemma star_fuel (step : mstate -> list mstate) :
  forall f1 f2 st,
    String.length (rest st) <= f1 -> String.length (rest st) <= f2 ->
    star step f1 st = star step f2 st.
Proof.
  induction f1 as [|f1 IH]; intros [|f2] st H1 H2; simpl.
  - reflexivity.
  - rewrite filter_progress_nil by lia. reflexivity.
  - rewrite filter_progress_nil by lia. reflexivity.
  - f_equal. apply flat_map_ext_in. intros x Hx.
    apply filter_In in Hx. destruct Hx as [_ Hx].
    apply progress_lt in Hx. apply IH; lia.
Qed.

Lemma run_Star (r : regex) (st : mstate) :
  run (Star r) st =
  flat_map (run (Star r)) (filter (progress st) (run r st)) ++ [st].
Proof.
  simpl. destruct (String.length (rest st)) as [|n] eqn:E; simpl.
  - rewrite filter_progress_nil by exact E. reflexivity.
  - f_equal. apply flat_map_ext_in. intros x Hx.
    apply filter_In in Hx. destruct Hx as [_ Hx].
    apply progress_lt in Hx. apply star_fuel; lia.
Qed.

Lemma star_sound (r : regex) :
  (forall st st', In st' (run r st) -> matches r st st') ->
  forall fuel st st', In st' (star (run r) fuel st) -> matches (Star r) st st'.
Proof.
  intros IHr. induction fuel as [|fuel IH]; intros st st' H; simpl in H.
  - destruct H as [<-|[]]. constructor.
  - apply in_app_or in H. destruct H as [H|[<-|[]]]; [|constructor].
    apply in_flat_map in H. destruct H as [mid [Hmid Hst']].
    apply filter_In in Hmid. destruct Hmid as [Hmid Hp].
    eapply MStarStep; eauto.
Qed.

Lemma run_sound (r : regex) :
  forall st st', In st' (run r st) -> matches r st st'.
Proof.
  induction r; intros st st' H; simpl in H.
  - destruct (rest st) as [|c s] eqn:E; [destruct H|].
    destruct (p c) eqn:Ep; [|destruct H].
    destruct H as [<-|[]]. econstructor; eauto.
  - destruct (startswith (rest st) s) eqn:E; [|destruct H].
    destruct H as [<-|[]]. constructor. exact E.
  - apply in_flat_map in H. destruct H as [mid [H1 H2]].
    econstructor; eauto.
  - apply in_app_or in H. destruct H as [H|[<-|[]]].
    + apply MOptTake. auto.
    + apply MOptSkip.
  - eapply star_sound; eauto.
  - apply in_map_iff in H. destruct H as [x [<- Hx]].
    constructor. auto.
  - destruct (Nat.eqb (pos st) 0) eqn:E; [|destruct H].
    destruct H as [<-|[]]. constructor. apply Nat.eqb_eq. exact E.
  - destruct (rest st) as [|c [|d s]] eqn:E.
    + destruct H as [<-|[]]. apply MEolEnd. exact E.
    + destruct (Ascii.eqb c "010") eqn:Ec; [|destruct H].
      destruct H as [<-|[]]. apply Ascii.eqb_eq in Ec. subst c.
      apply MEolNewline. exact E.
    + destruct H.
Qed.

Lemma run_complete (r : regex) (st st' : mstate) :
  matches r st st' -> In st' (run r st).
Proof.
  induction 1.
  - simpl. rewrite H, H0. left. reflexivity.
  - simpl. rewrite H. left. reflexivity.
  - simpl. apply in_flat_map. eauto.
  - simpl. apply in_or_app. left. assumption.
  - simpl. apply in_or_app. right. left. reflexivity.
  - rewrite run_Star. apply in_or_app. right. left. reflexivity.
  - rewrite run_Star. apply in_or_app. left.
    apply in_flat_map. exists mid. split; [|assumption].
    apply filter_In. split; assumption.
  - simpl. apply in_map. assumption.
  - simpl. rewrite H. simpl. left. reflexivity.
  - simpl. rewrite H. left. reflexivity.
  - simpl. rewrite H. simpl. left. reflexivity.
Qed.

Lemma rmatch_matches (r : regex) (s : string) (m : mstate) :
  rmatch r s = Some m -> matches r (MState 0 s []) m.
Proof.
  unfold rmatch. intros H. apply run_sound.
  destruct (run r (MState 0 s [])); simpl in H; [discriminate|].
  inversion H. left. reflexivity.
Qed.

Lemma matches_rmatch (r : regex) (s : string) (m : mstate) :
  matches r (MState 0 s []) m -> exists m', rmatch r s = Some m'.
Proof.
  intros H. apply run_complete in H. unfold rmatch.
  destruct (run r (MState 0 s [])) as [|m' l]; [destruct H|].
  exists m'. reflexivity.
Qed.

(** *** Moves *)

Lemma moved_refl (st : mstate) : moved [] "" st st.
Proof. unfold moved. simpl. rewrite Nat.add_0_r. auto. Qed.

Lemma moved_trans gs1 gs2 w1 w2 (st mid st' : mstate) :
  moved gs1 w1 st mid -> moved gs2 w2 mid st' ->
  moved (gs2 ++ gs1) (w1 ++ w2) st st'.
Proof.
  intros (R1 & P1 & G1) (R2 & P2 & G2). unfold moved.
  rewrite R1, R2, P2, P1, G2, G1, sapp_assoc, slength_app, <- app_assoc.
  repeat split; lia.
Qed.

Lemma moved_eq gs w (st st' : mstate) :
  moved gs w st st' ->
  st' = MState (pos st + String.length w) (rest st') (gs ++ groups st).
Proof.
  intros (_ & P & G). destruct st' as [p r g]. simpl in *. congruence.
Qed.

(** The state a move ends in. *)
Lemma moved_intro gs w x (st : mstate) :
  rest st = (w ++ x)%string ->
  moved gs w st (MState (pos st + String.length w) x (gs ++ groups st)).
Proof. intros H. unfold moved. simpl. auto. Qed.

Lemma moved_advance w (st st' : mstate) :
  moved [] w st st' -> st' = advance (String.length w) st.
Proof.
  intros H. rewrite (moved_eq _ _ _ _ H).
  destruct H as (R & _ & _). unfold advance.
  rewrite R, slice_from_app. reflexivity.
Qed.

Lemma moved_capture n gs w (st st' : mstate) :
  moved gs w st st' -> moved ((n, w) :: gs) w st (capture n st st').
Proof.
  intros (R & P & G). unfold moved, capture. simpl.
  rewrite P, G, R. replace (pos st + String.length w - pos st) with (String.length w) by lia.
  rewrite slice_to_app. auto.
Qed.

(** *** One character, literal text *)

Lemma matches_Chars (p : ascii -> bool) (st st' : mstate) :
  matches (Chars p) st st' <->
  exists c, p c = true /\ moved [] (String c "") st st'.
Proof.
  split.
  - inversion 1; subst.
    match goal with
    | Hr : rest st = String ?c _ |- _ =>
        exists c; split; [assumption|];
        unfold moved, advance; simpl; rewrite Hr; simpl; auto
    end.
  - intros (c & Hc & H). rewrite (moved_advance _ _ _ H).
    destruct H as (R & _). simpl in *. econstructor; eauto.
Qed.

Lemma matches_Lit (l : string) (st st' : mstate) :
  matches (Lit l) st st' <-> moved [] l st st'.
Proof.
  split.
  - inversion 1; subst. unfold moved, advance. simpl.
    split; [apply startswith_inv; assumption | auto].
  - intros H. rewrite (moved_advance _ _ _ H).
    destruct H as (R & _). constructor. rewrite R. apply startswith_app.
Qed.

(** *** Sequences, options, repetitions, groups *)

Lemma matches_Cat (r1 r2 : regex) (st st' : mstate) :
  matches (r1 >> r2) st st' <->
  exists mid, matches r1 st mid /\ matches r2 mid st'.
Proof.
  split.
  - inversion 1; subst. eauto.
  - intros (mid & H1 & H2). econstructor; eauto.
Qed.

Lemma matches_Group (n : nat) (r : regex) (st st'' : mstate) :
  matches (Group n r) st st'' <->
  exists st', matches r st st' /\ st'' = capture n st st'.
Proof.
  split.
  - inversion 1; subst. eauto.
  - intros (st' & H & ->). constructor. exact H.
Qed.

Lemma moved_nil_eq (st st' : mstate) : moved [] "" st st' -> st' = st.
Proof.
  intros H. rewrite (moved_eq _ _ _ _ H).
  destruct H as (R & _). destruct st as [p r g]. simpl in *.
  rewrite Nat.add_0_r. congruence.
Qed.

Lemma matches_Star_Chars (p : ascii -> bool) (st st' : mstate) :
  matches (Star (Chars p)) st st' <->
  exists w, all_chars p w = true /\ moved [] w st st'.
Proof.
  split.
  - intros H. remember (Star (Chars p)) as r eqn:Er.
    induction H; try discriminate; inversion Er; subst.
    + exists "". split; [reflexivity | apply moved_refl].
    + apply matches_Chars in H. destruct H as (c & Hc & Hm).
      destruct (IHmatches2 eq_refl) as (w & Hw & Hm').
      exists (String c w). split; [simpl; rewrite Hc; exact Hw|].
      apply (moved_trans _ _ _ _ _ _ _ Hm Hm').
  - intros (w & Hw & H). revert st H.
    induction w as [|c w IH]; intros st H.
    + apply moved_nil_eq in H. subst. constructor.
    + simpl in Hw. apply andb_true_iff in Hw. destruct Hw as [Hc Hw].
      destruct H as (R & P & G). simpl in R.
      set (mid := MState (pos st + 1) (w ++ rest st') (groups st)).
      assert (Hmid : moved [] (String c "") st mid)
        by (apply (moved_intro [] (String c "")); exact R).
      apply MStarStep with (mid := mid).
      * apply matches_Chars. eauto.
      * apply progress_lt. rewrite R. simpl. lia.
      * apply IH; [exact Hw|]. unfold moved, mid. simpl in *.
        repeat split; [lia | exact G].
Qed.

Lemma matches_Plus_Chars (p : ascii -> bool) (st st' : mstate) :
  matches (Plus (Chars p)) st st' <->
  exists w, w <> "" /\ all_chars p w = true /\ moved [] w st st'.
Proof.
  unfold Plus. rewrite matches_Cat. split.
  - intros (mid & H1 & H2).
    apply matches_Chars in H1. destruct H1 as (c & Hc & Hm).
    apply matches_Star_Chars in H2. destruct H2 as (w & Hw & Hm').
    exists (String c w). split; [discriminate|].
    split; [simpl; rewrite Hc; exact Hw|].
    apply (moved_trans _ _ _ _ _ _ _ Hm Hm').
  - intros (w & Hne & Hw & H).
    destruct w as [|c w]; [congruence|].
    simpl in Hw. apply andb_true_iff in Hw. destruct Hw as [Hc Hw].
    destruct H as (R & P & G). simpl in R.
    exists (MState (pos st + 1) (w ++ rest st') (groups st)). split.
    + apply matches_Chars. exists c. split; [exact Hc|].
      apply (moved_intro [] (String c "")). exact R.
    + apply matches_Star_Chars. exists w. split; [exact Hw|].
      unfold moved. simpl in *. repeat split; [lia | exact G].
Qed.

Lemma matches_Opt_Chars (p : ascii -> bool) (st st' : mstate) :
  matches (Opt (Chars p)) st st' <->
  exists w, (w = "" \/ exists c, w = String c "" /\ p c = true) /\
            moved [] w st st'.
Proof.
  split.
  - inversion 1; subst.
    + match goal with H : matches (Chars p) _ _ |- _ =>
        apply matches_Chars in H; destruct H as (c & Hc & Hm) end.
      exists (String c ""). split; [right; eauto | exact Hm].
    + exists "". split; [left; reflexivity | apply moved_refl].
  - intros (w & [->|(c & -> & Hc)] & H).
    + apply moved_nil_eq in H. subst. apply MOptSkip.
    + apply MOptTake. apply matches_Chars. eauto.
Qed.

Lemma matches_Bol (st st' : mstate) :
  matches Bol st st' <-> st' = st /\ pos st = 0.
Proof.
  split.
  - inversion 1; subst. auto.
  - intros [-> H]. constructor. exact H.
Qed.

Lemma matches_Eol (st st' : mstate) :
  matches Eol st st' <->
  st' = st /\ (rest st = "" \/ rest st = String "010" "").
Proof.
  split.
  - inversion 1; subst; auto.
  - intros [-> [H|H]]; [apply MEolEnd | apply MEolNewline]; exact H.
Qed.

(** *** What a pattern denotes *)

Lemma moved_split gs1 gs2 w1 w2 (st st' : mstate) :
  moved (gs2 ++ gs1) (w1 ++ w2) st st' ->
  exists mid, moved gs1 w1 st mid /\ moved gs2 w2 mid st' /\
              rest mid = (w2 ++ rest st')%string.
Proof.
  intros (R & P & G).
  exists (MState (pos st + String.length w1) (w2 ++ rest st') (gs1 ++ groups st)).
  unfold moved. simpl.
  rewrite R, P, G, sapp_assoc, slength_app, <- app_assoc.
  repeat split; lia.
Qed.

Lemma moved_uncapture_gs n gs w (st st'' : mstate) :
  moved ((n, w) :: gs) w st st'' ->
  exists st', moved gs w st st' /\ st'' = capture n st st'.
Proof.
  intros H. exists (MState (pos st'') (rest st'') (gs ++ groups st)).
  pose proof H as (R & P & G). split.
  - unfold moved. simpl. auto.
  - destruct st'' as [p r g]. unfold capture. simpl in *. subst p g.
    rewrite R.
    replace (pos st + String.length w - pos st) with (String.length w) by lia.
    rewrite slice_to_app. reflexivity.
Qed.

Lemma denotes_ext r (P Q : list (nat * string) -> string -> string -> Prop) :
  denotes r P -> (forall gs w x, P gs w x <-> Q gs w x) -> denotes r Q.
Proof.
  intros H HPQ st st'. rewrite (H st st'). split.
  - intros (gs & w & HP & Hm). exists gs, w. split; [apply HPQ|]; assumption.
  - intros (gs & w & HQ & Hm). exists gs, w. split; [apply HPQ|]; assumption.
Qed.

Lemma denotes_Chars p :
  denotes (Chars p)
          (fun gs w _ => gs = [] /\ exists c, w = String c "" /\ p c = true).
Proof.
  intros st st'. rewrite matches_Chars. split.
  - intros (c & Hc & Hm). exists [], (String c ""). eauto 6.
  - intros (gs & w & (-> & c & -> & Hc) & Hm). eauto.
Qed.

Lemma denotes_Lit l :
  denotes (Lit l) (fun gs w _ => gs = [] /\ w = l).
Proof.
  intros st st'. rewrite matches_Lit. split.
  - intros Hm. exists [], l. auto.
  - intros (gs & w & (-> & ->) & Hm). exact Hm.
Qed.

Lemma denotes_Star_Chars p :
  denotes (Star (Chars p)) (fun gs w _ => gs = [] /\ all_chars p w = true).
Proof.
  intros st st'. rewrite matches_Star_Chars. split.
  - intros (w & Hw & Hm). exists [], w. auto.
  - intros (gs & w & (-> & Hw) & Hm). eauto.
Qed.

Lemma denotes_Plus_Chars p :
  denotes (Plus (Chars p))
          (fun gs w _ => gs = [] /\ w <> "" /\ all_chars p w = true).
Proof.
  intros st st'. rewrite matches_Plus_Chars. split.
  - intros (w & Hne & Hw & Hm). exists [], w. auto.
  - intros (gs & w & (-> & Hne & Hw) & Hm). eauto.
Qed.

Lemma denotes_Opt_Chars p :
  denotes (Opt (Chars p))
          (fun gs w _ =>
             gs = [] /\ (w = "" \/ exists c, w = String c "" /\ p c = true)).
Proof.
  intros st st'. rewrite matches_Opt_Chars. split.
  - intros (w & Hw & Hm). exists [], w. auto.
  - intros (gs & w & (-> & Hw) & Hm). eauto.
Qed.

Lemma denotes_Eol :
  denotes Eol
          (fun gs w x => gs = [] /\ w = "" /\ (x = "" \/ x = String "010" "")).
Proof.
  intros st st'. rewrite matches_Eol. split.
  - intros (-> & H). exists [], "". split; [auto | apply moved_refl].
  - intros (gs & w & (-> & -> & H) & Hm).
    apply moved_nil_eq in Hm. subst. auto.
Qed.

Lemma denotes_Cat r1 r2 P1 P2 :
  denotes r1 P1 -> denotes r2 P2 ->
  denotes (r1 >> r2)
          (fun gs w x =>
             exists gs1 w1 gs2 w2,
               P1 gs1 w1 (w2 ++ x)%string /\ P2 gs2 w2 x /\
               gs = gs2 ++ gs1 /\ w = (w1 ++ w2)%string).
Proof.
  intros H1 H2 st st'. rewrite matches_Cat. split.
  - intros (mid & Ha & Hb).
    apply H1 in Ha. destruct Ha as (gs1 & w1 & HP1 & Hm1).
    apply H2 in Hb. destruct Hb as (gs2 & w2 & HP2 & Hm2).
    exists (gs2 ++ gs1), (w1 ++ w2)%string. split.
    + exists gs1, w1, gs2, w2.
      destruct Hm2 as (R2 & _). rewrite <- R2. auto.
    + apply (moved_trans _ _ _ _ _ _ _ Hm1 Hm2).
  - intros (gs & w & (gs1 & w1 & gs2 & w2 & HP1 & HP2 & -> & ->) & Hm).
    apply moved_split in Hm. destruct Hm as (mid & Hm1 & Hm2 & Rmid).
    exists mid. split.
    + apply H1. exists gs1, w1. rewrite Rmid. auto.
    + apply H2. eauto.
Qed.

Lemma denotes_Group n r P :
  denotes r P ->
  denotes (Group n r)
          (fun gs w x => exists gs', P gs' w x /\ gs = (n, w) :: gs').
Proof.
  intros H st st''. rewrite matches_Group. split.
  - intros (st' & Hr & ->).
    apply H in Hr. destruct Hr as (gs & w & HP & Hm).
    exists ((n, w) :: gs), w. split; [eauto|].
    apply moved_capture. exact Hm.
  - intros (gs & w & (gs' & HP & ->) & Hm).
    apply moved_uncapture_gs in Hm. destruct Hm as (st' & Hm & ->).
    exists st'. split; [|reflexivity]. apply H. eauto.
Qed.

Lemma code_is_eq (n : N) (c : ascii) :
  (n < 256)%N -> code_is n c = true -> c = ascii_of_N n.
Proof.
  unfold code_is, code. intros Hn H. apply N.eqb_eq in H.
  rewrite <- H. symmetry. apply ascii_N_embedding.
Qed.

Lemma is_quote_iff (c : ascii) :
  is_quote c = true <-> c = dquote \/ c = squote.
Proof.
  unfold is_quote. rewrite orb_true_iff. split.
  - intros [H|H]; apply code_is_eq in H; try reflexivity; auto.
  - intros [->| ->]; [left | right]; reflexivity.
Qed.

Lemma quote_mark_iff (q : string) :
  quote_mark q <->
  (q = "" \/ exists c, q = String c "" /\ is_quote c = true).
Proof.
  unfold quote_mark. split.
  - intros [->|[->| ->]]; [left; reflexivity | right | right];
      eexists; (split; [reflexivity|]); reflexivity.
  - intros [->|(c & -> & Hc)]; [left; reflexivity|].
    apply is_quote_iff in Hc. destruct Hc as [->| ->]; auto.
Qed.

Ltac denote :=
  repeat first
    [ apply denotes_Plus_Chars | apply denotes_Star_Chars
    | apply denotes_Opt_Chars | apply denotes_Chars | apply denotes_Lit
    | apply denotes_Eol | eapply denotes_Group | eapply denotes_Cat ].

(** Rebuilds what [denote] produced from the texts of the pieces. *)
Ltac rebuild :=
  lazymatch goal with
  | |- exists _ _ _ _, _ /\ _ /\ _ = _ ++ _ /\ _ = _ =>
      do 4 eexists;
      (split; [|split; [|split; [|reflexivity]]]);
      [rebuild | rebuild | reflexivity]
  | |- exists _, _ /\ _ = _ :: _ =>
      eexists; split; [rebuild | reflexivity]
  | |- _ = [] /\ _ =>
      split; [reflexivity | repeat split; solve [reflexivity | assumption]]
  end.

Lemma denotes_line :
  denotes
    (Group 1 (Plus (Chars isword) >> Lit "_image_tag") >> Lit ":" >>
     Star (Chars isspace) >>
     Opt (Chars is_quote) >> Group 2 (Plus (Chars value_char)) >>
     Opt (Chars is_quote) >> Star (Chars isspace) >>
     Lit "#" >> Star (Chars isspace) >>
     Group 3 (Lit "skopeo" >> Plus (Chars isspace) >> Lit "list-tags" >>
              Plus (Chars isspace) >> Plus (Chars any_char)) >>
     Eol)
    (fun gs w x =>
       (x = "" \/ x = String "010" "") /\
       exists var value cmd,
         line_shape w var value cmd /\
         gs = [(3, cmd); (2, value); (1, var)]).
Proof.
  eapply denotes_ext.
  - denote.
  - intros gs w x. cbv beta. split.
    + intros H.
      repeat match goal with
             | H : exists _, _ |- _ => destruct H
             | H : _ /\ _ |- _ => destruct H
             end.
      subst. split; [assumption|].
      do 3 eexists. split; [|reflexivity].
      rewrite sapp_nil_r.
      do 6 eexists. split; [reflexivity|].
      repeat match goal with
             | H : _ \/ exists c, _ |- _ => apply quote_mark_iff in H
             end.
      repeat (split; [first [reflexivity | assumption]|]).
      do 3 eexists. split; [reflexivity|]. auto 10.
    + intros (Hx & var & value & cmd & Hs & ->).
      destruct Hs as (name & ws1 & q1 & q2 & ws2 & ws3 & -> & -> & Hn & Hname
                      & Hws1 & Hq1 & Hv & Hvalue & Hq2 & Hws2 & Hws3 & Hc).
      destruct Hc as (ws4 & ws5 & tail & Ecmd & Hn4 & Hws4 & Hn5 & Hws5
                      & Hnt & Htail).
      apply quote_mark_iff in Hq1, Hq2.
      replace (ws3 ++ cmd)%string with (ws3 ++ cmd ++ "")%string
        by (rewrite sapp_nil_r; reflexivity).
      rewrite Ecmd.
      rebuild.
Qed.

(** ** Character sets *)

Ltac by_chars c :=
  destruct c as [[] [] [] [] [] [] [] []]; vm_compute;
  first [reflexivity | discriminate | intros; first [reflexivity | discriminate]].

Lemma quote_not_space c : is_quote c = true -> negb (isspace c) = true.
Proof. by_chars c. Qed.

Lemma value_not_space c : value_char c = true -> negb (isspace c) = true.
Proof. by_chars c. Qed.

Lemma value_not_quote c : value_char c = true -> negb (is_quote c) = true.
Proof. by_chars c. Qed.

Lemma quote_not_value c : is_quote c = true -> negb (value_char c) = true.
Proof. by_chars c. Qed.

Lemma space_not_value c : isspace c = true -> negb (value_char c) = true.
Proof. by_chars c. Qed.

Lemma space_not_quote c : isspace c = true -> negb (is_quote c) = true.
Proof. by_chars c. Qed.

Lemma all_chars_impl (p q : ascii -> bool) (s : string) :
  (forall c, p c = true -> q c = true) ->
  all_chars p s = true -> all_chars q s = true.
Proof.
  intros Hpq. induction s as [|c s IH]; simpl; [reflexivity|].
  rewrite !andb_true_iff. intros [Hc Hs]. auto.
Qed.

Lemma first_char_app (p : ascii -> bool) (a x : string) :
  all_chars p a = true -> first_char p x -> first_char p (a ++ x).
Proof.
  destruct a as [|c a]; simpl; [auto|].
  rewrite andb_true_iff. intros [Hc _] _. exact Hc.
Qed.

Lemma first_char_app_ne (p : ascii -> bool) (a x : string) :
  a <> "" -> all_chars p a = true -> first_char p (a ++ x).
Proof.
  destruct a as [|c a]; simpl; [congruence|].
  rewrite andb_true_iff. intros _ [Hc _]. exact Hc.
Qed.

(** A run of characters of a set, followed by something that does not
    start with one, can be read off a text in one way only. *)
Lemma span_unique (p : ascii -> bool) :
  forall a b x y,
    all_chars p a = true -> all_chars p b = true ->
    first_char (fun c => negb (p c)) x ->
    first_char (fun c => negb (p c)) y ->
    (a ++ x)%string = (b ++ y)%string -> a = b /\ x = y.
Proof.
  induction a as [|c a IH]; intros [|d b] x y Ha Hb Hx Hy E; simpl in *.
  - auto.
  - subst x. simpl in Hx. apply andb_true_iff in Hb. destruct Hb as [Hd _].
    rewrite Hd in Hx. discriminate.
  - subst y. simpl in Hy. apply andb_true_iff in Ha. destruct Ha as [Hc _].
    rewrite Hc in Hy. discriminate.
  - inversion E; subst.
    apply andb_true_iff in Ha, Hb. destruct Ha as [_ Ha], Hb as [_ Hb].
    destruct (IH b x y Ha Hb Hx Hy) as [-> ->]; auto.
Qed.

Lemma quote_mark_all (q : string) :
  quote_mark q -> all_chars is_quote q = true.
Proof. intros [->|[->| ->]]; reflexivity. Qed.

(** ** [parse_image_tag_lines] *)

(** A line has at most one outline. *)
Lemma line_parts_unique
  (s var ws1 q1 value q2 ws2 ws3 cmd
     var' ws1' q1' value' q2' ws2' ws3' cmd' : string) :
  line_parts s var ws1 q1 value q2 ws2 ws3 cmd ->
  line_parts s var' ws1' q1' value' q2' ws2' ws3' cmd' ->
  var = var' /\ q1 = q1' /\ value = value' /\ q2 = q2' /\ cmd = cmd'.
Proof.
  intros (Es & Hvar & Hws1 & Hq1 & Hv & Hvalue & Hq2 & Hws2 & Hws3 & Hc).
  intros (Es' & Hvar' & Hws1' & Hq1' & Hv' & Hvalue' & Hq2' & Hws2' & Hws3'
          & Hc').
  rewrite Es in Es'. clear Es.
  (* the variable *)
  apply span_unique with (p := isword) in Es'; try assumption;
    try reflexivity.
  destruct Es' as [Evar E]. split; [exact Evar|].
  simpl in E. inversion E as [E1]. clear E.
  (* the white space after the colon *)
  apply span_unique with (p := isspace) in E1; try assumption;
    try (apply first_char_app;
         [ eapply all_chars_impl; [apply quote_not_space | assumption]
         | apply first_char_app_ne; [assumption|];
           eapply all_chars_impl; [apply value_not_space | assumption] ]).
  destruct E1 as [_ E2].
  (* the opening quote *)
  apply span_unique with (p := is_quote) in E2; try assumption;
    try (apply first_char_app_ne; [assumption|];
         eapply all_chars_impl; [apply value_not_quote | assumption]).
  destruct E2 as [Eq1 E3]. split; [exact Eq1|].
  (* the value *)
  apply span_unique with (p := value_char) in E3; try assumption;
    try (apply first_char_app;
         [ eapply all_chars_impl; [apply quote_not_value | assumption]
         | apply first_char_app;
           [ eapply all_chars_impl; [apply space_not_value | assumption]
           | reflexivity ] ]).
  destruct E3 as [Evalue E4]. split; [exact Evalue|].
  (* the closing quote, the white space, the hash sign *)
  apply span_unique with (p := is_quote) in E4; try assumption;
    try (apply first_char_app;
         [ eapply all_chars_impl; [apply space_not_quote | assumption]
         | reflexivity ]).
  destruct E4 as [Eq2 E5]. split; [exact Eq2|].
  apply span_unique with (p := isspace) in E5; try assumption;
    try reflexivity.
  destruct E5 as [_ E6].
  simpl in E6. inversion E6 as [E7]. clear E6.
  apply span_unique with (p := isspace) in E7; try assumption.
  destruct E7 as [_ E8]. exact E8.
Qed.

Lemma line_shape_parts (s var value cmd : string) :
  line_shape s var value cmd ->
  exists ws1 q1 q2 ws2 ws3,
    line_parts s var ws1 q1 value q2 ws2 ws3 cmd.
Proof.
  intros (name & ws1 & q1 & q2 & ws2 & ws3 & Es & -> & Hn & Hname
          & Hws1 & Hq1 & Hv & Hvalue & Hq2 & Hws2 & Hws3 & Hc).
  destruct Hc as (ws4 & ws5 & tail & Ec & _).
  exists ws1, q1, q2, ws2, ws3. unfold line_parts.
  repeat split; try assumption; try (apply quote_mark_all; assumption).
  - rewrite all_chars_app, Hname. reflexivity.
  - rewrite Ec. reflexivity.
Qed.

Lemma stated_line_shape_parts (s var value cmd : string) :
  stated_line_shape s var value cmd ->
  exists ws1 q ws2 ws3 tail,
    line_parts s var ws1 q value q ws2 ws3 cmd /\
    cmd = ("skopeo list-tags" ++ tail)%string.
Proof.
  intros (name & ws1 & q & ws2 & ws3 & tail & Es & -> & Hn & Hname
          & Hws1 & Hq & Hv & Hvalue & Hws2 & Hws3 & Ec).
  exists ws1, q, ws2, ws3, tail. split; [|exact Ec]. unfold line_parts.
  repeat split; try assumption; try (apply quote_mark_all; assumption).
  - rewrite all_chars_app, Hname. reflexivity.
  - rewrite Ec. reflexivity.
Qed.

(** A line has at most one reading as a declaration. *)
Lemma line_shape_unique (s var value cmd var' value' cmd' : string) :
  line_shape s var value cmd -> line_shape s var' value' cmd' ->
  var = var' /\ value = value' /\ cmd = cmd'.
Proof.
  intros H H'.
  apply line_shape_parts in H, H'.
  destruct H as (ws1 & q1 & q2 & ws2 & ws3 & H).
  destruct H' as (ws1' & q1' & q2' & ws2' & ws3' & H').
  destruct (line_parts_unique _ _ _ _ _ _ _ _ _ _ _ _ _ _ _ _ _ H H')
    as (E1 & _ & E2 & _ & E3).
  auto.
Qed.

Lemma rstrip_last (s w : string) (c : ascii) :
  rstrip s = (w ++ String c "")%string -> isspace c = false.
Proof.
  revert w. induction s as [|a s IH]; intros w H; simpl in H.
  - destruct w; discriminate.
  - destruct (rstrip s) as [|b r] eqn:E.
    + destruct (isspace a) eqn:Ea.
      * destruct w; discriminate.
      * destruct w as [|a' w]; simpl in H.
        -- inversion H; subst. exact Ea.
        -- inversion H. destruct w; discriminate.
    + destruct w as [|a' w]; simpl in H; [discriminate|].
      inversion H; subst. apply (IH w). assumption.
Qed.

Lemma strip_last (s w : string) (c : ascii) :
  strip s = (w ++ String c "")%string -> isspace c = false.
Proof. unfold strip. apply rstrip_last. Qed.

Lemma pattern_matches (s : string) (m : mstate) :
  matches pattern (MState 0 s []) m ->
  exists body,
    s = (body ++ rest m)%string /\
    (rest m = "" \/ rest m = String "010" "") /\
    line_shape body (group 1 m) (group 2 m) (group 3 m).
Proof.
  unfold pattern. intros H.
  apply matches_Cat in H. destruct H as (mid & Hb & H).
  apply matches_Bol in Hb. destruct Hb as [-> _].
  apply denotes_line in H.
  destruct H as (gs & w & (Hx & var & value & cmd & Hs & ->) & Hm).
  exists w. destruct Hm as (R & _ & G). simpl in R, G.
  split; [exact R|]. split; [exact Hx|].
  unfold group. rewrite G. simpl. exact Hs.
Qed.

Lemma pattern_sound (line : string) (m : mstate) :
  rmatch pattern (strip line) = Some m ->
  line_shape (strip line) (group 1 m) (group 2 m) (group 3 m).
Proof.
  intros H. apply rmatch_matches in H. apply pattern_matches in H.
  destruct H as (body & E & [Hr|Hr] & Hs); rewrite Hr in E.
  - rewrite sapp_nil_r in E. rewrite E. exact Hs.
  - apply strip_last in E. discriminate.
Qed.

Lemma pattern_complete (s var value cmd : string) :
  line_shape s var value cmd -> exists m, rmatch pattern s = Some m.
Proof.
  intros Hs.
  apply matches_rmatch with
    (m := MState (0 + String.length s) "" ([(3, cmd); (2, value); (1, var)] ++ [])).
  unfold pattern. apply matches_Cat. exists (MState 0 s []). split.
  - apply matches_Bol. auto.
  - apply denotes_line. exists [(3, cmd); (2, value); (1, var)], s. split.
    + simpl. split; [left; reflexivity|]. eauto.
    + apply moved_intro. simpl. symmetry. apply sapp_nil_r.
Qed.

Lemma scan_lines_extracted (lines : list string) :
  forall n, extracted line_entry n lines (scan_lines n lines).
Proof.
  induction lines as [|line lines IH]; intros n; simpl.
  - constructor.
  - destruct (rmatch pattern (strip line)) as [m|] eqn:E.
    + apply ExtTake; [|apply IH].
      split; [|reflexivity]. simpl. apply pattern_sound. exact E.
    + apply ExtSkip; [|apply IH].
      intros it [Hs _]. apply pattern_complete in Hs.
      destruct Hs as [m Hm]. congruence.
Qed.

Lemma line_entry_unique (n : nat) (line : string) (it it' : item) :
  line_entry n line it -> line_entry n line it' -> it = it'.
Proof.
  intros [Hs Hn] [Hs' Hn'].
  destruct (line_shape_unique _ _ _ _ _ _ _ Hs Hs') as (E1 & E2 & E3).
  destruct it, it'. simpl in *. congruence.
Qed.

(** C7, amended. The Extractor emits one tag source for each line that,
    once trimmed, reads as a declaration -- an identifier ending in
    [_image_tag], a colon, optional white space, a value free of white
    space, quotes and hash signs with an optional quote mark before it
    and an optional quote mark after it (the two need not pair),
    optional white space, a hash sign, optional white space and a
    comment made of the word [skopeo], white space, the word
    [list-tags], white space and at least one more character -- and
    none for any other line; the tag sources come in the order of the
    lines and carry their line numbers; a line declares at most one tag
    source, whose command is the comment from [skopeo] to the end of the
    line. The example line gives one tag source with the command of the
    example, and the same line with another comment gives none. *)
Theorem parse_image_tag_lines_extracts :
  (forall text,
      extracted line_entry 1 (readlines text) (parse_image_tag_lines text)) /\
  (forall n line it it',
      line_entry n line it -> line_entry n line it' -> it = it') /\
  parse_image_tag_lines example_line =
    [Item "foo_image_tag" "1.2.3"
          "skopeo list-tags docker://x | jq -r '.Tags[]'" 1] /\
  parse_image_tag_lines example_line_other_comment = [].
Proof.
  split; [|split; [|split]].
  - intros text. apply scan_lines_extracted.
  - apply line_entry_unique.
  - vm_compute. reflexivity.
  - vm_compute. reflexivity.
Qed.

(** ** Stable sorting *)

Section SortFacts.

Variables (A K : Type).
Variable lt : K -> K -> result bool.
Variable ltb : K -> K -> bool.
Variable good : K -> Prop.

Hypothesis lt_ok :
  forall a b, good a -> good b -> lt a b = Ret (ltb a b).
Hypothesis ltb_asym :
  forall a b, good a -> good b -> ltb a b = true -> ltb b a = false.
Hypothesis ltb_negtrans :
  forall a b c, good a -> good b -> good c ->
                ltb a b = false -> ltb b c = false -> ltb a c = false.

Abbreviation goods := (Forall (fun x : K * A => good (fst x))).

Lemma ltb_below (a b c : K) :
  good a -> good b -> good c ->
  ltb a b = false -> ltb a c = true -> ltb b c = true.
Proof.
  intros Ga Gb Gc Hab Hac. destruct (ltb b c) eqn:E; [reflexivity|].
  rewrite (ltb_negtrans a b c Ga Gb Gc Hab E) in Hac. discriminate.
Qed.

Lemma insert_b_In (x z : K * A) (l : list (K * A)) :
  In z (insert_b ltb x l) <-> z = x \/ In z l.
Proof.
  induction l as [|y l IH]; simpl.
  - intuition auto.
  - destruct (ltb (fst y) (fst x)); simpl; rewrite ?IH; intuition auto.
Qed.

Lemma sort_b_In (z : K * A) (l : list (K * A)) :
  In z (sort_b ltb l) <-> In z l.
Proof.
  induction l as [|x l IH]; simpl; [reflexivity|].
  rewrite insert_b_In, IH. intuition auto.
Qed.

Lemma sort_b_goods (l : list (K * A)) : goods l -> goods (sort_b ltb l).
Proof.
  rewrite !Forall_forall. intros H z Hz.
  apply H. apply sort_b_In. exact Hz.
Qed.

Lemma insert_pure (x : K * A) (l : list (K * A)) :
  good (fst x) -> goods l -> insert lt x l = Ret (insert_b ltb x l).
Proof.
  intros Gx. induction l as [|y l IH]; intros Gl; simpl; [reflexivity|].
  inversion Gl; subst. rewrite lt_ok by assumption. simpl.
  destruct (ltb (fst y) (fst x)); [|reflexivity].
  rewrite IH by assumption. reflexivity.
Qed.

Lemma stable_sort_pure (l : list (K * A)) :
  goods l -> stable_sort lt l = Ret (sort_b ltb l).
Proof.
  induction l as [|x l IH]; intros Gl; simpl; [reflexivity|].
  inversion Gl; subst. rewrite IH by assumption. simpl.
  apply insert_pure; [assumption | apply sort_b_goods; assumption].
Qed.

Lemma insert_b_ascending (x : K * A) (l : list (K * A)) :
  good (fst x) -> goods l -> ascending ltb l ->
  ascending ltb (insert_b ltb x l).
Proof.
  intros Gx. unfold ascending.
  induction l as [|y l IH]; intros Gl Hl; simpl.
  - constructor; constructor.
  - inversion Gl as [|? ? Gy Gl']; subst.
    inversion Hl as [|? ? Hl' Hy]; subst.
    destruct (ltb (fst y) (fst x)) eqn:E.
    + constructor; [apply IH; assumption|].
      apply Forall_forall. intros z Hz. apply insert_b_In in Hz.
      destruct Hz as [->|Hz].
      * apply ltb_asym; assumption.
      * rewrite Forall_forall in Hy. apply Hy. exact Hz.
    + constructor; [exact Hl|].
      constructor; [exact E|].
      apply Forall_forall. intros z Hz.
      rewrite Forall_forall in Hy, Gl'.
      apply (ltb_negtrans (fst z) (fst y) (fst x)); auto.
Qed.

Lemma sort_b_ascending (l : list (K * A)) :
  goods l -> ascending ltb (sort_b ltb l).
Proof.
  induction l as [|x l IH]; intros Gl; simpl.
  - constructor.
  - inversion Gl; subst.
    apply insert_b_ascending; [assumption | apply sort_b_goods | apply IH];
      assumption.
Qed.

(** Where the last item of a sorted list is after an insertion. *)
Lemma insert_b_last (x m : K * A) (l : list (K * A)) :
  good (fst x) -> goods (l ++ [m]) -> ascending ltb (l ++ [m]) ->
  exists l',
    insert_b ltb x (l ++ [m]) =
    l' ++ [if ltb (fst m) (fst x) then x else m].
Proof.
  intros Gx. unfold ascending.
  induction l as [|z l IH]; intros Gl Hl; simpl.
  - destruct (ltb (fst m) (fst x)).
    + exists [m]. reflexivity.
    + exists [x]. reflexivity.
  - inversion Gl as [|? ? Gz Gl']; subst.
    inversion Hl as [|? ? Hl' Hz]; subst.
    destruct (ltb (fst z) (fst x)) eqn:E.
    + destruct (IH Gl' Hl') as [l' El']. rewrite El'.
      exists (z :: l'). reflexivity.
    + assert (Hm : ltb (fst m) (fst x) = false).
      { rewrite Forall_forall in Hz, Gl'.
        apply (ltb_negtrans (fst m) (fst z) (fst x)); auto.
        - apply Gl'. apply in_or_app. right. left. reflexivity.
        - apply Hz. apply in_or_app. right. left. reflexivity. }
      rewrite Hm. exists (x :: z :: l). reflexivity.
Qed.

(** The last item of the sorted list is the greatest item of the input
    that comes last in it. *)
Lemma sort_b_last (l : list (K * A)) :
  goods l -> l <> [] ->
  exists s front x back,
    sort_b ltb l = s ++ [x] /\
    l = front ++ x :: back /\
    (forall u, In u front -> ltb (fst x) (fst u) = false) /\
    (forall u, In u back -> ltb (fst u) (fst x) = true).
Proof.
  induction l as [|y l IH]; intros Gl Hne; [congruence|].
  inversion Gl as [|? ? Gy Gl']; subst.
  destruct l as [|y' l].
  - exists [], [], y, []. simpl. repeat split; auto; intros u [].
  - destruct (IH Gl') as (s & front & x & back & Es & El & Hf & Hb);
      [discriminate|].
    assert (Gsx : goods (s ++ [x]))
      by (rewrite <- Es; apply sort_b_goods; exact Gl').
    assert (Asx : ascending ltb (s ++ [x]))
      by (rewrite <- Es; apply sort_b_ascending; exact Gl').
    assert (Gx : good (fst x)).
    { rewrite Forall_forall in Gsx.
      apply Gsx. apply in_or_app. right. left. reflexivity. }
    destruct (insert_b_last y x s Gy Gsx Asx) as [s' Es'].
    change (sort_b ltb (y :: y' :: l))
      with (insert_b ltb y (sort_b ltb (y' :: l))).
    rewrite Es, Es'.
    destruct (ltb (fst x) (fst y)) eqn:E.
    + exists s', [], y, (y' :: l). repeat split; auto.
      * intros u [].
      * intros u Hu. rewrite El in Hu.
        assert (Gu : good (fst u)).
        { rewrite Forall_forall in Gl'.
          apply Gl'. rewrite El. exact Hu. }
        apply in_app_or in Hu. destruct Hu as [Hu|[<-|Hu]].
        -- apply (ltb_below (fst x)); auto.
        -- exact E.
        -- apply (ltb_below (fst x)); auto.
    + exists s', (y :: front), x, back. repeat split; auto.
      * rewrite El. reflexivity.
      * intros u [<-|Hu]; auto.
Qed.

End SortFacts.

(** ** The order of the keys *)

Lemma string_compare_refl (s : string) : String.compare s s = Eq.
Proof.
  induction s as [|c s IH]; simpl; [reflexivity|].
  unfold Ascii.compare. rewrite N.compare_refl. exact IH.
Qed.

Lemma string_ltb_irrefl (s : string) : String.ltb s s = false.
Proof. unfold String.ltb. rewrite string_compare_refl. reflexivity. Qed.

Lemma string_ltb_asym (s t : string) :
  String.ltb s t = true -> String.ltb t s = false.
Proof.
  unfold String.ltb. rewrite (String.compare_antisym t s).
  destruct (String.compare s t); simpl; congruence.
Qed.

Lemma string_ltb_negtrans (a b c : string) :
  String.ltb a b = false -> String.ltb b c = false -> String.ltb a c = false.
Proof.
  unfold String.ltb. revert b c.
  induction a as [|x a IH]; intros [|y b] [|z c]; simpl; try congruence.
  unfold Ascii.compare.
  destruct (N.compare_spec (N_of_ascii x) (N_of_ascii y)) as [Exy|Hxy|Hxy];
    destruct (N.compare_spec (N_of_ascii y) (N_of_ascii z)) as [Eyz|Hyz|Hyz];
    try congruence; intros H1 H2.
  - rewrite Exy, Eyz, N.compare_refl. apply IH with (b := b); assumption.
  - rewrite Exy. apply N.compare_gt_iff in Hyz. rewrite Hyz. reflexivity.
  - rewrite <- Eyz. apply N.compare_gt_iff in Hxy. rewrite Hxy. reflexivity.
  - assert (Hxz : (N_of_ascii z < N_of_ascii x)%N) by lia.
    apply N.compare_gt_iff in Hxz. rewrite Hxz. reflexivity.
Qed.

Lemma tuple_lt_ints (a b : list Z) :
  exists c, tuple_lt (map PInt a) (map PInt b) = Ret c.
Proof.
  revert b. induction a as [|x a IH]; intros [|y b]; simpl; eauto.
  destruct (x =? y)%Z; eauto.
Qed.

Lemma tuple_lt_int_fallback (a : list Z) (tag : string) :
  tuple_lt (map PInt a) (fallback tag) = Ret true.
Proof. destruct a; reflexivity. Qed.

Lemma tuple_lt_fallback_int (a : list Z) (tag : string) :
  tuple_lt (fallback tag) (map PInt a) = Ret false.
Proof. destruct a; reflexivity. Qed.

Lemma tuple_lt_fallbacks (s t : string) :
  tuple_lt (fallback s) (fallback t) = Ret (String.ltb s t).
Proof.
  simpl. destruct (String.eqb_spec s t) as [->|Hne]; [|reflexivity].
  rewrite string_ltb_irrefl. reflexivity.
Qed.

(** Two keys always compare. *)
Lemma tuple_lt_keys (a b : list pyval) :
  is_key a -> is_key b -> tuple_lt a b = Ret (tuple_ltb a b).
Proof.
  unfold tuple_ltb.
  intros [[xs ->]|[s ->]] [[ys ->]|[t ->]].
  - destruct (tuple_lt_ints xs ys) as [c ->]. reflexivity.
  - rewrite tuple_lt_int_fallback. reflexivity.
  - rewrite tuple_lt_fallback_int. reflexivity.
  - rewrite tuple_lt_fallbacks. reflexivity.
Qed.

Lemma tuple_ltb_ints_cons (x y : Z) (a b : list Z) :
  tuple_ltb (map PInt (x :: a)) (map PInt (y :: b)) =
  if (x =? y)%Z then tuple_ltb (map PInt a) (map PInt b) else (x <? y)%Z.
Proof. unfold tuple_ltb. simpl. destruct (x =? y)%Z; reflexivity. Qed.

Lemma tuple_ltb_ints_asym (a b : list Z) :
  tuple_ltb (map PInt a) (map PInt b) = true ->
  tuple_ltb (map PInt b) (map PInt a) = false.
Proof.
  revert b. induction a as [|x a IH]; intros [|y b]; try reflexivity.
  - discriminate.
  - rewrite !tuple_ltb_ints_cons.
    destruct (Z.eqb_spec x y) as [->|Hne].
    + rewrite Z.eqb_refl. apply IH.
    + destruct (Z.eqb_spec y x); [congruence|].
      rewrite Z.ltb_lt, Z.ltb_ge. lia.
Qed.

Lemma tuple_ltb_ints_negtrans (a b c : list Z) :
  tuple_ltb (map PInt a) (map PInt b) = false ->
  tuple_ltb (map PInt b) (map PInt c) = false ->
  tuple_ltb (map PInt a) (map PInt c) = false.
Proof.
  revert b c.
  induction a as [|x a IH]; intros [|y b] [|z c]; try reflexivity;
    try discriminate.
  rewrite !tuple_ltb_ints_cons.
  destruct (Z.eqb_spec x y) as [->|Hxy];
    destruct (Z.eqb_spec y z) as [->|Hyz].
  - rewrite ?Z.eqb_refl. apply IH.
  - auto.
  - destruct (Z.eqb_spec x z); [congruence|]. auto.
  - rewrite !Z.ltb_ge. intros H1 H2.
    destruct (Z.eqb_spec x z); [lia|]. apply Z.ltb_ge. lia.
Qed.

Lemma tuple_ltb_int_fallback (a : list Z) (tag : string) :
  tuple_ltb (map PInt a) (fallback tag) = true.
Proof. unfold tuple_ltb. rewrite tuple_lt_int_fallback. reflexivity. Qed.

Lemma tuple_ltb_fallback_int (a : list Z) (tag : string) :
  tuple_ltb (fallback tag) (map PInt a) = false.
Proof. unfold tuple_ltb. rewrite tuple_lt_fallback_int. reflexivity. Qed.

Lemma tuple_ltb_fallbacks (s t : string) :
  tuple_ltb (fallback s) (fallback t) = String.ltb s t.
Proof. unfold tuple_ltb. rewrite tuple_lt_fallbacks. reflexivity. Qed.

Lemma tuple_ltb_asym (a b : list pyval) :
  is_key a -> is_key b -> tuple_ltb a b = true -> tuple_ltb b a = false.
Proof.
  intros [[xs ->]|[s ->]] [[ys ->]|[t ->]];
    rewrite ?tuple_ltb_int_fallback, ?tuple_ltb_fallback_int,
            ?tuple_ltb_fallbacks;
    try congruence.
  - apply tuple_ltb_ints_asym.
  - apply string_ltb_asym.
Qed.

Lemma tuple_ltb_negtrans (a b c : list pyval) :
  is_key a -> is_key b -> is_key c ->
  tuple_ltb a b = false -> tuple_ltb b c = false -> tuple_ltb a c = false.
Proof.
  intros [[xs ->]|[s ->]] [[ys ->]|[t ->]] [[zs ->]|[u ->]];
    rewrite ?tuple_ltb_int_fallback, ?tuple_ltb_fallback_int,
            ?tuple_ltb_fallbacks;
    try congruence.
  - apply tuple_ltb_ints_negtrans.
  - apply string_ltb_negtrans.
Qed.

(** ** [parse_version] *)

Lemma int_cases (s : string) :
  (exists n, int s = Ret n) \/ int s = Raise ValueError.
Proof. unfold int. destruct (_ && _); eauto. Qed.

Lemma mapM_int_cases (parts : list string) :
  (exists ns, mapM int parts = Ret ns) \/ mapM int parts = Raise ValueError.
Proof.
  induction parts as [|p parts IH]; simpl; [eauto|].
  destruct (int_cases p) as [[n ->]| ->]; simpl; [|auto].
  destruct IH as [[ns ->]| ->]; simpl; eauto.
Qed.

(** [parse_version] does not raise: it returns a tuple of integers or
    the fallback tuple of the tag. *)
Lemma parse_version_cases (tag : string) :
  (exists ns, parse_version tag = Ret (map PInt ns)) \/
  parse_version tag = Ret (fallback tag).
Proof.
  unfold parse_version.
  destruct (rmatch version_re _) as [m|]; [|auto].
  destruct (mapM_int_cases (Re.split is_sep (group 1 m))) as [[ns ->]| ->].
  - eauto.
  - auto.
Qed.

Lemma parse_version_key (tag : string) :
  parse_version tag = Ret (version_key tag) /\ is_key (version_key tag).
Proof.
  unfold version_key, is_key.
  destruct (parse_version_cases tag) as [[ns ->]| ->]; eauto.
Qed.

(** ** [get_latest_tag] *)

Lemma mapM_keyed (tags : list string) :
  mapM (fun a => k <- parse_version a ;; Ret (k, a)) tags =
  Ret (map keyed_tag tags).
Proof.
  induction tags as [|t tags IH]; simpl; [reflexivity|].
  destruct (parse_version_key t) as [-> _]. simpl. rewrite IH. reflexivity.
Qed.

Lemma keyed_good (l : list (list pyval * string)) (tags : list string) :
  (forall u, In u l -> In u (map keyed_tag tags)) ->
  Forall (fun x => is_key (fst x)) l.
Proof.
  intros H. apply Forall_forall. intros u Hu. apply H in Hu.
  apply in_map_iff in Hu. destruct Hu as (t & <- & _).
  apply parse_version_key.
Qed.

Lemma sorted_reverse_tags (tags : list string) :
  sorted tuple_lt tags parse_version true =
  Ret (map snd (rev (sort_b tuple_ltb (rev (map keyed_tag tags))))).
Proof.
  unfold sorted. rewrite mapM_keyed. simpl.
  rewrite (stable_sort_pure _ _ tuple_lt tuple_ltb is_key tuple_lt_keys).
  - reflexivity.
  - apply keyed_good with (tags := tags). intros u Hu.
    apply in_rev. exact Hu.
Qed.

Lemma get_latest_tag_first_greatest (tags : list string) (c : string) :
  tags <> [] ->
  exists latest,
    get_latest_tag tags c = Ret (Some latest) /\ first_greatest tags latest.
Proof.
  intros Hne. unfold get_latest_tag.
  destruct tags as [|t0 tags0] eqn:Et; [congruence|]. rewrite <- Et in *.
  rewrite sorted_reverse_tags. simpl.
  assert (Gk : Forall (fun x : list pyval * string => is_key (fst x))
                      (rev (map keyed_tag tags))).
  { apply keyed_good with (tags := tags). intros u Hu.
    apply in_rev. exact Hu. }
  assert (Hk : rev (map keyed_tag tags) <> []).
  { intros E. apply (f_equal (@List.length _)) in E.
    rewrite length_rev, length_map, Et in E. discriminate. }
  destruct (sort_b_last _ _ tuple_ltb is_key tuple_ltb_asym tuple_ltb_negtrans
                        _ Gk Hk)
    as (s & front & x & back & Es & El & Hf & Hb).
  rewrite Es, rev_app_distr. simpl.
  exists (snd x). split; [reflexivity|].
  assert (Ek : map keyed_tag tags = rev back ++ x :: rev front).
  { rewrite <- (rev_involutive (map keyed_tag tags)), El, rev_app_distr.
    simpl. rewrite <- app_assoc. reflexivity. }
  assert (Hin : forall u, In u (map keyed_tag tags) ->
                          fst u = version_key (snd u)).
  { intros u Hu. apply in_map_iff in Hu. destruct Hu as (t & <- & _).
    reflexivity. }
  assert (Hx : fst x = version_key (snd x)).
  { apply Hin. rewrite Ek. apply in_or_app. right. left. reflexivity. }
  exists (map snd (rev back)), (map snd (rev front)). split; [|split].
  - transitivity (map snd (map keyed_tag tags)).
    + rewrite map_map. simpl. symmetry. apply map_id.
    + rewrite Ek, map_app. reflexivity.
  - intros t Ht. apply in_map_iff in Ht. destruct Ht as (u & <- & Hu).
    assert (Hu' : In u (map keyed_tag tags))
      by (rewrite Ek; apply in_or_app; left; exact Hu).
    rewrite <- (Hin u Hu'), <- Hx.
    rewrite tuple_lt_keys.
    + f_equal. apply Hb. apply in_rev. exact Hu.
    + rewrite (Hin u Hu'). apply parse_version_key.
    + rewrite Hx. apply parse_version_key.
  - intros t Ht. apply in_map_iff in Ht. destruct Ht as (u & <- & Hu).
    assert (Hu' : In u (map keyed_tag tags))
      by (rewrite Ek; apply in_or_app; right; right; exact Hu).
    rewrite <- (Hin u Hu'), <- Hx.
    rewrite tuple_lt_keys.
    + f_equal. apply Hf. apply in_rev. exact Hu.
    + rewrite Hx. apply parse_version_key.
    + rewrite (Hin u Hu'). apply parse_version_key.
Qed.

Lemma split_app_eq {A} (b1 b2 a1 a2 : list A) (x1 x2 : A) :
  b1 ++ x1 :: a1 = b2 ++ x2 :: a2 ->
  (b1 = b2 /\ x1 = x2 /\ a1 = a2) \/
  (In x1 b2 /\ In x2 a1) \/ (In x2 b1 /\ In x1 a2).
Proof.
  revert b2. induction b1 as [|y b1 IH]; intros [|z b2] E; simpl in E.
  - inversion E. auto.
  - inversion E; subst. right. left. split; [left; reflexivity|].
    apply in_or_app. right. left. reflexivity.
  - inversion E; subst. right. right. split; [left; reflexivity|].
    apply in_or_app. right. left. reflexivity.
  - inversion E; subst.
    destruct (IH b2 H1) as [(-> & -> & ->)|[[H2 H3]|[H2 H3]]].
    + auto.
    + right. left. split; [right|]; assumption.
    + right. right. split; [right|]; assumption.
Qed.

(** Only one tag of a list is its first greatest. *)
Lemma first_greatest_unique (tags : list string) (l1 l2 : string) :
  first_greatest tags l1 -> first_greatest tags l2 -> l1 = l2.
Proof.
  intros (b1 & a1 & E1 & Hb1 & Ha1) (b2 & a2 & E2 & Hb2 & Ha2).
  rewrite E1 in E2. apply split_app_eq in E2.
  destruct E2 as [(_ & E & _)|[[H1 H2]|[H1 H2]]]; [exact E| |].
  - apply Hb2 in H1. apply Ha1 in H2. congruence.
  - apply Hb1 in H1. apply Ha2 in H2. congruence.
Qed.

(** C2. For a non-empty tag list the Resolver returns the tag a stable
    sort by descending key puts first -- no tag has a greater key and
    every tag before it in the list has a smaller key, so among tags
    with equal keys the earliest is selected -- and that tag is unique;
    for the empty list it returns no tag. *)
Theorem get_latest_tag_first_by_key :
  (forall c, get_latest_tag [] c = Ret None) /\
  (forall t tags c,
      exists latest,
        get_latest_tag (t :: tags) c = Ret (Some latest) /\
        first_greatest (t :: tags) latest /\
        (forall other, first_greatest (t :: tags) other -> other = latest)) /\
  get_latest_tag ["1.2"; "v1.2"; "1.02"; "0.9"] "0.9" = Ret (Some "1.2") /\
  get_latest_tag ["v1.2"; "1.2"; "1.3"; "v1.3"] "0.9" = Ret (Some "1.3").
Proof.
  split; [reflexivity|]. split; [|split; reflexivity].
  intros t tags c.
  destruct (get_latest_tag_first_greatest (t :: tags) c) as (latest & E & H);
    [discriminate|].
  exists latest. split; [exact E|]. split; [exact H|].
  intros other Ho. apply (first_greatest_unique _ _ _ Ho H).
Qed.

(** C10. The tag [get_latest_tag] selects does not depend on the current
    value, and neither do the latest tag and the tag tail of the record
    the loop of [main] builds. *)
Theorem get_latest_tag_ignores_current :
  (forall tags c1 c2, get_latest_tag tags c1 = get_latest_tag tags c2) /\
  (forall subprocess_run timeout var c1 c2 command line,
      match main_item subprocess_run timeout (Item var c1 command line),
            main_item subprocess_run timeout (Item var c2 command line)
      with
      | Ret r1, Ret r2 =>
          latest_value r1 = latest_value r2 /\ all_tags r1 = all_tags r2
      | Raise e1, Raise e2 => e1 = e2
      | _, _ => False
      end).
Proof.
  split; [reflexivity|].
  intros sr timeout var c1 c2 command line. unfold main_item. simpl.
  destruct (run_skopeo_command sr command timeout) as [[tags|]|e]; simpl;
    [|auto|reflexivity].
  change (get_latest_tag tags c2) with (get_latest_tag tags c1).
  destruct (get_latest_tag tags c1) as [latest|e]; simpl; auto.
Qed.

(** ** Trimming and splitting *)

Lemma rstrip_space (w : string) :
  all_chars isspace w = true -> rstrip w = "".
Proof.
  induction w as [|c w IH]; simpl; [reflexivity|].
  rewrite andb_true_iff. intros [Hc Hw]. rewrite (IH Hw), Hc. reflexivity.
Qed.

Lemma rstrip_app_space (a w : string) :
  all_chars isspace w = true -> rstrip (a ++ w) = rstrip a.
Proof.
  intros Hw. induction a as [|c a IH]; simpl.
  - apply rstrip_space. exact Hw.
  - rewrite IH. reflexivity.
Qed.

Lemma lstrip_space (w : string) :
  all_chars isspace w = true -> lstrip w = "".
Proof.
  induction w as [|c w IH]; simpl; [reflexivity|].
  rewrite andb_true_iff. intros [Hc Hw]. rewrite Hc. auto.
Qed.

Lemma strip_app_space (a w : string) :
  all_chars isspace w = true -> strip (a ++ w) = strip a.
Proof.
  intros Hw. unfold strip. induction a as [|c a IH]; simpl.
  - rewrite (lstrip_space w Hw). reflexivity.
  - destruct (isspace c); [exact IH|].
    apply (rstrip_app_space (String c a)). exact Hw.
Qed.

Lemma strip_cons_space (c : ascii) (s : string) :
  isspace c = true -> strip (String c s) = strip s.
Proof. intros H. unfold strip. simpl. rewrite H. reflexivity. Qed.

Lemma lstrip_decompose (s : string) :
  exists w, all_chars isspace w = true /\ s = (w ++ lstrip s)%string.
Proof.
  induction s as [|c s (w & Hw & E)]; simpl.
  - exists "". auto.
  - destruct (isspace c) eqn:Hc.
    + exists (String c w). simpl. rewrite Hc, Hw.
      split; [reflexivity | f_equal; exact E].
    + exists "". auto.
Qed.

Lemma rstrip_decompose (s : string) :
  exists w, all_chars isspace w = true /\ s = (rstrip s ++ w)%string.
Proof.
  induction s as [|c s (w & Hw & E)]; simpl.
  - exists "". auto.
  - destruct (rstrip s) as [|b r] eqn:Er.
    + destruct (isspace c) eqn:Hc.
      * exists (String c w). simpl in *. rewrite Hc, Hw.
        split; [reflexivity | f_equal; exact E].
      * exists w. simpl in *. split; [exact Hw | f_equal; exact E].
    + exists w. simpl in *. split; [exact Hw | f_equal; exact E].
Qed.

Lemma split_cons_sep (sep : ascii) (s : string) :
  Str.split sep (String sep s) = "" :: Str.split sep s.
Proof. simpl. rewrite Ascii.eqb_refl. reflexivity. Qed.

Lemma split_cons_other (sep c : ascii) (s : string) :
  Ascii.eqb c sep = false ->
  Str.split sep (String c s) =
  String c (hd "" (Str.split sep s)) :: tl (Str.split sep s).
Proof. intros H. simpl. rewrite H. destruct (Str.split sep s); reflexivity. Qed.

Lemma split_hd_tl (sep : ascii) (s : string) :
  Str.split sep s = hd "" (Str.split sep s) :: tl (Str.split sep s).
Proof.
  destruct s as [|c s]; [reflexivity|].
  destruct (Ascii.eqb c sep) eqn:E.
  - apply Ascii.eqb_eq in E. subst c. rewrite split_cons_sep. reflexivity.
  - rewrite split_cons_other by exact E. reflexivity.
Qed.

Lemma trimmed_cons (line : string) (lines : list string) :
  trimmed (line :: lines) = trimmed [line] ++ trimmed lines.
Proof. unfold trimmed. simpl. destruct (truthy (strip line)); reflexivity. Qed.

Lemma trimmed_strip_eq (a b : string) (lines : list string) :
  strip a = strip b -> trimmed (a :: lines) = trimmed (b :: lines).
Proof.
  intros E. unfold trimmed. simpl. rewrite E.
  destruct (truthy (strip b)); simpl; [rewrite E|]; reflexivity.
Qed.

Lemma trimmed_split_cons_space (c : ascii) (x : string) :
  isspace c = true ->
  trimmed (Str.split "010" (String c x)) = trimmed (Str.split "010" x).
Proof.
  intros Hc. destruct (Ascii.eqb c "010") eqn:E.
  - apply Ascii.eqb_eq in E. subst c. rewrite split_cons_sep. reflexivity.
  - rewrite split_cons_other by exact E.
    rewrite (split_hd_tl "010" x) at 3.
    apply trimmed_strip_eq. apply strip_cons_space. exact Hc.
Qed.

Lemma trimmed_split_space_app (w x : string) :
  all_chars isspace w = true ->
  trimmed (Str.split "010" (w ++ x)) = trimmed (Str.split "010" x).
Proof.
  induction w as [|c w IH]; simpl append; [reflexivity|].
  simpl all_chars. rewrite andb_true_iff. intros [Hc Hw].
  rewrite trimmed_split_cons_space by exact Hc. auto.
Qed.

Lemma trimmed_split_space (w pre : string) :
  all_chars isspace w = true ->
  trimmed ((pre ++ hd "" (Str.split "010" w))%string :: tl (Str.split "010" w))
  = trimmed [pre].
Proof.
  revert pre. induction w as [|c w IH]; intros pre Hw.
  - simpl. rewrite sapp_nil_r. reflexivity.
  - simpl in Hw. apply andb_true_iff in Hw. destruct Hw as [Hc Hw].
    destruct (Ascii.eqb c "010") eqn:E.
    + apply Ascii.eqb_eq in E. subst c. rewrite split_cons_sep.
      simpl hd. simpl tl. rewrite sapp_nil_r, trimmed_cons.
      rewrite <- (sapp_nil_r w), trimmed_split_space_app by exact Hw.
      simpl. apply app_nil_r.
    + rewrite split_cons_other by exact E. simpl hd. simpl tl.
      replace (pre ++ String c (hd "" (Str.split "010" w)))%string
        with ((pre ++ String c "") ++ hd "" (Str.split "010" w))%string
        by (rewrite sapp_assoc; reflexivity).
      rewrite IH by exact Hw.
      apply trimmed_strip_eq. apply strip_app_space.
      simpl. rewrite Hc. reflexivity.
Qed.

Lemma trimmed_split_app_space (x w pre : string) :
  all_chars isspace w = true ->
  trimmed ((pre ++ hd "" (Str.split "010" (x ++ w)))%string
           :: tl (Str.split "010" (x ++ w)))
  = trimmed ((pre ++ hd "" (Str.split "010" x))%string
             :: tl (Str.split "010" x)).
Proof.
  intros Hw. revert pre. induction x as [|c x IH]; intros pre.
  - simpl append. rewrite trimmed_split_space by exact Hw.
    simpl. rewrite sapp_nil_r. reflexivity.
  - change (String c x ++ w)%string with (String c (x ++ w)).
    destruct (Ascii.eqb c "010") eqn:E.
    + apply Ascii.eqb_eq in E. subst c. rewrite !split_cons_sep.
      simpl hd. simpl tl.
      rewrite (trimmed_cons _ (Str.split "010" (x ++ w))).
      rewrite (trimmed_cons _ (Str.split "010" x)).
      f_equal.
      rewrite (split_hd_tl "010" (x ++ w)), (split_hd_tl "010" x).
      apply (IH "").
    + rewrite !split_cons_other by exact E. simpl hd. simpl tl.
      replace (pre ++ String c (hd "" (Str.split "010" (x ++ w))))%string
        with ((pre ++ String c "") ++ hd "" (Str.split "010" (x ++ w)))%string
        by (rewrite sapp_assoc; reflexivity).
      replace (pre ++ String c (hd "" (Str.split "010" x)))%string
        with ((pre ++ String c "") ++ hd "" (Str.split "010" x))%string
        by (rewrite sapp_assoc; reflexivity).
      apply IH.
Qed.

(** Trimming the whole output first does not change its trimmed lines. *)
Lemma trimmed_split_strip (out : string) :
  trimmed (Str.split "010" (strip out)) = trimmed (Str.split "010" out).
Proof.
  destruct (lstrip_decompose out) as (w1 & Hw1 & E1).
  destruct (rstrip_decompose (lstrip out)) as (w2 & Hw2 & E2).
  transitivity (trimmed (Str.split "010" (lstrip out))).
  - rewrite (split_hd_tl "010" (strip out)).
    rewrite (split_hd_tl "010" (lstrip out)).
    pose proof (trimmed_split_app_space (strip out) w2 "" Hw2) as H.
    unfold strip in *. rewrite <- E2 in H. symmetry. exact H.
  - rewrite <- (trimmed_split_space_app w1 (lstrip out) Hw1).
    rewrite <- E1. reflexivity.
Qed.

(** ** [run_skopeo_command] *)

Lemma run_skopeo_command_eq subprocess_run (command : string) (timeout : nat) :
  run_skopeo_command subprocess_run command timeout =
  Ret match subprocess_run command timeout with
      | Ret res =>
          if (returncode res =? 0)%Z
          then Some (nonempty_trimmed_lines (stdout res))
          else None
      | Raise _ => None
      end.
Proof.
  unfold run_skopeo_command.
  destruct (subprocess_run command timeout) as [res|e]; simpl.
  - destruct (returncode res =? 0)%Z; simpl; [|reflexivity].
    unfold nonempty_trimmed_lines. rewrite <- trimmed_split_strip.
    reflexivity.
  - destruct e; reflexivity.
Qed.

Lemma run_skopeo_command_returns subprocess_run command timeout :
  exists v, run_skopeo_command subprocess_run command timeout = Ret v.
Proof. rewrite run_skopeo_command_eq. eauto. Qed.

Lemma trimmed_truthy (lines : list string) :
  Forall (fun tag => truthy tag = true) (trimmed lines).
Proof.
  unfold trimmed. apply Forall_forall. intros t Ht.
  apply in_map_iff in Ht. destruct Ht as (line & <- & Hl).
  apply filter_In in Hl. apply Hl.
Qed.

Lemma run_skopeo_command_truthy subprocess_run command timeout tags :
  run_skopeo_command subprocess_run command timeout = Ret (Some tags) ->
  Forall (fun tag => truthy tag = true) tags.
Proof.
  rewrite run_skopeo_command_eq.
  destruct (subprocess_run command timeout) as [res|e]; [|discriminate].
  destruct (returncode res =? 0)%Z; [|discriminate].
  intros H. inversion H. apply trimmed_truthy.
Qed.

(** C6. Whatever the execution of the command does, the Runner returns
    and raises nothing: it returns no tags when the execution raises
    (a timeout or any other fault) and when the exit status is not 0;
    when the exit status is 0 it returns the lines of the output that
    are not empty once trimmed, trimmed and in order, and this list may
    be empty. *)
Theorem run_skopeo_command_outcome :
  forall subprocess_run command timeout,
    (exists v, run_skopeo_command subprocess_run command timeout = Ret v) /\
    (forall e,
        subprocess_run command timeout = Raise e ->
        run_skopeo_command subprocess_run command timeout = Ret None) /\
    (forall res,
        subprocess_run command timeout = Ret res ->
        returncode res <> 0%Z ->
        run_skopeo_command subprocess_run command timeout = Ret None) /\
    (forall res,
        subprocess_run command timeout = Ret res ->
        returncode res = 0%Z ->
        run_skopeo_command subprocess_run command timeout =
        Ret (Some (nonempty_trimmed_lines (stdout res)))) /\
    nonempty_trimmed_lines (String "010" (String " " (String "010" ""))) = [].
Proof.
  intros sr command timeout. rewrite run_skopeo_command_eq.
  split; [eauto|]. split; [|split; [|split]].
  - intros e ->. reflexivity.
  - intros res -> H. apply Z.eqb_neq in H. rewrite H. reflexivity.
  - intros res -> H. rewrite H. reflexivity.
  - reflexivity.
Qed.

Lemma run_skopeo_command_outcome_witness :
  run_skopeo_command example_shell "skopeo list-tags docker://x" 30 =
    Ret (Some ["1.0"; "1.1"; "1.2"; "1.3"; "1.4"; "1.5"; "1.6"; "1.7"; "1.8";
               "1.9"; "1.10"; "v1.11"]) /\
  run_skopeo_command (fun _ _ => Ret (Completed 2 "1.0")) "false" 30 =
    Ret None /\
  run_skopeo_command (fun _ _ => Raise TimeoutExpired) "sleep 60" 30 =
    Ret None.
Proof.
  split; [|split].
  - apply (proj1 (proj2 (proj2 (proj2
      (run_skopeo_command_outcome example_shell
         "skopeo list-tags docker://x" 30))))
      (Completed 0 example_stdout)); reflexivity.
  - apply (proj1 (proj2 (proj2
      (run_skopeo_command_outcome (fun _ _ => Ret (Completed 2 "1.0"))
         "false" 30)))
      (Completed 2 "1.0")); [reflexivity | discriminate].
  - apply (proj1 (proj2
      (run_skopeo_command_outcome (fun _ _ => Raise TimeoutExpired)
         "sleep 60" 30))
      TimeoutExpired); reflexivity.
Defined.

(** ** The loop of [main] *)

Section CheckItem.

Variable subprocess_run : string -> nat -> result CompletedProcess.
Variable timeout : nat.
Variable it : item.

Abbreviation enumeration :=
  (run_skopeo_command subprocess_run (skopeo_command it) timeout).

Lemma main_item_failed :
  enumeration = Ret None ->
  main_item subprocess_run timeout it = Ret (Check it None "error" []).
Proof. unfold main_item. intros ->. reflexivity. Qed.

Lemma main_item_empty :
  enumeration = Ret (Some []) ->
  main_item subprocess_run timeout it = Ret (Check it None "unknown" []).
Proof. unfold main_item. intros ->. reflexivity. Qed.

Lemma main_item_tags (t : string) (tags : list string) :
  enumeration = Ret (Some (t :: tags)) ->
  exists latest,
    get_latest_tag (t :: tags) (current_value it) = Ret (Some latest) /\
    In latest (t :: tags) /\
    main_item subprocess_run timeout it =
    Ret (Check it (Some latest)
               (compare_versions (current_value it) latest)
               (last_n 10 (t :: tags))).
Proof.
  intros E.
  destruct (get_latest_tag_first_greatest (t :: tags) (current_value it))
    as (latest & El & before & after & Et & _); [discriminate|].
  assert (Hin : In latest (t :: tags))
    by (rewrite Et; apply in_or_app; right; left; reflexivity).
  exists latest. split; [exact El|]. split; [exact Hin|].
  pose proof (run_skopeo_command_truthy _ _ _ _ E) as Htruthy.
  rewrite Forall_forall in Htruthy.
  unfold main_item. rewrite E.
  unfold bind at 1. cbv beta iota. rewrite El.
  unfold bind. cbv beta iota. rewrite (Htruthy latest Hin). reflexivity.
Qed.

End CheckItem.

Ltac status_cases :=
  try solve
    [ auto
    | discriminate
    | congruence
    | intros [H|H]; discriminate
    | intros (l & H & Hl); inversion H; subst; congruence
    | intros _; eexists; split; [reflexivity | congruence]
    | intros tags' H; inversion H; subst; first [reflexivity | assumption] ].

(** C3. For every outcome of the enumeration the loop of [main] builds
    a record whose status is one of [error], [unknown], [up-to-date] and
    [update-available]: [error] exactly when the enumeration failed,
    and then there is no latest tag; [unknown] exactly when it gave an
    empty tag list, and then there is no latest tag either;
    [up-to-date] exactly when there is a latest tag and it is the
    current value, character for character; [update-available] exactly
    when there is a latest tag and it is not the current value. The
    latest tag, when there is one, is the one [get_latest_tag] selects
    among the tags enumerated. *)
Theorem main_item_status :
  forall subprocess_run timeout it,
  exists r,
    main_item subprocess_run timeout it = Ret r /\
    source r = it /\
    (status r = "error" \/ status r = "unknown" \/
     status r = "up-to-date" \/ status r = "update-available") /\
    (status r = "error" <->
     run_skopeo_command subprocess_run (skopeo_command it) timeout
     = Ret None) /\
    (status r = "unknown" <->
     run_skopeo_command subprocess_run (skopeo_command it) timeout
     = Ret (Some [])) /\
    (status r = "up-to-date" <->
     exists latest,
       latest_value r = Some latest /\ latest = current_value it) /\
    (status r = "update-available" <->
     exists latest,
       latest_value r = Some latest /\ latest <> current_value it) /\
    (status r = "error" \/ status r = "unknown" -> latest_value r = None) /\
    (forall tags,
        run_skopeo_command subprocess_run (skopeo_command it) timeout
        = Ret (Some tags) ->
        get_latest_tag tags (current_value it) = Ret (latest_value r)).
Proof.
  intros sr timeout it.
  destruct (run_skopeo_command_returns sr (skopeo_command it) timeout)
    as [[[|t tags]|] E].
  - exists (Check it None "unknown" []).
    split; [apply main_item_empty; exact E|]. rewrite E. simpl.
    repeat split; status_cases.
  - destruct (main_item_tags sr timeout it t tags E)
      as (latest & El & Hin & Ec).
    exists (Check it (Some latest)
                  (compare_versions (current_value it) latest)
                  (last_n 10 (t :: tags))).
    split; [exact Ec|]. rewrite E. simpl.
    unfold compare_versions.
    destruct (String.eqb_spec (current_value it) latest) as [Heq|Hne];
      repeat split; status_cases.
  - exists (Check it None "error" []).
    split; [apply main_item_failed; exact E|]. rewrite E. simpl.
    repeat split; status_cases.
Qed.

(** C8. After a successful enumeration the [all_tags] field of the
    record is a tail of the tag list the Runner returned -- its entries
    in their order -- of ten entries, or of all of them when there are
    fewer than ten. It is not the ten highest versions: of twelve tags
    listed from [12] down to [1] it keeps [10] to [1], without the
    latest tag [12]. *)
Theorem main_item_all_tags :
  (forall subprocess_run timeout it tags,
      run_skopeo_command subprocess_run (skopeo_command it) timeout
      = Ret (Some tags) ->
      exists r,
        main_item subprocess_run timeout it = Ret r /\
        (exists front, tags = front ++ all_tags r) /\
        List.length (all_tags r) = Nat.min 10 (List.length tags) /\
        (List.length tags <= 10 -> all_tags r = tags)) /\
  main_item (fun _ _ => Ret (Completed 0 descending_stdout)) 30
            (Item "foo_image_tag" "12" "skopeo list-tags docker://x" 1)
  = Ret (Check (Item "foo_image_tag" "12" "skopeo list-tags docker://x" 1)
               (Some "12") "up-to-date"
               ["10"; "9"; "8"; "7"; "6"; "5"; "4"; "3"; "2"; "1"]).
Proof.
  split; [|vm_compute; reflexivity].
  intros sr timeout it tags E.
  assert (Hlast : (exists front, tags = front ++ last_n 10 tags) /\
                  List.length (last_n 10 tags)
                  = Nat.min 10 (List.length tags) /\
                  (List.length tags <= 10 -> last_n 10 tags = tags)).
  { unfold last_n. split; [|split].
    - exists (firstn (List.length tags - 10) tags).
      symmetry. apply firstn_skipn.
    - rewrite length_skipn. lia.
    - intros H. replace (List.length tags - 10) with 0 by lia. reflexivity. }
  destruct tags as [|t tags].
  - exists (Check it None "unknown" []).
    split; [apply main_item_empty; exact E|]. exact Hlast.
  - destruct (main_item_tags sr timeout it t tags E)
      as (latest & _ & _ & Ec).
    eexists. split; [exact Ec|]. exact Hlast.
Qed.

Lemma main_item_all_tags_witness :
  exists r,
    main_item example_shell 30
               (Item "foo_image_tag" "1.9"
                     "skopeo list-tags docker://x" 1) = Ret r /\
    (exists front,
        ["1.0"; "1.1"; "1.2"; "1.3"; "1.4"; "1.5"; "1.6"; "1.7"; "1.8";
         "1.9"; "1.10"; "v1.11"] = front ++ all_tags r) /\
    List.length (all_tags r) = 10 /\
    (12 <= 10 -> all_tags r =
       ["1.0"; "1.1"; "1.2"; "1.3"; "1.4"; "1.5"; "1.6"; "1.7"; "1.8";
        "1.9"; "1.10"; "v1.11"]).
Proof.
  apply (proj1 main_item_all_tags example_shell 30
           (Item "foo_image_tag" "1.9" "skopeo list-tags docker://x" 1)
           ["1.0"; "1.1"; "1.2"; "1.3"; "1.4"; "1.5"; "1.6"; "1.7"; "1.8";
            "1.9"; "1.10"; "v1.11"]).
  reflexivity.
Defined.

(** ** The first match *)

Lemma advance_0 (st : mstate) : advance 0 st = st.
Proof. destruct st. unfold advance. simpl. rewrite Nat.add_0_r. reflexivity. Qed.

Lemma slice_from_add (n m : nat) (s : string) :
  slice_from m (slice_from n s) = slice_from (n + m) s.
Proof.
  revert s. induction n as [|n IH]; intros s; simpl; [reflexivity|].
  destruct s as [|c s]; [|apply IH].
  destruct m; reflexivity.
Qed.

Lemma advance_advance (n m : nat) (st : mstate) :
  advance m (advance n st) = advance (n + m) st.
Proof.
  unfold advance. simpl. rewrite slice_from_add, Nat.add_assoc. reflexivity.
Qed.

Lemma hd_error_app_ne {A} (l l' : list A) :
  l <> [] -> hd_error (l ++ l') = hd_error l.
Proof. destruct l; [congruence | reflexivity]. Qed.

Lemma run_Star_ne (r : regex) (st : mstate) : run (Star r) st <> [].
Proof.
  rewrite run_Star. intros H. apply app_eq_nil in H. destruct H. discriminate.
Qed.

(** The rest of the subject never grows. *)
Lemma matches_rest_le (r : regex) (st st' : mstate) :
  matches r st st' -> String.length (rest st') <= String.length (rest st).
Proof.
  induction 1; simpl; try lia.
  - rewrite H. simpl. lia.
  - apply startswith_inv in H. rewrite H at 2. rewrite slength_app. lia.
Qed.

Lemma run_Chars_hit (p : ascii -> bool) (st : mstate) c s :
  rest st = String c s -> p c = true -> run (Chars p) st = [advance 1 st].
Proof. intros E Hc. simpl. rewrite E, Hc. reflexivity. Qed.

Lemma run_Chars_miss (p : ascii -> bool) (st : mstate) :
  first_char (fun c => negb (p c)) (rest st) -> run (Chars p) st = [].
Proof.
  simpl. destruct (rest st) as [|c s]; simpl; [reflexivity|].
  intros H. apply negb_true_iff in H. rewrite H. reflexivity.
Qed.

Lemma run_Star_Chars_hit (p : ascii -> bool) (st : mstate) c s :
  rest st = String c s -> p c = true ->
  run (Star (Chars p)) st = run (Star (Chars p)) (advance 1 st) ++ [st].
Proof.
  intros E Hc. rewrite run_Star at 1.
  rewrite (run_Chars_hit p st c s E Hc).
  assert (Hp : progress st (advance 1 st) = true)
    by (apply progress_lt; simpl; rewrite E; simpl; lia).
  simpl filter. rewrite Hp. simpl flat_map. rewrite app_nil_r. reflexivity.
Qed.

Lemma run_Star_miss (r : regex) (st : mstate) :
  run r st = [] -> run (Star r) st = [st].
Proof. intros E. rewrite run_Star, E. reflexivity. Qed.

Lemma filter_all {A} (f : A -> bool) (l : list A) :
  (forall x, In x l -> f x = true) -> filter f l = l.
Proof.
  induction l as [|a l IH]; intros H; simpl; [reflexivity|].
  rewrite (H a) by (left; reflexivity). f_equal. apply IH.
  intros x Hx. apply H. right. exact Hx.
Qed.

Lemma hd_error_app_some {A} (l l' : list A) (x : A) :
  hd_error l = Some x -> hd_error (l ++ l') = Some x.
Proof. destruct l; [discriminate | auto]. Qed.

Lemma hd_flat_map_Star (r : regex) (l : list mstate) :
  hd_error (flat_map (run (Star r)) l) =
  match hd_error l with
  | Some x => hd_error (run (Star r) x)
  | None => None
  end.
Proof.
  destruct l as [|x l]; [reflexivity|].
  cbn [flat_map hd_error]. apply hd_error_app_ne. apply run_Star_ne.
Qed.

Lemma run_sep_group (st : mstate) :
  run (Chars is_sep >> Plus (Chars isdecimal)) st =
  match rest st with
  | String c (String d _) =>
      if is_sep c && isdecimal d
      then run (Star (Chars isdecimal)) (advance 1 (advance 1 st))
      else []
  | _ => []
  end.
Proof.
  unfold Plus.
  change (run (Chars is_sep >> Chars isdecimal >> Star (Chars isdecimal)) st)
    with (flat_map
            (fun st1 =>
               flat_map (run (Star (Chars isdecimal)))
                        (run (Chars isdecimal) st1))
            (run (Chars is_sep) st)).
  destruct (rest st) as [|c [|d s]] eqn:E.
  - rewrite run_Chars_miss by (rewrite E; exact I). reflexivity.
  - destruct (is_sep c) eqn:Hs.
    + rewrite (run_Chars_hit is_sep st c "" E Hs).
      cbn [flat_map]. rewrite app_nil_r.
      rewrite run_Chars_miss; [reflexivity|].
      cbn. rewrite E. exact I.
    + rewrite run_Chars_miss; [reflexivity|].
      rewrite E. cbn. rewrite Hs. reflexivity.
  - destruct (is_sep c) eqn:Hs.
    + rewrite (run_Chars_hit is_sep st c (String d s) E Hs).
      cbn [flat_map]. rewrite app_nil_r.
      destruct (isdecimal d) eqn:Hd; cbn [andb].
      * rewrite (run_Chars_hit isdecimal (advance 1 st) d s)
          by (cbn; rewrite ?E; auto).
        cbn [flat_map]. rewrite app_nil_r. reflexivity.
      * rewrite run_Chars_miss; [reflexivity|].
        cbn. rewrite E. cbn. rewrite Hd. reflexivity.
    + rewrite run_Chars_miss; [reflexivity|].
      rewrite E. cbn. rewrite Hs. reflexivity.
Qed.

(** The first attempt of [\d*] followed by [(?:[.\-_]\d+)*] consumes
    [numeric_tail]. *)
Lemma first_numeric_tail (s : string) :
  forall st,
    rest st = s ->
    exists mid,
      hd_error (run (Star (Chars isdecimal)) st) = Some mid /\
      hd_error (run (Star (Chars is_sep >> Plus (Chars isdecimal))) mid)
      = Some (advance (String.length (numeric_tail s)) st).
Proof.
  set (body := Chars is_sep >> Plus (Chars isdecimal)).
  set (P := fun s => forall st, rest st = s ->
              exists mid,
                hd_error (run (Star (Chars isdecimal)) st) = Some mid /\
                hd_error (run (Star body) mid)
                = Some (advance (String.length (numeric_tail s)) st)).
  assert (Hdigit : forall c s, isdecimal c = true -> P s -> P (String c s)).
  { intros c s' Hc IH st E.
    destruct (IH (advance 1 st)) as (mid & H1 & H2);
      [simpl; rewrite E; reflexivity|].
    exists mid. split.
    - rewrite (run_Star_Chars_hit _ st c s' E Hc).
      apply hd_error_app_some. exact H1.
    - rewrite H2, advance_advance. cbn [numeric_tail]. rewrite Hc.
      reflexivity. }
  assert (Hstop : forall s st,
             rest st = s -> first_char (fun c => negb (isdecimal c)) s ->
             run body st = [] -> numeric_tail s = "" ->
             exists mid,
               hd_error (run (Star (Chars isdecimal)) st) = Some mid /\
               hd_error (run (Star body) mid)
               = Some (advance (String.length (numeric_tail s)) st)).
  { intros s' st E Hf Hb Ht. exists st. split.
    - rewrite (run_Star_miss (Chars isdecimal)); [reflexivity|].
      apply run_Chars_miss. rewrite E. exact Hf.
    - rewrite (run_Star_miss body) by exact Hb.
      rewrite Ht. cbn [String.length]. rewrite advance_0. reflexivity. }
  assert (HQ : P s /\ forall c, P (String c s)).
  { induction s as [|c0 s [IH1 IH2]].
    - assert (H0 : P "").
      { intros st E. apply Hstop; auto; [exact I|].
        unfold body. rewrite run_sep_group, E. reflexivity. }
      split; [exact H0|].
      intros c. destruct (isdecimal c) eqn:Hc.
      + apply Hdigit; assumption.
      + intros st E. apply Hstop; auto.
        * cbn. rewrite Hc. reflexivity.
        * unfold body. rewrite run_sep_group, E. reflexivity.
        * cbn. rewrite Hc. destruct (is_sep c); reflexivity.
    - split; [apply IH2|].
      intros c. destruct (isdecimal c) eqn:Hc.
      + apply Hdigit; [exact Hc | apply IH2].
      + intros st E.
        destruct (is_sep c && isdecimal c0) eqn:Hsd.
        * assert (Hbody : run body st =
                          run (Star (Chars isdecimal)) (advance 1 (advance 1 st)))
            by (unfold body; rewrite run_sep_group, E, Hsd; reflexivity).
          apply andb_true_iff in Hsd. destruct Hsd as [Hs Hd].
          destruct (IH1 (advance 1 (advance 1 st))) as (mid & H1 & H2);
            [cbn; rewrite E; reflexivity|].
          exists st. split.
          -- rewrite (run_Star_miss (Chars isdecimal)); [reflexivity|].
             apply run_Chars_miss. rewrite E. cbn. rewrite Hc. reflexivity.
          -- rewrite run_Star, Hbody. rewrite filter_all.
             ++ apply hd_error_app_some. rewrite hd_flat_map_Star, H1, H2.
                rewrite !advance_advance. cbn [numeric_tail].
                rewrite Hc, Hs, Hd. reflexivity.
             ++ intros x Hx. apply run_sound in Hx.
                apply matches_rest_le in Hx. apply progress_lt.
                cbn in Hx. rewrite E in *. cbn in *. lia.
        * apply Hstop; auto.
          -- cbn. rewrite Hc. reflexivity.
          -- unfold body. rewrite run_sep_group, E, Hsd. reflexivity.
          -- cbn. rewrite Hc.
             destruct (is_sep c); [|reflexivity].
             cbn in Hsd. rewrite Hsd. reflexivity. }
  apply HQ.
Qed.

Lemma numeric_tail_prefix (s : string) :
  exists x, s = (numeric_tail s ++ x)%string.
Proof.
  assert (HQ : (exists x, s = (numeric_tail s ++ x)%string) /\
               forall c, exists x,
                 String c s = (numeric_tail (String c s) ++ x)%string).
  { induction s as [|c0 s [IH1 IH2]].
    - split; [exists ""; reflexivity|].
      intros c. cbn. destruct (isdecimal c); [exists ""; reflexivity|].
      destruct (is_sep c); eexists; reflexivity.
    - split; [apply IH2|].
      intros c. cbn [numeric_tail]. destruct (isdecimal c).
      + destruct (IH2 c0) as [x Hx]. exists x. cbn. f_equal. exact Hx.
      + destruct (is_sep c); [|eexists; reflexivity].
        destruct (isdecimal c0); [|eexists; reflexivity].
        destruct IH1 as [x Hx]. exists x. cbn. do 2 f_equal. exact Hx. }
  apply HQ.
Qed.

Lemma numeric_run_prefix (s : string) :
  slice_to (String.length (numeric_run s)) s = numeric_run s.
Proof.
  destruct s as [|c s]; [reflexivity|].
  cbn [numeric_run]. destruct (isdecimal c); [|reflexivity].
  destruct (numeric_tail_prefix s) as [x Hx].
  cbn. f_equal. rewrite Hx at 2. apply slice_to_app.
Qed.

Lemma hd_error_map {A B} (f : A -> B) (l : list A) :
  hd_error (map f l) = option_map f (hd_error l).
Proof. destruct l; reflexivity. Qed.

(** What [re.match] finds for the pattern of [parse_version]: the
    leading numeric run, when there is one. *)
Lemma rmatch_version_re (s : string) :
  rmatch version_re s =
  match numeric_run s with
  | EmptyString => None
  | r => Some (MState (String.length r) (slice_from (String.length r) s)
                      [(1, r)])
  end.
Proof.
  unfold rmatch, version_re.
  set (body := Chars is_sep >> Plus (Chars isdecimal)).
  set (init := MState 0 s []).
  change (run (Bol >> Group 1 (Plus (Chars isdecimal) >> Star body)) init)
    with (flat_map
            (fun st => map (capture 1 st)
                           (flat_map (run (Star body))
                                     (flat_map (run (Star (Chars isdecimal)))
                                               (run (Chars isdecimal) st))))
            (run Bol init)).
  change (run Bol init) with [init].
  cbn [flat_map]. rewrite app_nil_r.
  rewrite hd_error_map, hd_flat_map_Star.
  destruct s as [|c s].
  - reflexivity.
  - cbn [numeric_run]. destruct (isdecimal c) eqn:Hc.
    2: { rewrite run_Chars_miss; [reflexivity|].
         cbn. rewrite Hc. reflexivity. }
    rewrite (run_Chars_hit isdecimal init c s eq_refl Hc).
    cbn [flat_map]. rewrite app_nil_r.
    destruct (first_numeric_tail s (advance 1 init))
      as (mid & H1 & H2); [reflexivity|].
    rewrite H1. fold body in H2. rewrite H2.
    rewrite advance_advance. cbn [option_map].
    unfold capture, advance. cbn [pos rest groups Nat.add Nat.sub].
    pose proof (numeric_run_prefix (String c s)) as Hp.
    cbn [numeric_run] in Hp. rewrite Hc in Hp.
    cbn [String.length] in Hp.
    subst init. cbn [pos rest groups Nat.add Nat.sub].
    rewrite Hp. reflexivity.
Qed.

Lemma parse_version_eq (tag : string) :
  parse_version tag =
  match numeric_run (remove_prefix prefixes tag) with
  | EmptyString => Ret (fallback tag)
  | r =>
      match mapM int (Re.split is_sep r) with
      | Ret ns => Ret (map PInt ns)
      | Raise e => if is_ValueError e then Ret (fallback tag) else Raise e
      end
  end.
Proof.
  unfold parse_version. rewrite rmatch_version_re.
  destruct (numeric_run (remove_prefix prefixes tag)); reflexivity.
Qed.

(** Only a leading [v], in either case, is ever removed. *)
Lemma remove_prefix_eq (tag : string) :
  remove_prefix prefixes tag =
  if startswith (lower tag) "v" then slice_from 1 tag else tag.
Proof.
  unfold prefixes. cbn [remove_prefix].
  destruct (lower tag) as [|a s]; [reflexivity|].
  cbn [startswith]. destruct (Ascii.eqb a "v"); reflexivity.
Qed.

Lemma sep_not_digit c : is_sep c = true -> isdecimal c = false.
Proof. by_chars c. Qed.

Lemma digit_not_sep c : isdecimal c = true -> is_sep c = false.
Proof. by_chars c. Qed.

Lemma digit_not_v c : isdecimal c = true -> Ascii.eqb (lower_char c) "v" = false.
Proof. by_chars c. Qed.

Lemma remove_prefix_digit (c : ascii) (s : string) :
  isdecimal c = true -> remove_prefix prefixes (String c s) = String c s.
Proof.
  intros Hc. rewrite remove_prefix_eq. cbn [lower startswith].
  rewrite (digit_not_v c Hc). reflexivity.
Qed.

Lemma numeric_tail_digits (ds x : string) :
  all_chars isdecimal ds = true ->
  numeric_tail (ds ++ x) = (ds ++ numeric_tail x)%string.
Proof.
  induction ds as [|c ds IH]; cbn [all_chars append]; [reflexivity|].
  rewrite andb_true_iff. intros [Hc Hds].
  cbn [numeric_tail]. rewrite Hc, IH by exact Hds. reflexivity.
Qed.

Lemma dotted_cons (c : ascii) (seg : string) (more : list (ascii * string)) :
  dotted (String c seg) more = String c (dotted seg more).
Proof. destruct more as [|[sep seg'] more]; reflexivity. Qed.

Lemma numeric_tail_dotted (more : list (ascii * string)) :
  forall seg,
    all_chars isdecimal seg = true ->
    Forall (fun p => is_sep (fst p) = true /\ segment (snd p)) more ->
    numeric_tail (dotted seg more) = dotted seg more.
Proof.
  induction more as [|[sep seg'] more IH]; intros seg Hseg Hmore.
  - cbn [dotted]. rewrite <- (sapp_nil_r seg) at 1.
    rewrite numeric_tail_digits by exact Hseg. apply sapp_nil_r.
  - inversion Hmore as [|? ? [Hsep (Hne & Hd & _)] Hmore']; subst.
    cbn [fst snd] in *. cbn [dotted].
    rewrite numeric_tail_digits by exact Hseg. f_equal.
    destruct seg' as [|d seg']; [congruence|].
    cbn [all_chars] in Hd. apply andb_true_iff in Hd. destruct Hd as [Hd Hd'].
    rewrite dotted_cons. cbn [numeric_tail].
    rewrite (sep_not_digit sep Hsep), Hsep, Hd.
    rewrite IH by assumption. reflexivity.
Qed.

Lemma numeric_run_dotted (seg : string) (more : list (ascii * string)) :
  numeric_tag seg more -> numeric_run (dotted seg more) = dotted seg more.
Proof.
  intros [(Hne & Hd & _) Hmore].
  destruct seg as [|d seg]; [congruence|].
  cbn [all_chars] in Hd. apply andb_true_iff in Hd. destruct Hd as [Hd Hd'].
  rewrite dotted_cons. cbn [numeric_run]. rewrite Hd.
  rewrite numeric_tail_dotted by assumption. reflexivity.
Qed.

Lemma re_split_digits (seg : string) :
  all_chars isdecimal seg = true -> Re.split is_sep seg = [seg].
Proof.
  induction seg as [|c seg IH]; cbn [all_chars Re.split]; [reflexivity|].
  rewrite andb_true_iff. intros [Hc Hseg].
  rewrite (digit_not_sep c Hc), IH by exact Hseg. reflexivity.
Qed.

Lemma re_split_digits_sep (seg : string) (sep : ascii) (y : string) :
  all_chars isdecimal seg = true -> is_sep sep = true ->
  Re.split is_sep (seg ++ String sep y) = seg :: Re.split is_sep y.
Proof.
  intros Hseg Hsep. induction seg as [|c seg IH]; cbn [append Re.split].
  - rewrite Hsep. reflexivity.
  - cbn [all_chars] in Hseg. apply andb_true_iff in Hseg.
    destruct Hseg as [Hc Hseg].
    rewrite (digit_not_sep c Hc), IH by exact Hseg. reflexivity.
Qed.

Lemma re_split_dotted (more : list (ascii * string)) :
  forall seg,
    numeric_tag seg more ->
    Re.split is_sep (dotted seg more) = seg :: map snd more.
Proof.
  induction more as [|[sep seg'] more IH]; intros seg [Hseg Hmore].
  - apply re_split_digits. apply Hseg.
  - inversion Hmore as [|? ? [Hsep Hseg'] Hmore']; subst.
    cbn [fst snd] in *. cbn [dotted map snd].
    rewrite re_split_digits_sep by (try apply Hseg; exact Hsep).
    rewrite IH by (split; assumption). reflexivity.
Qed.

Lemma int_segment (seg : string) :
  segment seg -> int seg = Ret (int_digits 0 seg).
Proof.
  intros (Hne & Hd & Hl). unfold int.
  destruct seg as [|c seg]; [congruence|].
  cbn [truthy andb]. rewrite Hd. cbn [andb].
  apply N.leb_le in Hl. rewrite Hl. reflexivity.
Qed.

Lemma mapM_int_segments (segs : list string) :
  Forall segment segs -> mapM int segs = Ret (map (int_digits 0) segs).
Proof.
  induction 1 as [|seg segs Hseg _ IH]; cbn [mapM map]; [reflexivity|].
  rewrite (int_segment seg Hseg), IH. reflexivity.
Qed.

(** What [parse_version] hands to [int] is a run of digits. *)
Lemma numeric_tail_parts (s pre : string) :
  pre <> "" -> all_chars isdecimal pre = true ->
  Forall (fun part => part <> "" /\ all_chars isdecimal part = true)
         (Re.split is_sep (pre ++ numeric_tail s)).
Proof.
  set (ok := fun part => part <> "" /\ all_chars isdecimal part = true).
  set (A := fun s => forall pre,
              pre <> "" -> all_chars isdecimal pre = true ->
              Forall ok (Re.split is_sep (pre ++ numeric_tail s))).
  assert (Hend : forall pre,
             pre <> "" -> all_chars isdecimal pre = true ->
             Forall ok (Re.split is_sep (pre ++ ""))).
  { intros p Hne Hd. rewrite sapp_nil_r, re_split_digits by exact Hd.
    constructor; [split; assumption | constructor]. }
  assert (Hdigit : forall c s, isdecimal c = true -> A s -> A (String c s)).
  { intros c s' Hc IH p Hne Hd. cbn [numeric_tail]. rewrite Hc.
    replace (p ++ String c (numeric_tail s'))%string
      with ((p ++ String c "") ++ numeric_tail s')%string
      by (rewrite sapp_assoc; reflexivity).
    apply IH.
    - destruct p; discriminate.
    - rewrite all_chars_app, Hd. cbn. rewrite Hc. reflexivity. }
  assert (HQ : A s /\ forall c, A (String c s)).
  { induction s as [|c0 s [IH1 IH2]].
    - assert (H0 : A "") by (intros p Hne Hd; apply Hend; assumption).
      split; [exact H0|].
      intros c. destruct (isdecimal c) eqn:Hc; [apply Hdigit; assumption|].
      intros p Hne Hd. cbn [numeric_tail]. rewrite Hc.
      destruct (is_sep c); apply Hend; assumption.
    - split; [apply IH2|].
      intros c. destruct (isdecimal c) eqn:Hc; [apply Hdigit; auto|].
      intros p Hne Hd. cbn [numeric_tail]. rewrite Hc.
      destruct (is_sep c) eqn:Hs; [|apply Hend; assumption].
      destruct (isdecimal c0) eqn:Hd0; [|apply Hend; assumption].
      rewrite re_split_digits_sep by assumption.
      constructor; [split; assumption|].
      apply (IH1 (String c0 "")); [discriminate|].
      cbn. rewrite Hd0. reflexivity. }
  intros Hne Hd. apply HQ; assumption.
Qed.

Lemma numeric_run_parts (s : string) :
  numeric_run s <> "" ->
  Forall (fun part => part <> "" /\ all_chars isdecimal part = true)
         (Re.split is_sep (numeric_run s)).
Proof.
  destruct s as [|c s]; cbn [numeric_run]; [congruence|].
  destruct (isdecimal c) eqn:Hc; [|congruence]. intros _.
  apply (numeric_tail_parts s (String c "")); [discriminate|].
  cbn. rewrite Hc. reflexivity.
Qed.

(** A purely numeric tag parses to the integers of its segments. *)
Lemma parse_version_dotted (seg : string) (more : list (ascii * string)) :
  numeric_tag seg more ->
  parse_version (dotted seg more) = Ret (map PInt (segment_values seg more)).
Proof.
  intros H. pose proof H as [Hseg Hmore].
  rewrite parse_version_eq.
  assert (Hrm : remove_prefix prefixes (dotted seg more) = dotted seg more).
  { destruct Hseg as (Hne & Hd & _).
    destruct seg as [|d seg]; [congruence|].
    cbn [all_chars] in Hd. apply andb_true_iff in Hd.
    rewrite dotted_cons. apply remove_prefix_digit. apply Hd. }
  rewrite Hrm, (numeric_run_dotted seg more H).
  assert (Hd : exists d r, dotted seg more = String d r).
  { destruct Hseg as (Hne & _). destruct seg as [|d seg]; [congruence|].
    rewrite dotted_cons. eauto. }
  destruct Hd as (d & r & E). rewrite E. cbv iota. rewrite <- E.
  rewrite (re_split_dotted more seg H).
  rewrite mapM_int_segments; [reflexivity|].
  - constructor; [exact Hseg|].
    apply Forall_forall. intros x Hx. apply in_map_iff in Hx.
    destruct Hx as (p & <- & Hp).
    rewrite Forall_forall in Hmore. apply (Hmore p Hp).
Qed.

(** ** The order of numeric keys *)

Lemma tuple_lt_ints_lex (xs ys : list Z) :
  tuple_lt (map PInt xs) (map PInt ys) = Ret true <-> lex_lt xs ys.
Proof.
  unfold lex_lt. split.
  - revert ys. induction xs as [|x xs IH]; intros [|y ys]; cbn; try discriminate.
    + intros _. right. exists y, ys. reflexivity.
    + destruct (Z.eqb_spec x y) as [->|Hne].
      * intros H. destruct (IH ys H)
          as [(p & a & b & xs' & ys' & -> & -> & Hab)|(b & ys' & ->)].
        -- left. exists (y :: p), a, b, xs', ys'. auto.
        -- right. exists b, ys'. reflexivity.
      * intros H. inversion H as [Hlt]. apply Z.ltb_lt in Hlt.
        left. exists [], x, y, xs, ys. auto.
  - intros [(p & a & b & xs' & ys' & -> & -> & Hab)|(b & ys' & ->)].
    + induction p as [|z p IH]; cbn.
      * destruct (Z.eqb_spec a b); [lia|].
        f_equal. apply Z.ltb_lt. exact Hab.
      * rewrite Z.eqb_refl. exact IH.
    + induction xs as [|x xs IH]; cbn; [reflexivity|].
      rewrite Z.eqb_refl. exact IH.
Qed.

Lemma version_key_ret (tag : string) (k : list pyval) :
  parse_version tag = Ret k -> version_key tag = k.
Proof. unfold version_key. intros ->. reflexivity. Qed.

(** C4. For two tags that parse to tuples of integers, the key of the
    first is smaller than the key of the second exactly when the
    sequences of integers compare so position by position, a strict
    prefix being the lesser; a tag made of segments of digits with
    separators between them parses to the integers of its segments, so
    this holds of every two such tags. [16.9] is below [16.11], and
    [1.2] is below [1.2.0]: no zero is padded. *)
Theorem version_key_numeric_order :
  (forall a b xs ys,
      parse_version a = Ret (map PInt xs) ->
      parse_version b = Ret (map PInt ys) ->
      (tuple_lt (version_key a) (version_key b) = Ret true <-> lex_lt xs ys)) /\
  (forall seg more,
      numeric_tag seg more ->
      parse_version (dotted seg more)
      = Ret (map PInt (segment_values seg more))) /\
  (forall seg more seg' more',
      numeric_tag seg more -> numeric_tag seg' more' ->
      (tuple_lt (version_key (dotted seg more))
                (version_key (dotted seg' more')) = Ret true <->
       lex_lt (segment_values seg more) (segment_values seg' more'))) /\
  parse_version "16.9" = Ret [PInt 16; PInt 9] /\
  parse_version "16.11" = Ret [PInt 16; PInt 11] /\
  tuple_lt (version_key "16.9") (version_key "16.11") = Ret true /\
  tuple_lt (version_key "1.2") (version_key "1.2.0") = Ret true /\
  tuple_lt (version_key "1.2.0") (version_key "1.2") = Ret false.
Proof.
  split; [|split; [|split]].
  - intros a b xs ys Ha Hb.
    rewrite (version_key_ret _ _ Ha), (version_key_ret _ _ Hb).
    apply tuple_lt_ints_lex.
  - apply parse_version_dotted.
  - intros seg more seg' more' H H'.
    rewrite (version_key_ret _ _ (parse_version_dotted _ _ H)).
    rewrite (version_key_ret _ _ (parse_version_dotted _ _ H')).
    apply tuple_lt_ints_lex.
  - repeat split; vm_compute; reflexivity.
Qed.

Lemma version_key_numeric_order_witness :
  (tuple_lt (version_key "16.9") (version_key "16.11") = Ret true <->
   lex_lt [16; 9]%Z [16; 11]%Z) /\
  parse_version (dotted "16" [("."%char, "11")])
  = Ret (map PInt (segment_values "16" [("."%char, "11")])).
Proof.
  split.
  - apply (proj1 version_key_numeric_order "16.9" "16.11" [16; 9]%Z [16; 11]%Z);
      vm_compute; reflexivity.
  - apply (proj1 (proj2 version_key_numeric_order) "16" [("."%char, "11")]).
    split.
    + split; [discriminate|]. split; [reflexivity|]. vm_compute. discriminate.
    + constructor; [|constructor]. split; [reflexivity|].
      split; [discriminate|]. split; [reflexivity|]. vm_compute. discriminate.
Defined.

(** ** Fallback keys *)

Lemma numeric_run_none (s : string) :
  first_char (fun c => negb (isdecimal c)) s -> numeric_run s = "".
Proof.
  destruct s as [|c s]; cbn; [reflexivity|].
  intros H. apply negb_true_iff in H. rewrite H. reflexivity.
Qed.

Lemma fallback_not_ints (tag : string) (ns : list Z) :
  fallback tag <> map PInt ns.
Proof. destruct ns; discriminate. Qed.

Lemma latest_is_fallback (tags : list string) (c t : string) :
  In t tags -> parse_version t = Ret (fallback t) ->
  exists latest,
    get_latest_tag tags c = Ret (Some latest) /\
    In latest tags /\
    parse_version latest = Ret (fallback latest).
Proof.
  intros Hin Ht.
  destruct (get_latest_tag_first_greatest tags c)
    as (latest & El & before & after & Et & Hb & Ha).
  { intros ->. destruct Hin. }
  exists latest. split; [exact El|]. split.
  { rewrite Et. apply in_or_app. right. left. reflexivity. }
  destruct (parse_version_cases latest) as [[ns Hn]|Hf]; [|exact Hf].
  exfalso. apply version_key_ret in Ht. apply version_key_ret in Hn.
  rewrite Et in Hin. apply in_app_or in Hin. destruct Hin as [Hin|[<-|Hin]].
  - apply Hb in Hin. rewrite Ht, Hn, tuple_lt_fallback_int in Hin.
    discriminate.
  - rewrite Ht in Hn. apply (fallback_not_ints _ _ Hn).
  - apply Ha in Hin. rewrite Ht, Hn, tuple_lt_int_fallback in Hin.
    discriminate.
Qed.

Lemma mapM_raise {A B} (f : A -> result B) (l : list A) (a : A) (e : exn) :
  In a l -> f a = Raise e -> exists e', mapM f l = Raise e'.
Proof.
  induction l as [|b l IH]; intros Hin Ha; [destruct Hin|].
  cbn [mapM]. destruct Hin as [->|Hin].
  - rewrite Ha. cbn. eauto.
  - destruct (f b); cbn; [|eauto].
    destruct (IH Hin Ha) as [e' ->]. cbn. eauto.
Qed.

Lemma int_too_long (part : string) :
  (int_max_str_digits < nlength part)%N -> int part = Raise ValueError.
Proof.
  intros H. unfold int. apply N.leb_gt in H. rewrite H.
  rewrite andb_false_r. reflexivity.
Qed.

(** C1. A tag whose text, once the prefix is removed, does not start
    with a digit gets the fallback key, and so does a tag one of whose
    segments [int] refuses: a tag with a segment of more than 4300
    digits, such as a segment of 4301 digits.
    The fallback key is above every tuple of integers, and two fallback
    keys compare as their tags do. Hence a tag list with an unparseable
    tag has an unparseable latest tag, and the latest of [1.2] and
    [RELEASE.2023-12-23T07-19-11Z] is the latter. *)
Theorem fallback_key_ranks_last :
  (forall tag,
      first_char (fun c => negb (isdecimal c)) (remove_prefix prefixes tag) ->
      parse_version tag = Ret (fallback tag)) /\
  (forall tag e,
      mapM int (Re.split is_sep (numeric_run (remove_prefix prefixes tag)))
      = Raise e ->
      parse_version tag = Ret (fallback tag)) /\
  (forall tag part,
      In part (Re.split is_sep (numeric_run (remove_prefix prefixes tag))) ->
      (int_max_str_digits < nlength part)%N ->
      parse_version tag = Ret (fallback tag)) /\
  parse_version long_segment_tag = Ret (fallback long_segment_tag) /\
  (forall ns tag,
      tuple_lt (map PInt ns) (fallback tag) = Ret true /\
      tuple_lt (fallback tag) (map PInt ns) = Ret false) /\
  (forall s t, tuple_lt (fallback s) (fallback t) = Ret (String.ltb s t)) /\
  (forall tags c t,
      In t tags -> parse_version t = Ret (fallback t) ->
      exists latest,
        get_latest_tag tags c = Ret (Some latest) /\
        In latest tags /\
        parse_version latest = Ret (fallback latest)) /\
  (forall c,
      get_latest_tag ["1.2"; "RELEASE.2023-12-23T07-19-11Z"] c
      = Ret (Some "RELEASE.2023-12-23T07-19-11Z")).
Proof.
  assert (Hraise : forall tag e,
             mapM int (Re.split is_sep
                         (numeric_run (remove_prefix prefixes tag)))
             = Raise e ->
             parse_version tag = Ret (fallback tag)).
  { intros tag e H. rewrite parse_version_eq.
    destruct (numeric_run (remove_prefix prefixes tag)) as [|a r];
      [reflexivity|].
    destruct (mapM_int_cases (Re.split is_sep (String a r)))
      as [[ns Hn]|Hv]; [congruence|].
    rewrite Hv. reflexivity. }
  split; [|split; [|split; [|split; [|split; [|split; [|split]]]]]].
  - intros tag H. rewrite parse_version_eq, numeric_run_none by exact H.
    reflexivity.
  - exact Hraise.
  - intros tag part Hin Hlong.
    destruct (mapM_raise int _ part ValueError Hin (int_too_long _ Hlong))
      as [e He].
    apply (Hraise tag e He).
  - vm_compute. reflexivity.
  - intros ns tag. split;
      [apply tuple_lt_int_fallback | apply tuple_lt_fallback_int].
  - apply tuple_lt_fallbacks.
  - apply latest_is_fallback.
  - intros c. vm_compute. reflexivity.
Qed.

Lemma fallback_key_ranks_last_witness :
  parse_version "latest" = Ret (fallback "latest") /\
  parse_version long_segment_tag = Ret (fallback long_segment_tag) /\
  exists latest,
    get_latest_tag ["1.2"; "latest"; "RELEASE.2023-12-23T07-19-11Z"] "1.2"
    = Ret (Some latest) /\
    In latest ["1.2"; "latest"; "RELEASE.2023-12-23T07-19-11Z"] /\
    parse_version latest = Ret (fallback latest).
Proof.
  split; [|split].
  - apply (proj1 fallback_key_ranks_last "latest"). reflexivity.
  - apply (proj1 (proj2 fallback_key_ranks_last) long_segment_tag ValueError).
    vm_compute. reflexivity.
  - apply (proj1 (proj2 (proj2 (proj2 (proj2 (proj2 (proj2
             fallback_key_ranks_last))))))
             ["1.2"; "latest"; "RELEASE.2023-12-23T07-19-11Z"] "1.2" "latest").
    + right. left. reflexivity.
    + vm_compute. reflexivity.
Defined.

(** ** Prefixes *)

(** The loop over the prefixes removes the first one that matches, and
    nothing when none does. *)
Lemma remove_prefix_first (ps : list string) (tag : string) :
  (Forall (fun q => startswith (lower tag) q = false) ps /\
   remove_prefix ps tag = tag) \/
  (exists before prefix after,
      ps = before ++ prefix :: after /\
      Forall (fun q => startswith (lower tag) q = false) before /\
      startswith (lower tag) prefix = true /\
      remove_prefix ps tag = slice_from (String.length prefix) tag).
Proof.
  induction ps as [|p ps IH]; cbn [remove_prefix].
  - left. split; [constructor | reflexivity].
  - destruct (startswith (lower tag) p) eqn:E.
    + right. exists [], p, ps. repeat split; auto.
    + destruct IH as [[Hall Hr]|(before & prefix & after & -> & Hb & Hp & Hr)].
      * left. split; [constructor; assumption | exact Hr].
      * right. exists (p :: before), prefix, after.
        repeat split; auto.
Qed.

Lemma startswith_version_v (s : string) :
  startswith s "version-v" = true \/ startswith s "version-" = true ->
  startswith s "v" = true.
Proof.
  destruct s as [|a s]; cbn [startswith]; [intros [H|H]; discriminate|].
  destruct (Ascii.eqb a "v"); cbn [andb]; [auto|].
  intros [H|H]; discriminate.
Qed.

(** C5. [parse_version] removes at most one prefix: the first of [v],
    [version-v] and [version-] that the lowered tag starts with, and
    none when there is no such prefix. The keys of [v3.6.5] and [3.6.5]
    are equal. A tag that starts with [version-] loses its leading [v]
    only: a tag that [version-v] or [version-] matches is matched by
    [v], which is tried first, so these two never apply. *)
Theorem remove_prefix_first_match :
  prefixes = ["v"; "version-v"; "version-"] /\
  (forall tag,
      (Forall (fun q => startswith (lower tag) q = false) prefixes /\
       remove_prefix prefixes tag = tag) \/
      (exists before prefix after,
          prefixes = before ++ prefix :: after /\
          Forall (fun q => startswith (lower tag) q = false) before /\
          startswith (lower tag) prefix = true /\
          remove_prefix prefixes tag
          = slice_from (String.length prefix) tag)) /\
  parse_version "v3.6.5" = parse_version "3.6.5" /\
  parse_version "3.6.5" = Ret [PInt 3; PInt 6; PInt 5] /\
  (forall rest,
      remove_prefix prefixes ("version-" ++ rest)
      = ("ersion-" ++ rest)%string) /\
  (forall tag,
      startswith (lower tag) "version-v" = true \/
      startswith (lower tag) "version-" = true ->
      startswith (lower tag) "v" = true) /\
  (forall tag,
      remove_prefix prefixes tag
      = if startswith (lower tag) "v" then slice_from 1 tag else tag).
Proof.
  split; [reflexivity|]. split; [|split; [|split; [|split; [|split]]]].
  - intros tag. apply remove_prefix_first.
  - vm_compute. reflexivity.
  - vm_compute. reflexivity.
  - intros rest. reflexivity.
  - intros tag. apply startswith_version_v.
  - apply remove_prefix_eq.
Qed.

Lemma remove_prefix_first_match_witness :
  startswith (lower "Version-v3.13") "v" = true.
Proof.
  apply (proj1 (proj2 (proj2 (proj2 (proj2 (proj2 remove_prefix_first_match)))))
           "Version-v3.13").
  left. reflexivity.
Defined.

(** C9, at the inputs where the code departs from it. A leading [v] is
    removed whatever its case, and the keys of [V3.6.5] and [3.6.5] are
    equal; but of [version-v3.13] and of [Version-V3.13] only the first
    letter is removed, not the prefix [version-v], and of [version-3.13]
    not the prefix [version-]: the three tags get fallback keys, where
    [3.13] has the key (3, 13) that the docstring of [parse_version]
    gives for [version-v3.13]. *)
Theorem parse_version_long_prefix_kept :
  (forall rest, remove_prefix prefixes (String "V" rest) = rest) /\
  (forall rest, remove_prefix prefixes (String "v" rest) = rest) /\
  parse_version "V3.6.5" = parse_version "3.6.5" /\
  remove_prefix prefixes "version-v3.13" = "ersion-v3.13" /\
  remove_prefix prefixes "Version-V3.13" = "ersion-V3.13" /\
  remove_prefix prefixes "version-3.13" = "ersion-3.13" /\
  parse_version "version-v3.13" = Ret (fallback "version-v3.13") /\
  parse_version "Version-V3.13" = Ret (fallback "Version-V3.13") /\
  parse_version "version-3.13" = Ret (fallback "version-3.13") /\
  parse_version "3.13" = Ret [PInt 3; PInt 13].
Proof.
  split; [reflexivity|]. split; [reflexivity|].
  repeat split; vm_compute; reflexivity.
Qed.

(** ** The matching rule as worded *)

Lemma unpaired_quote_line_not_stated (var value cmd : string) :
  ~ stated_line_shape (strip unpaired_quote_line) var value cmd.
Proof.
  intros H. apply stated_line_shape_parts in H.
  destruct H as (ws1 & q & ws2 & ws3 & tail & H & _).
  assert (H' : line_parts (strip unpaired_quote_line)
                          "foo_image_tag" " " (String dquote "") "1.2.3" ""
                          "  " " " "skopeo list-tags docker://x").
  { unfold line_parts. repeat split; try reflexivity. discriminate. }
  destruct (line_parts_unique _ _ _ _ _ _ _ _ _ _ _ _ _ _ _ _ _ H H')
    as (_ & E1 & _ & E2 & _).
  rewrite E1 in E2. discriminate.
Qed.

Lemma tab_line_not_stated (var value cmd : string) :
  ~ stated_line_shape (strip tab_line) var value cmd.
Proof.
  intros H. apply stated_line_shape_parts in H.
  destruct H as (ws1 & q & ws2 & ws3 & tail & H & Ec).
  assert (H' : line_parts (strip tab_line)
                          "foo_image_tag" " " "" "1.2.3" "" "  " " "
                          ("skopeo" ++ String "009" "list-tags docker://x")).
  { unfold line_parts. repeat split; try reflexivity. discriminate. }
  destruct (line_parts_unique _ _ _ _ _ _ _ _ _ _ _ _ _ _ _ _ _ H H')
    as (_ & _ & _ & _ & E).
  rewrite E in Ec. discriminate.
Qed.

Lemma bare_command_line_stated :
  stated_line_shape (strip bare_command_line)
                    "foo_image_tag" "1.2.3" "skopeo list-tags".
Proof.
  exists "foo", " ", "", "  ", " ", "".
  repeat split; try reflexivity; try discriminate. left. reflexivity.
Qed.

(** C7 as worded does not hold. With the matching rule read to the
    letter -- a value that is bare or between two quote marks of one
    kind, a comment that starts with the text [skopeo list-tags] -- the
    Extractor does not emit one tag source per matching line and none
    for the others: it emits one for a line whose value has an opening
    quote mark only and for a line with a tab between [skopeo] and
    [list-tags], and none for a line whose comment is [skopeo list-tags]
    and nothing more. *)
Lemma extractor_not_as_worded :
  ~ (forall text,
        extracted stated_line_entry 1
                  (readlines text) (parse_image_tag_lines text)) /\
  parse_image_tag_lines unpaired_quote_line =
    [Item "foo_image_tag" "1.2.3" "skopeo list-tags docker://x" 1] /\
  (forall var value cmd,
      ~ stated_line_shape (strip unpaired_quote_line) var value cmd) /\
  parse_image_tag_lines tab_line =
    [Item "foo_image_tag" "1.2.3"
          ("skopeo" ++ String "009" "list-tags docker://x") 1] /\
  (forall var value cmd, ~ stated_line_shape (strip tab_line) var value cmd) /\
  parse_image_tag_lines bare_command_line = [] /\
  stated_line_shape (strip bare_command_line)
                    "foo_image_tag" "1.2.3" "skopeo list-tags".
Proof.
  split; [|split; [|split; [|split; [|split; [|split]]]]].
  - intros H. specialize (H unpaired_quote_line).
    assert (E : parse_image_tag_lines unpaired_quote_line =
                [Item "foo_image_tag" "1.2.3"
                      "skopeo list-tags docker://x" 1])
      by (vm_compute; reflexivity).
    rewrite E in H.
    change (readlines unpaired_quote_line) with [unpaired_quote_line] in H.
    inversion H as [| ? ? ? ? ? [Hs _] _ | ? ? ? ? _ Hrest]; subst.
    + apply (unpaired_quote_line_not_stated _ _ _ Hs).
    + inversion Hrest.
  - vm_compute. reflexivity.
  - apply unpaired_quote_line_not_stated.
  - vm_compute. reflexivity.
  - apply tab_line_not_stated.
  - vm_compute. reflexivity.
  - apply bare_command_line_stated.
Qed.

(* ================================================================= *)
(** * Further properties *)

Import Main Tags.

(** ** The tags [run_skopeo_command] returns *)

Lemma lstrip_first (s : string) :
  first_char (fun c => negb (isspace c)) (lstrip s).
Proof.
  induction s as [|c s IH]; simpl; [exact I|].
  destruct (isspace c) eqn:E; [exact IH|]. simpl. rewrite E. reflexivity.
Qed.

Lemma lstrip_id (s : string) :
  first_char (fun c => negb (isspace c)) s -> lstrip s = s.
Proof.
  destruct s as [|c s]; simpl; [reflexivity|].
  intros H. apply negb_true_iff in H. rewrite H. reflexivity.
Qed.

Lemma rstrip_first (p : ascii -> bool) (s : string) :
  first_char p s -> first_char p (rstrip s).
Proof.
  destruct s as [|c s]; simpl; [trivial|]. intros H.
  destruct (rstrip s); [destruct (isspace c)|]; simpl; trivial.
Qed.

Lemma rstrip_idem (s : string) : rstrip (rstrip s) = rstrip s.
Proof.
  induction s as [|c s IH]; [reflexivity|].
  cbn [rstrip]. destruct (rstrip s) as [|d r] eqn:E.
  - destruct (isspace c) eqn:Ec; [reflexivity|].
    cbn [rstrip]. rewrite Ec. reflexivity.
  - change (rstrip (String c (String d r)))
      with (match rstrip (String d r) with
            | EmptyString =>
                if isspace c then EmptyString else String c EmptyString
            | x => String c x
            end).
    rewrite IH. reflexivity.
Qed.

Lemma strip_idem (s : string) : strip (strip s) = strip s.
Proof.
  unfold strip.
  rewrite (lstrip_id (rstrip (lstrip s)));
    [apply rstrip_idem | apply rstrip_first, lstrip_first].
Qed.

Lemma all_chars_lstrip (p : ascii -> bool) (s : string) :
  all_chars p s = true -> all_chars p (lstrip s) = true.
Proof.
  destruct (lstrip_decompose s) as (w & _ & E). intros H.
  rewrite E, all_chars_app in H. apply andb_true_iff in H. apply H.
Qed.

Lemma all_chars_rstrip (p : ascii -> bool) (s : string) :
  all_chars p s = true -> all_chars p (rstrip s) = true.
Proof.
  destruct (rstrip_decompose s) as (w & _ & E). intros H.
  rewrite E, all_chars_app in H. apply andb_true_iff in H. apply H.
Qed.

Lemma any_char_other (c : ascii) : Ascii.eqb c "010" = false -> any_char c = true.
Proof.
  intros H. unfold any_char. apply negb_true_iff.
  destruct (code_is 10 c) eqn:E; [|reflexivity].
  apply code_is_eq in E; [|reflexivity]. subst c. discriminate.
Qed.

Lemma split_lines_any_char (s : string) :
  Forall (fun line => all_chars any_char line = true) (Str.split "010" s).
Proof.
  induction s as [|c s IH]; cbn [Str.split].
  - repeat constructor.
  - destruct (Ascii.eqb c "010") eqn:E.
    + constructor; [reflexivity | exact IH].
    + destruct (Str.split "010" s) as [|piece pieces]; [repeat constructor|].
      * simpl. rewrite (any_char_other c E). reflexivity.
      * inversion IH; subst. constructor; [|assumption].
        simpl. rewrite (any_char_other c E). assumption.
Qed.

Lemma trimmed_clean (lines : list string) :
  Forall (fun line => all_chars any_char line = true) lines ->
  Forall (fun tag => tag <> "" /\ strip tag = tag /\
                     all_chars any_char tag = true) (trimmed lines).
Proof.
  induction 1 as [|line lines Hl _ IH]; [constructor|].
  unfold trimmed in *. cbn [filter].
  destruct (truthy (strip line)) eqn:E; [|exact IH].
  cbn [map]. constructor; [|exact IH].
  split; [|split].
  - intros H. rewrite H in E. discriminate.
  - apply strip_idem.
  - unfold strip. apply all_chars_rstrip, all_chars_lstrip, Hl.
Qed.

Lemma trimmed_id (tags : list string) :
  Forall (fun tag => tag <> "" /\ strip tag = tag) tags -> trimmed tags = tags.
Proof.
  induction 1 as [|tag tags [Hne Hs] _ IH]; [reflexivity|].
  unfold trimmed in *. cbn [filter]. rewrite Hs.
  destruct tag; [congruence|]. cbn [truthy map]. rewrite Hs, IH. reflexivity.
Qed.

(** X1. Every tag [run_skopeo_command] returns is a non-empty text with
    no white space at either end and no line break in it, and cleaning
    the returned list again as the output was cleaned leaves it as it
    is. *)
Theorem run_skopeo_command_tags_clean
  (subprocess_run : string -> nat -> result CompletedProcess)
  (command : string) (timeout : nat) (tags : list string) :
  run_skopeo_command subprocess_run command timeout = Ret (Some tags) ->
  Forall (fun tag => tag <> "" /\ strip tag = tag /\
                     all_chars any_char tag = true) tags /\
  trimmed tags = tags.
Proof.
  rewrite run_skopeo_command_eq. intros H.
  assert (E : tags = nonempty_trimmed_lines
                       (match subprocess_run command timeout with
                        | Ret res => stdout res
                        | Raise _ => ""
                        end)).
  { destruct (subprocess_run command timeout) as [res|e]; [|discriminate].
    destruct (returncode res =? 0)%Z; [|discriminate]. congruence. }
  assert (Hc := trimmed_clean _ (split_lines_any_char
                                   (match subprocess_run command timeout with
                                    | Ret res => stdout res
                                    | Raise _ => ""
                                    end))).
  fold (nonempty_trimmed_lines
          (match subprocess_run command timeout with
           | Ret res => stdout res
           | Raise _ => ""
           end)) in Hc.
  rewrite <- E in Hc. split; [exact Hc|].
  apply trimmed_id. eapply Forall_impl; [|exact Hc].
  intros tag (H1 & H2 & _). split; assumption.
Qed.

Lemma run_skopeo_command_tags_clean_witness :
  Forall (fun tag => tag <> "" /\ strip tag = tag /\
                     all_chars any_char tag = true)
         ["1.0"; "1.1"; "1.2"; "1.3"; "1.4"; "1.5"; "1.6"; "1.7"; "1.8";
          "1.9"; "1.10"; "v1.11"] /\
  trimmed ["1.0"; "1.1"; "1.2"; "1.3"; "1.4"; "1.5"; "1.6"; "1.7"; "1.8";
           "1.9"; "1.10"; "v1.11"] =
  ["1.0"; "1.1"; "1.2"; "1.3"; "1.4"; "1.5"; "1.6"; "1.7"; "1.8";
   "1.9"; "1.10"; "v1.11"].
Proof.
  apply (run_skopeo_command_tags_clean example_shell "skopeo list-tags" 30).
  reflexivity.
Defined.

(** ** The line numbers of [parse_image_tag_lines] *)

Lemma extracted_numbers (n : nat) (lines : list string) (its : list item) :
  extracted line_entry n lines its ->
  StronglySorted lt (map line_number its) /\
  Forall (fun it =>
            n <= line_number it /\
            exists line,
              nth_error lines (line_number it - n) = Some line /\
              line_shape (strip line) (variable it) (current_value it)
                         (skopeo_command it)) its /\
  List.length its <= List.length lines.
Proof.
  induction 1 as [n | n line lines it its [Hs Hn] _ (IH1 & IH2 & IH3)
                    | n line lines its _ _ (IH1 & IH2 & IH3)].
  - repeat split; constructor.
  - assert (Hup : Forall (fun it' =>
                    n <= line_number it' /\
                    exists l,
                      nth_error (line :: lines) (line_number it' - n) = Some l /\
                      line_shape (strip l) (variable it') (current_value it')
                                 (skopeo_command it')) its).
    { eapply Forall_impl; [|exact IH2].
      intros it' (Hle & l & Hl & Hshape). split; [lia|].
      exists l. split; [|exact Hshape].
      replace (line_number it' - n) with (S (line_number it' - S n)) by lia.
      exact Hl. }
    split; [|split].
    + cbn [map]. constructor; [exact IH1|].
      apply Forall_forall. intros k Hk. apply in_map_iff in Hk.
      destruct Hk as (it' & <- & Hin).
      rewrite Forall_forall in IH2. destruct (IH2 it' Hin) as [Hle _]. lia.
    + constructor; [|exact Hup].
      split; [lia|]. exists line. rewrite Hn, Nat.sub_diag. split; [reflexivity|].
      exact Hs.
    + simpl. lia.
  - split; [exact IH1|split].
    + eapply Forall_impl; [|exact IH2].
      intros it' (Hle & l & Hl & Hshape). split; [lia|].
      exists l. split; [|exact Hshape].
      replace (line_number it' - n) with (S (line_number it' - S n)) by lia.
      exact Hl.
    + simpl. lia.
Qed.

(** X2. The tag sources [parse_image_tag_lines] returns carry strictly
    increasing line numbers; each number is between 1 and the number of
    lines of the document, and the line with that number, trimmed, is a
    declaration of the variable, the value and the command of the tag
    source. There are at most as many tag sources as lines. *)
Theorem parse_image_tag_lines_line_numbers (text : string) :
  StronglySorted lt (map line_number (parse_image_tag_lines text)) /\
  Forall (fun it =>
            1 <= line_number it <= List.length (readlines text) /\
            exists line,
              nth_error (readlines text) (line_number it - 1) = Some line /\
              line_shape (strip line) (variable it) (current_value it)
                         (skopeo_command it))
         (parse_image_tag_lines text) /\
  List.length (parse_image_tag_lines text) <= List.length (readlines text).
Proof.
  destruct (extracted_numbers 1 (readlines text) (parse_image_tag_lines text)
              (scan_lines_extracted (readlines text) 1)) as (H1 & H2 & H3).
  split; [exact H1|split; [|exact H3]].
  eapply Forall_impl; [|exact H2].
  intros it (Hle & line & Hl & Hshape).
  split; [|exists line; split; assumption].
  split; [exact Hle|].
  assert (Hlt : line_number it - 1 < List.length (readlines text)).
  { apply nth_error_Some. rewrite Hl. discriminate. }
  lia.
Qed.

(** ** The order of the keys *)

Lemma string_ltb_total (s t : string) :
  String.ltb s t = false -> String.ltb t s = false -> s = t.
Proof.
  unfold String.ltb. rewrite (String.compare_antisym t s).
  destruct (String.compare s t) eqn:E; simpl; try discriminate.
  intros _ _. apply String.compare_eq_iff. exact E.
Qed.

Lemma tuple_ltb_ints_total (a b : list Z) :
  tuple_ltb (map PInt a) (map PInt b) = false ->
  tuple_ltb (map PInt b) (map PInt a) = false -> a = b.
Proof.
  revert b. induction a as [|x a IH]; intros [|y b]; try reflexivity;
    try discriminate.
  rewrite !tuple_ltb_ints_cons.
  destruct (Z.eqb_spec x y) as [->|Hne].
  - rewrite Z.eqb_refl. intros H1 H2. f_equal. apply IH; assumption.
  - destruct (Z.eqb_spec y x); [congruence|].
    rewrite !Z.ltb_ge. lia.
Qed.

Lemma tuple_ltb_total (a b : list pyval) :
  is_key a -> is_key b ->
  tuple_ltb a b = false -> tuple_ltb b a = false -> a = b.
Proof.
  intros [[xs ->]|[s ->]] [[ys ->]|[t ->]];
    rewrite ?tuple_ltb_int_fallback, ?tuple_ltb_fallback_int,
            ?tuple_ltb_fallbacks;
    try congruence.
  - intros H1 H2. f_equal. apply tuple_ltb_ints_total; assumption.
  - intros H1 H2. f_equal. apply string_ltb_total; assumption.
Qed.

Lemma tuple_ltb_irrefl (a : list pyval) : is_key a -> tuple_ltb a a = false.
Proof.
  intros Ha. destruct (tuple_ltb a a) eqn:E; [|reflexivity].
  rewrite <- E. apply tuple_ltb_asym; assumption.
Qed.

Lemma tuple_ltb_trans (a b c : list pyval) :
  is_key a -> is_key b -> is_key c ->
  tuple_ltb a b = true -> tuple_ltb b c = true -> tuple_ltb a c = true.
Proof.
  intros Ha Hb Hc Hab Hbc.
  destruct (tuple_ltb a c) eqn:E; [reflexivity|].
  assert (Hba := tuple_ltb_asym a b Ha Hb Hab).
  assert (H := tuple_ltb_negtrans b a c Hb Ha Hc Hba E). congruence.
Qed.

(** X3. [parse_version] returns a key for every tag, the keys of any
    two tags compare without an error, and the comparison is a strict
    total order on the keys: no key is smaller than itself, the
    comparison is transitive, and two keys neither of which is smaller
    than the other are the same key. *)
Theorem version_key_total_order (a b c : string) :
  parse_version a = Ret (version_key a) /\
  tuple_lt (version_key a) (version_key b) =
    Ret (tuple_ltb (version_key a) (version_key b)) /\
  tuple_ltb (version_key a) (version_key a) = false /\
  (tuple_ltb (version_key a) (version_key b) = true ->
   tuple_ltb (version_key b) (version_key c) = true ->
   tuple_ltb (version_key a) (version_key c) = true) /\
  (tuple_ltb (version_key a) (version_key b) = false ->
   tuple_ltb (version_key b) (version_key a) = false ->
   version_key a = version_key b).
Proof.
  destruct (parse_version_key a) as [_ Ha].
  destruct (parse_version_key b) as [_ Hb].
  destruct (parse_version_key c) as [_ Hc].
  split; [apply parse_version_key|].
  split; [apply tuple_lt_keys; assumption|].
  split; [apply tuple_ltb_irrefl; assumption|].
  split; [apply tuple_ltb_trans; assumption|].
  apply tuple_ltb_total; assumption.
Qed.

(** ** The latest tag and the set of tags *)

Lemma first_greatest_In (tags : list string) (latest : string) :
  first_greatest tags latest -> In latest tags.
Proof.
  intros (before & after & -> & _). apply in_or_app. right. left. reflexivity.
Qed.

Lemma first_greatest_max (tags : list string) (latest t : string) :
  first_greatest tags latest -> In t tags ->
  tuple_ltb (version_key latest) (version_key t) = false.
Proof.
  intros (before & after & -> & Hb & Ha) Hin.
  destruct (parse_version_key latest) as [_ Hl].
  destruct (parse_version_key t) as [_ Ht].
  apply in_app_or in Hin. destruct Hin as [Hin|[<-|Hin]].
  - apply tuple_ltb_asym; [assumption..|].
    unfold tuple_ltb. rewrite (Hb t Hin). reflexivity.
  - apply tuple_ltb_irrefl. assumption.
  - unfold tuple_ltb. rewrite (Ha t Hin). reflexivity.
Qed.

Lemma get_latest_tag_some (tags : list string) (c latest : string) :
  get_latest_tag tags c = Ret (Some latest) -> first_greatest tags latest.
Proof.
  intros H.
  destruct (get_latest_tag_first_greatest tags c) as (l & El & Hl).
  - intros ->. discriminate.
  - congruence.
Qed.

(** X4. When the tags of one list all occur in a second list, the
    latest tag of the second list has a key that is not smaller than
    the key of the latest tag of the first; when the two lists hold the
    same tags, in whatever order and number, their latest tags have the
    same key. *)
Theorem get_latest_tag_more_tags
  (tags tags' : list string) (c c' latest latest' : string) :
  incl tags tags' ->
  get_latest_tag tags c = Ret (Some latest) ->
  get_latest_tag tags' c' = Ret (Some latest') ->
  tuple_lt (version_key latest') (version_key latest) = Ret false /\
  (incl tags' tags -> version_key latest' = version_key latest).
Proof.
  intros Hincl H H'.
  apply get_latest_tag_some in H. apply get_latest_tag_some in H'.
  destruct (parse_version_key latest) as [_ Hl].
  destruct (parse_version_key latest') as [_ Hl'].
  assert (Hmax : tuple_ltb (version_key latest') (version_key latest) = false).
  { apply (first_greatest_max tags'); [exact H'|].
    apply Hincl, (first_greatest_In _ _ H). }
  split.
  - rewrite tuple_lt_keys by assumption. rewrite Hmax. reflexivity.
  - intros Hincl'. apply tuple_ltb_total; [assumption..|].
    apply (first_greatest_max tags); [exact H|].
    apply Hincl', (first_greatest_In _ _ H').
Qed.

Lemma get_latest_tag_more_tags_witness :
  tuple_lt (version_key "2.0") (version_key "1.10") = Ret false /\
  (incl ["1.10"; "2.0"; "1.9"] ["1.9"; "1.10"] ->
   version_key "2.0" = version_key "1.10").
Proof.
  apply (get_latest_tag_more_tags
           ["1.9"; "1.10"] ["1.10"; "2.0"; "1.9"] "1.9" "1.9").
  - unfold incl. simpl. tauto.
  - vm_compute. reflexivity.
  - vm_compute. reflexivity.
Defined.

(** ** What stands before and after a numeric version *)

Lemma numeric_tail_ends_run (suffix : string) :
  ends_run suffix = true -> numeric_tail suffix = "".
Proof.
  destruct suffix as [|c s]; [reflexivity|]. cbn [ends_run numeric_tail].
  intros H. apply andb_true_iff in H. destruct H as [Hd Hs].
  apply negb_true_iff in Hd. apply negb_true_iff in Hs. rewrite Hd.
  destruct (is_sep c); [|reflexivity].
  destruct s as [|d s]; [reflexivity|]. cbn [andb] in Hs. rewrite Hs.
  reflexivity.
Qed.

Lemma numeric_tail_dotted_app (x : string) (more : list (ascii * string)) :
  forall seg,
    all_chars isdecimal seg = true ->
    Forall (fun p => is_sep (fst p) = true /\ segment (snd p)) more ->
    numeric_tail (dotted seg more ++ x) = (dotted seg more ++ numeric_tail x)%string.
Proof.
  induction more as [|[sep seg'] more IH]; intros seg Hseg Hmore.
  - cbn [dotted]. apply numeric_tail_digits, Hseg.
  - inversion Hmore as [|? ? [Hsep (Hne & Hd & _)] Hmore']; subst.
    cbn [fst snd] in *. cbn [dotted]. rewrite !sapp_assoc.
    rewrite numeric_tail_digits by exact Hseg. f_equal.
    destruct seg' as [|d seg']; [congruence|].
    cbn [all_chars] in Hd. apply andb_true_iff in Hd. destruct Hd as [Hd Hd'].
    rewrite dotted_cons.
    change (String sep (String d (dotted seg' more)) ++ x)%string
      with (String sep (String d (dotted seg' more ++ x))).
    change (String sep (String d (dotted seg' more)) ++ numeric_tail x)%string
      with (String sep (String d (dotted seg' more ++ numeric_tail x))).
    cbn [numeric_tail].
    rewrite (sep_not_digit sep Hsep), Hsep, Hd.
    rewrite IH by assumption. reflexivity.
Qed.

Lemma numeric_run_dotted_app
  (seg : string) (more : list (ascii * string)) (suffix : string) :
  numeric_tag seg more -> ends_run suffix = true ->
  numeric_run (dotted seg more ++ suffix) = dotted seg more.
Proof.
  intros [(Hne & Hd & _) Hmore] Hs.
  destruct seg as [|d seg]; [congruence|].
  cbn [all_chars] in Hd. apply andb_true_iff in Hd. destruct Hd as [Hd Hd'].
  rewrite dotted_cons.
  change (String d (dotted seg more) ++ suffix)%string
    with (String d (dotted seg more ++ suffix)).
  cbn [numeric_run]. rewrite Hd.
  rewrite numeric_tail_dotted_app by assumption.
  rewrite (numeric_tail_ends_run suffix Hs), sapp_nil_r. reflexivity.
Qed.

Lemma parse_version_run
  (tag seg : string) (more : list (ascii * string)) :
  numeric_tag seg more ->
  numeric_run (remove_prefix prefixes tag) = dotted seg more ->
  parse_version tag = Ret (map PInt (segment_values seg more)).
Proof.
  intros H E. pose proof H as [Hseg Hmore].
  rewrite parse_version_eq, E.
  assert (Hd : exists d r, dotted seg more = String d r).
  { destruct Hseg as (Hne & _). destruct seg as [|d seg]; [congruence|].
    rewrite dotted_cons. eauto. }
  destruct Hd as (d & r & Ed). rewrite Ed. cbv iota. rewrite <- Ed.
  rewrite (re_split_dotted more seg H).
  rewrite mapM_int_segments; [reflexivity|].
  constructor; [exact Hseg|].
  apply Forall_forall. intros x Hx. apply in_map_iff in Hx.
  destruct Hx as (p & <- & Hp).
  rewrite Forall_forall in Hmore. apply (Hmore p Hp).
Qed.

(** X5. A tag made of a numeric version, with or without a leading [v]
    or [V], and of any text that does not carry on the run of numbers,
    has the integers of the segments of the version as its key: a tag
    such as [v1.2.3-alpine] has the key of [1.2.3]. *)
Theorem parse_version_affixes
  (pre seg : string) (more : list (ascii * string)) (suffix : string) :
  v_prefix pre -> numeric_tag seg more -> ends_run suffix = true ->
  parse_version (pre ++ dotted seg more ++ suffix) =
    Ret (map PInt (segment_values seg more)) /\
  parse_version (pre ++ dotted seg more ++ suffix) =
    parse_version (dotted seg more).
Proof.
  intros Hpre H Hs.
  assert (E : parse_version (pre ++ dotted seg more ++ suffix) =
              Ret (map PInt (segment_values seg more))).
  { apply parse_version_run; [exact H|].
    assert (Hrm : remove_prefix prefixes (pre ++ dotted seg more ++ suffix) =
                  (dotted seg more ++ suffix)%string).
    { destruct Hpre as [->|[->| ->]].
      - destruct H as [(Hne & Hd & _) _].
        destruct seg as [|d seg]; [congruence|].
        cbn [all_chars] in Hd. apply andb_true_iff in Hd.
        rewrite dotted_cons. apply remove_prefix_digit. apply Hd.
      - rewrite remove_prefix_eq. reflexivity.
      - rewrite remove_prefix_eq. reflexivity. }
    rewrite Hrm. apply numeric_run_dotted_app; assumption. }
  split; [exact E|].
  rewrite E. symmetry. apply parse_version_dotted, H.
Qed.

Lemma parse_version_affixes_witness :
  parse_version "v1.2.3-alpine" = Ret [PInt 1; PInt 2; PInt 3] /\
  parse_version "v1.2.3-alpine" = parse_version "1.2.3".
Proof.
  apply (parse_version_affixes "v" "1" [("."%char, "2"); ("."%char, "3")]
                               "-alpine").
  - right. left. reflexivity.
  - split; [|repeat constructor]; repeat split; try discriminate;
      vm_compute; congruence.
  - reflexivity.
Defined.

(** ** What a status tells *)

Lemma main_item_cases
  (subprocess_run : string -> nat -> result CompletedProcess)
  (timeout : nat) (it : item) :
  exists r,
    main_item subprocess_run timeout it = Ret r /\
    ((run_skopeo_command subprocess_run (skopeo_command it) timeout
        = Ret None /\
      r = Check it None "error" []) \/
     (run_skopeo_command subprocess_run (skopeo_command it) timeout
        = Ret (Some []) /\
      r = Check it None "unknown" []) \/
     (exists tags latest,
         run_skopeo_command subprocess_run (skopeo_command it) timeout
           = Ret (Some tags) /\
         get_latest_tag tags (current_value it) = Ret (Some latest) /\
         r = Check it (Some latest)
                   (compare_versions (current_value it) latest)
                   (last_n 10 tags))).
Proof.
  destruct (run_skopeo_command_returns subprocess_run (skopeo_command it)
                                       timeout) as [[[|t tags]|] E].
  - eexists. split; [apply main_item_empty, E|]. right. left. auto.
  - destruct (main_item_tags subprocess_run timeout it t tags E)
      as (latest & El & _ & Er).
    eexists. split; [exact Er|]. right. right.
    exists (t :: tags), latest. auto.
  - eexists. split; [apply main_item_failed, E|]. left. auto.
Qed.

Lemma compare_versions_cases (current latest : string) :
  (current = latest /\ compare_versions current latest = "up-to-date") \/
  (current <> latest /\
   compare_versions current latest = "update-available").
Proof.
  unfold compare_versions. destruct (String.eqb_spec current latest); auto.
Qed.

(** X6. A record has the status [up-to-date] only if the enumeration
    succeeded, the current value is one of the enumerated tags, it is
    the latest value of the record, and no enumerated tag has a key
    greater than the key of the current value. *)
Theorem main_item_up_to_date
  (subprocess_run : string -> nat -> result CompletedProcess)
  (timeout : nat) (it : item) (r : check) :
  main_item subprocess_run timeout it = Ret r ->
  status r = "up-to-date" ->
  exists tags,
    run_skopeo_command subprocess_run (skopeo_command it) timeout
      = Ret (Some tags) /\
    In (current_value it) tags /\
    latest_value r = Some (current_value it) /\
    forall tag,
      In tag tags ->
      tuple_lt (version_key (current_value it)) (version_key tag) = Ret false.
Proof.
  intros Hr Hs.
  destruct (main_item_cases subprocess_run timeout it)
    as (r' & Hr' & [[_ ->]|[[_ ->]|(tags & latest & E & El & ->)]]);
    rewrite Hr' in Hr; injection Hr as <-; try discriminate.
  cbn [status] in Hs.
  destruct (compare_versions_cases (current_value it) latest)
    as [[Heq _]|[_ Hc]]; [|rewrite Hc in Hs; discriminate].
  subst latest. apply get_latest_tag_some in El.
  exists tags. split; [exact E|].
  split; [apply (first_greatest_In _ _ El)|].
  split; [reflexivity|].
  intros tag Hin.
  destruct (parse_version_key (current_value it)) as [_ Hk].
  destruct (parse_version_key tag) as [_ Hk'].
  rewrite tuple_lt_keys by assumption.
  rewrite (first_greatest_max tags _ tag El Hin). reflexivity.
Qed.

Lemma main_item_up_to_date_witness :
  exists tags,
    run_skopeo_command example_shell "skopeo list-tags docker://x" 30
      = Ret (Some tags) /\
    In "v1.11" tags /\
    Some "v1.11" = Some "v1.11" /\
    forall tag,
      In tag tags ->
      tuple_lt (version_key "v1.11") (version_key tag) = Ret false.
Proof.
  apply (main_item_up_to_date
           example_shell 30
           (Item "foo_image_tag" "v1.11" "skopeo list-tags docker://x" 1)
           (Check (Item "foo_image_tag" "v1.11"
                        "skopeo list-tags docker://x" 1)
                  (Some "v1.11") "up-to-date"
                  ["1.2"; "1.3"; "1.4"; "1.5"; "1.6"; "1.7"; "1.8"; "1.9";
                   "1.10"; "v1.11"])).
  - vm_compute. reflexivity.
  - reflexivity.
Defined.

(** ** The loop of [main] over the items *)

Lemma count_status_app (s : string) (a b : list check) :
  count_status s (a ++ b) = count_status s a + count_status s b.
Proof. unfold count_status. rewrite filter_app, length_app. reflexivity. Qed.

Lemma last_status_app (bound : option string) (a b : list check) :
  last_status bound (a ++ b) = last_status (last_status bound a) b.
Proof.
  revert bound. induction a as [|r a IH]; intros bound; [reflexivity|].
  cbn [app last_status]. apply IH.
Qed.

(** What the loop prints: the variable and the outcome of each check. *)
Abbreviation progress_lines :=
  (Forall (fun p : printed =>
             (exists v, p = SayItem v) \/ (exists w, p = SayProgress w))).

Section Loop.

Variable subprocess_run : string -> nat -> result CompletedProcess.
Variable args : arguments.

Lemma check_one_eq (st : locals) (it : item) :
  exists r w,
    main_item subprocess_run (timeout args) it = Ret r /\
    check_one subprocess_run args st it =
    Ret (Locals (results st ++ [r])
                (updates_available st + count_status "update-available" [r])
                (last_status (status_var st) [r])
                (out st ++ [SayItem (variable it); SayProgress w])).
Proof.
  destruct (main_item_cases subprocess_run (timeout args) it)
    as (r & Hr & [[E ->]|[[E ->]|(tags & latest & E & El & ->)]]).
  - eexists. exists "failed". split; [exact Hr|].
    unfold check_one. rewrite E. cbn.
    rewrite Nat.add_0_r, <- app_assoc. reflexivity.
  - eexists. exists "unknown". split; [exact Hr|].
    unfold check_one. rewrite E. cbn.
    rewrite Nat.add_0_r, <- app_assoc. reflexivity.
  - assert (Ht : truthy latest = true).
    { pose proof (run_skopeo_command_truthy _ _ _ _ E) as Hall.
      rewrite Forall_forall in Hall. apply Hall.
      apply (first_greatest_In tags), (get_latest_tag_some tags _ _ El). }
    assert (Hne : tags <> []) by (intros ->; discriminate).
    eexists.
    exists (if String.eqb (current_value it) latest
            then "up-to-date" else "update available").
    split; [exact Hr|].
    unfold check_one. rewrite E. unfold bind at 1. cbv beta iota.
    rewrite El. unfold bind at 1. cbv beta iota. rewrite Ht.
    destruct tags as [|t tags]; [congruence|].
    unfold compare_versions, count_status, has_status.
    destruct (String.eqb (current_value it) latest); cbn;
      rewrite <- app_assoc; [rewrite Nat.add_0_r|rewrite Nat.add_1_r];
      reflexivity.
Qed.

Lemma check_loop_eq (image_tags : list item) :
  forall st,
  exists rs lines,
    main_loop subprocess_run (timeout args) image_tags = Ret rs /\
    Forall2 (fun it r => main_item subprocess_run (timeout args) it = Ret r)
            image_tags rs /\
    progress_lines lines /\
    check_loop subprocess_run args image_tags st =
    Ret (Locals (results st ++ rs)
                (updates_available st + count_status "update-available" rs)
                (last_status (status_var st) rs)
                (out st ++ lines)).
Proof.
  induction image_tags as [|it image_tags IH]; intros st.
  - exists [], []. repeat split; try constructor.
    cbn. rewrite !app_nil_r, Nat.add_0_r. destruct st; reflexivity.
  - destruct (check_one_eq st it) as (r & w & Hr & Hone).
    destruct (IH (Locals (results st ++ [r])
                         (updates_available st
                          + count_status "update-available" [r])
                         (last_status (status_var st) [r])
                         (out st ++ [SayItem (variable it); SayProgress w])))
      as (rs & lines & Hrs & Hall & Hlines & Hloop).
    exists (r :: rs), (SayItem (variable it) :: SayProgress w :: lines).
    split; [|split; [|split]].
    + unfold main_loop in *. cbn [mapM]. rewrite Hr. cbn [bind].
      rewrite Hrs. reflexivity.
    + constructor; assumption.
    + constructor; [left; eauto|]. constructor; [right; eauto|]. exact Hlines.
    + cbn [check_loop]. rewrite Hone. cbn [bind]. rewrite Hloop.
      cbn [results updates_available status_var out].
      change (r :: rs) with ([r] ++ rs).
      rewrite count_status_app, last_status_app, Nat.add_assoc,
              <- !app_assoc.
      reflexivity.
Qed.

Lemma checks_eq (image_tags : list item) :
  main_loop subprocess_run (timeout args) image_tags =
    Ret (checks subprocess_run args image_tags) /\
  Forall2 (fun it r => main_item subprocess_run (timeout args) it = Ret r)
          image_tags (checks subprocess_run args image_tags).
Proof.
  destruct (check_loop_eq image_tags (Locals [] 0 None []))
    as (rs & _ & Hrs & Hall & _).
  unfold checks. rewrite Hrs. split; [reflexivity | exact Hall].
Qed.

Lemma checks_source (image_tags : list item) :
  map source (checks subprocess_run args image_tags) = image_tags.
Proof.
  destruct (checks_eq image_tags) as [_ H].
  induction H as [|it r its rs Hr _ IH]; [reflexivity|].
  cbn [map]. rewrite IH. f_equal.
  destruct (main_item_cases subprocess_run (timeout args) it)
    as (r' & Hr' & [[_ ->]|[[_ ->]|(tags & latest & _ & _ & ->)]]);
    rewrite Hr' in Hr; injection Hr as <-; reflexivity.
Qed.

End Loop.

(** X7. The loop of [main] over the items never stops early: it ends
    with one record for each item, in the order of the items, whether
    the checks succeed or fail, and its counter of updates has grown by
    the number of records whose status is [update-available]. *)
Theorem check_loop_records
  (subprocess_run : string -> nat -> result CompletedProcess)
  (args : arguments) (image_tags : list item) (st : locals) :
  exists st',
    check_loop subprocess_run args image_tags st = Ret st' /\
    results st' = results st ++ checks subprocess_run args image_tags /\
    map source (checks subprocess_run args image_tags) = image_tags /\
    updates_available st' =
      updates_available st +
      count_status "update-available" (checks subprocess_run args image_tags).
Proof.
  destruct (check_loop_eq subprocess_run args image_tags st)
    as (rs & lines & Hrs & _ & _ & Hloop).
  destruct (checks_eq subprocess_run args image_tags) as [Hc _].
  rewrite Hrs in Hc. injection Hc as Hc. subst rs.
  eexists. split; [exact Hloop|].
  cbn [results updates_available].
  split; [reflexivity|]. split; [apply checks_source | reflexivity].
Qed.

(** ** The report of [main] *)

Lemma last_status_not_error (rs : list check) :
  forall bound,
    bound <> Some "error" -> last_status bound rs <> Some "error".
Proof.
  induction rs as [|r rs IH]; intros bound Hb; [exact Hb|].
  cbn [last_status]. apply IH. unfold has_status.
  destruct (String.eqb_spec (status r) "error") as [E|E]; [exact Hb|].
  congruence.
Qed.

Lemma last_status_none (rs : list check) :
  forall bound,
    last_status bound rs = None <->
    bound = None /\ forallb (has_status "error") rs = true.
Proof.
  induction rs as [|r rs IH]; intros bound; cbn [last_status forallb].
  - tauto.
  - rewrite IH. destruct (has_status "error" r); cbn [andb].
    + tauto.
    + split; [intros [H _]; discriminate | intros [_ H]; discriminate].
Qed.

Lemma error_not_update (r : check) :
  has_status "error" r = true -> has_status "update-available" r = false.
Proof.
  unfold has_status. intros H. apply String.eqb_eq in H. rewrite H.
  reflexivity.
Qed.

Section Report.

Variable args : arguments.

Lemma report_checked_unbound (rs : list check) :
  forallb (has_status "error") rs = true ->
  report_checked args None rs =
  ([], if negb (updates_only args) &&
          match rs with [] => false | _ => true end
       then Some (UnboundLocalError "status") else None).
Proof.
  induction rs as [|r rs IH]; cbn [forallb report_checked].
  - rewrite andb_false_r. reflexivity.
  - intros H. apply andb_true_iff in H. destruct H as [Hr Hrs].
    unfold skipped at 1. rewrite (error_not_update r Hr). cbn [negb].
    destruct (updates_only args) eqn:Eu; cbn [andb negb]; [|reflexivity].
    rewrite (IH Hrs). cbn [negb andb]. reflexivity.
Qed.

Lemma report_checked_bound (s : string) (rs : list check) :
  s <> "error" ->
  report_checked args (Some s) rs =
  (if String.eqb s "up-to-date" && negb (updates_only args)
   then map up_to_date_line rs else [], None).
Proof.
  intros Hs. apply String.eqb_neq in Hs.
  induction rs as [|r rs IH]; cbn [report_checked map].
  - destruct (_ && _); reflexivity.
  - rewrite IH, Hs. unfold skipped.
    destruct (updates_only args); cbn [negb andb].
    + rewrite !andb_false_r.
      destruct (has_status "update-available" r); reflexivity.
    + rewrite !andb_true_r. destruct (String.eqb s "up-to-date"); reflexivity.
Qed.

Lemma report_checked_last (rs : list check) :
  report_checked args (last_status None rs) rs =
  match last_status None rs with
  | None =>
      ([], if negb (updates_only args) &&
              match rs with [] => false | _ => true end
           then Some (UnboundLocalError "status") else None)
  | Some s =>
      (if String.eqb s "up-to-date" && negb (updates_only args)
       then map up_to_date_line rs else [], None)
  end.
Proof.
  destruct (last_status None rs) as [s|] eqn:E.
  - apply report_checked_bound. intros ->.
    apply (last_status_not_error rs None); [discriminate | exact E].
  - apply report_checked_unbound. apply last_status_none in E. apply E.
Qed.

Lemma report_updates_eq (rs : list check) :
  report_updates args rs =
  map update_line (filter (has_status "update-available") rs).
Proof.
  induction rs as [|r rs IH]; [reflexivity|].
  cbn [report_updates filter]. unfold skipped. rewrite IH.
  change (String.eqb (status r) "update-available")
    with (has_status "update-available" r).
  destruct (has_status "update-available" r); cbn [negb andb map].
  - rewrite andb_false_r. reflexivity.
  - destruct (updates_only args); reflexivity.
Qed.

End Report.

Lemma filter_none {A} (f : A -> bool) (l : list A) :
  Forall (fun x => f x = false) l -> filter f l = [].
Proof.
  induction 1 as [|x l Hx _ IH]; [reflexivity|].
  cbn [filter]. rewrite Hx. exact IH.
Qed.

Lemma filter_progress_lines (f : printed -> bool) (lines : list printed) :
  (forall v, f (SayItem v) = false) ->
  (forall w, f (SayProgress w) = false) ->
  progress_lines lines -> filter f lines = [].
Proof.
  intros Hi Hp H. apply filter_none. eapply Forall_impl; [|exact H].
  intros p [[v ->]|[w ->]]; auto.
Qed.

Lemma filter_map_none {A B} (f : B -> bool) (g : A -> B) (l : list A) :
  (forall x, f (g x) = false) -> filter f (map g l) = [].
Proof.
  intros H. apply filter_none, Forall_forall. intros y Hy.
  apply in_map_iff in Hy. destruct Hy as (x & <- & _). apply H.
Qed.

Lemma filter_map_all {A B} (f : B -> bool) (g : A -> B) (l : list A) :
  (forall x, f (g x) = true) -> filter f (map g l) = map g l.
Proof.
  intros H. induction l as [|x l IH]; [reflexivity|].
  cbn [map filter]. rewrite H, IH. reflexivity.
Qed.

Section Checks.

Variable subprocess_run : string -> nat -> result CompletedProcess.
Variable args : arguments.
Variable image_tags : list item.

Abbreviation records := (checks subprocess_run args image_tags).

(** What [main_checks] gives when there are items: the progress of the
    checks, then the report of the records. *)
Lemma main_checks_eq :
  image_tags <> [] ->
  exists lines,
    progress_lines lines /\
    main_checks subprocess_run args image_tags =
    report args
           (Locals records (count_status "update-available" records)
                   (last_status None records)
                   (SayChecking (List.length image_tags) :: lines)).
Proof.
  intros Hne.
  destruct (check_loop_eq subprocess_run args image_tags
              (Locals [] 0 None [SayChecking (List.length image_tags)]))
    as (rs & lines & Hrs & _ & Hlines & Hloop).
  destruct (checks_eq subprocess_run args image_tags) as [Hc _].
  rewrite Hrs in Hc. injection Hc as Hc. subst rs.
  exists lines. split; [exact Hlines|].
  unfold main_checks. destruct image_tags as [|it its]; [congruence|].
  rewrite Hloop. reflexivity.
Qed.

Lemma checks_nil : image_tags = [] -> records = [].
Proof. intros ->. reflexivity. Qed.

Lemma checks_nonempty : image_tags <> [] -> records <> [].
Proof.
  intros Hne E. apply Hne.
  rewrite <- (checks_source subprocess_run args image_tags), E. reflexivity.
Qed.

(** The checks all failed. *)
Lemma checks_all_failed :
  forallb (has_status "error") records = true <->
  Forall (fun it =>
            run_skopeo_command subprocess_run (skopeo_command it)
                               (timeout args) = Ret None) image_tags.
Proof.
  destruct (checks_eq subprocess_run args image_tags) as [_ H].
  induction H as [|it r its rs Hr _ IH]; cbn [forallb].
  - split; [constructor | reflexivity].
  - rewrite andb_true_iff, IH.
    assert (Hit : has_status "error" r = true <->
                  run_skopeo_command subprocess_run (skopeo_command it)
                                     (timeout args) = Ret None).
    { destruct (main_item_cases subprocess_run (timeout args) it)
        as (r' & Hr' & [[E ->]|[[E ->]|(tags & latest & E & _ & ->)]]);
        rewrite Hr' in Hr; injection Hr as <-; rewrite E.
      - split; reflexivity.
      - split; discriminate.
      - unfold has_status, compare_versions. cbn [status].
        destruct (String.eqb (current_value it) latest); split; discriminate. }
    rewrite Hit. split.
    + intros [H1 H2]. constructor; assumption.
    + intros H'. inversion H'; subst. split; assumption.
Qed.

(** How [main_checks] ends. *)
Lemma main_checks_ending :
  snd (main_checks subprocess_run args image_tags) =
  if negb (json args) && negb (updates_only args) &&
     forallb (has_status "error") records &&
     match image_tags with [] => false | _ => true end
  then Traceback (UnboundLocalError "status")
  else exit_status (count_status "update-available" records).
Proof.
  destruct image_tags as [|it its] eqn:Eits.
  - rewrite andb_false_r. reflexivity.
  - rewrite andb_true_r. rewrite <- Eits.
    assert (Hne : image_tags <> []) by (rewrite Eits; discriminate).
    destruct (main_checks_eq Hne) as (lines & _ & ->).
    unfold report. cbn [json results status_var updates_available out].
    destruct (json args); [reflexivity|]. cbn [negb andb].
    rewrite report_checked_last.
    destruct (last_status None records) as [s|] eqn:El.
    + assert (Hf : forallb (has_status "error") records = false).
      { destruct (forallb (has_status "error") records) eqn:Ef;
          [|reflexivity].
        assert (H : last_status None records = None)
          by (apply last_status_none; auto).
        congruence. }
      rewrite Hf, andb_false_r. reflexivity.
    + apply last_status_none in El. destruct El as [_ Ef]. rewrite Ef.
      rewrite andb_true_r.
      pose proof (checks_nonempty Hne) as Hr.
      destruct records; [congruence|]. rewrite andb_true_r.
      destruct (negb (updates_only args)); reflexivity.
Qed.

End Checks.

Section Printed.

Variable subprocess_run : string -> nat -> result CompletedProcess.
Variable args : arguments.
Variable image_tags : list item.

Abbreviation recs := (checks subprocess_run args image_tags).

(** The last line of the report. *)
Abbreviation summary :=
  (SaySummary (List.length recs) (count_status "up-to-date" recs)
              (count_status "update-available" recs)
              (count_status "error" recs)).

(** What [main_checks] prints when there are items. *)
Lemma main_checks_printed :
  image_tags <> [] ->
  exists lines,
    progress_lines lines /\
    fst (main_checks subprocess_run args image_tags) =
    SayChecking (List.length image_tags) :: lines ++
    if json args then
      [SayJson (if updates_only args
                then filter (has_status "update-available") recs
                else recs)]
    else
      SayResults ::
      match last_status None recs with
      | Some s =>
          (if String.eqb s "up-to-date" && negb (updates_only args)
           then map up_to_date_line recs else []) ++
          map update_line (filter (has_status "update-available") recs) ++
          [summary]
      | None =>
          if negb (updates_only args) then []
          else map update_line (filter (has_status "update-available") recs)
               ++ [summary]
      end.
Proof.
  intros Hne.
  destruct (main_checks_eq subprocess_run args image_tags Hne)
    as (lines & Hlines & ->).
  exists lines. split; [exact Hlines|].
  unfold report. cbn [json results status_var updates_available out].
  destruct (json args); [reflexivity|].
  rewrite report_checked_last, report_updates_eq.
  pose proof (checks_nonempty subprocess_run args image_tags Hne) as Hr.
  destruct (last_status None recs) as [s|].
  - cbn [fst app]. rewrite <- app_assoc. reflexivity.
  - destruct recs as [|r rs] eqn:E; [congruence|]. rewrite andb_true_r.
    destruct (negb (updates_only args)); cbn [fst app].
    + rewrite app_nil_r. reflexivity.
    + rewrite <- app_assoc. reflexivity.
Qed.

End Printed.

Ltac filter_lines :=
  cbn [filter is_SayUpToDate is_SayUpdate is_SayJson is_SaySummary
       is_SayFailed app];
  rewrite ?filter_app;
  rewrite ?(filter_map_all is_SayUpToDate up_to_date_line),
          ?(filter_map_all is_SayUpdate update_line),
          ?(filter_map_none is_SayUpToDate update_line),
          ?(filter_map_none is_SayUpdate up_to_date_line),
          ?(filter_map_none is_SayJson up_to_date_line),
          ?(filter_map_none is_SayJson update_line),
          ?(filter_map_none is_SaySummary up_to_date_line),
          ?(filter_map_none is_SaySummary update_line),
          ?(filter_map_none is_SayFailed up_to_date_line),
          ?(filter_map_none is_SayFailed update_line)
    by (intros; reflexivity);
  cbn [filter is_SayUpToDate is_SayUpdate is_SayJson is_SaySummary
       is_SayFailed app];
  rewrite ?app_nil_r.

(** X8. [main] ends with an [UnboundLocalError] for its local [status]
    exactly when the report is printed as text without [--updates-only]
    and the enumeration failed for every item, there being at least
    one: the report reads a variable only a successful check binds. *)
Theorem main_checks_unbound_status
  (subprocess_run : string -> nat -> result CompletedProcess)
  (args : arguments) (image_tags : list item) :
  snd (main_checks subprocess_run args image_tags)
    = Traceback (UnboundLocalError "status") <->
  json args = false /\ updates_only args = false /\ image_tags <> [] /\
  Forall (fun it =>
            run_skopeo_command subprocess_run (skopeo_command it)
                               (timeout args) = Ret None) image_tags.
Proof.
  rewrite main_checks_ending, <- checks_all_failed.
  destruct (json args), (updates_only args),
    (forallb (has_status "error") (checks subprocess_run args image_tags)),
    image_tags; cbn [negb andb]; unfold exit_status;
    split; try discriminate; try (intros (? & ? & ? & ?); congruence).
  intros _. repeat split; discriminate.
Qed.

(** X9. Unless it ends with the [UnboundLocalError] for [status],
    [main] exits with status 1 when a record has the status
    [update-available] and with status 0 when none has, which includes
    the document that declares no tag source. *)
Theorem main_exit_status
  (subprocess_run : string -> nat -> result CompletedProcess)
  (args : arguments) (text : string) :
  snd (main subprocess_run args text)
    = Traceback (UnboundLocalError "status") \/
  snd (main subprocess_run args text)
    = SysExit (if Nat.eqb (count_status "update-available"
                             (checks subprocess_run args
                                     (parse_image_tag_lines text))) 0
               then 0 else 1).
Proof.
  unfold main. rewrite main_checks_ending.
  destruct (_ && _); [left|right]; reflexivity.
Qed.

Lemma all_failed_no_update (rs : list check) :
  forallb (has_status "error") rs = true ->
  filter (has_status "update-available") rs = [].
Proof.
  intros H. apply filter_none, Forall_forall. intros r Hr.
  rewrite forallb_forall in H. apply error_not_update, H, Hr.
Qed.

(** X10. Without [--json] and [--updates-only], the lines with a check
    mark do not follow the status of each record: either every record
    has one, whatever its status, or none has. Every record has one
    when the last record that is not an error has the status
    [up-to-date]; with [--json] or [--updates-only] there is none. *)
Theorem main_checks_up_to_date_lines
  (subprocess_run : string -> nat -> result CompletedProcess)
  (args : arguments) (image_tags : list item) :
  filter is_SayUpToDate (fst (main_checks subprocess_run args image_tags)) =
  if json args || updates_only args then []
  else
    match last_status None (checks subprocess_run args image_tags) with
    | Some s =>
        if String.eqb s "up-to-date"
        then map up_to_date_line (checks subprocess_run args image_tags)
        else []
    | None => []
    end.
Proof.
  destruct image_tags as [|it its] eqn:E.
  { destruct (json args || updates_only args); reflexivity. }
  rewrite <- E.
  destruct (main_checks_printed subprocess_run args image_tags)
    as (lines & Hlines & ->); [rewrite E; discriminate|].
  cbn [filter is_SayUpToDate]. rewrite filter_app.
  rewrite (filter_progress_lines is_SayUpToDate lines) by auto.
  destruct (json args); [reflexivity|].
  destruct (last_status None (checks subprocess_run args image_tags))
    as [s|];
    destruct (updates_only args); cbn [orb negb];
      rewrite ?andb_false_r, ?andb_true_r;
      try destruct (String.eqb s "up-to-date");
      filter_lines; reflexivity.
Qed.

(** X11. The line with a cross, which says that a check failed, is
    never printed, whatever the options and the outcomes of the
    checks. *)
Theorem main_checks_never_says_failed
  (subprocess_run : string -> nat -> result CompletedProcess)
  (args : arguments) (image_tags : list item) :
  filter is_SayFailed (fst (main_checks subprocess_run args image_tags)) = [].
Proof.
  destruct image_tags as [|it its] eqn:E; [reflexivity|].
  rewrite <- E.
  destruct (main_checks_printed subprocess_run args image_tags)
    as (lines & Hlines & ->); [rewrite E; discriminate|].
  cbn [filter is_SayFailed]. rewrite filter_app.
  rewrite (filter_progress_lines is_SayFailed lines) by auto.
  destruct (json args); [reflexivity|].
  destruct (last_status None (checks subprocess_run args image_tags))
    as [s|];
    destruct (updates_only args); cbn [negb];
      rewrite ?andb_false_r, ?andb_true_r;
      try destruct (String.eqb s "up-to-date");
      filter_lines; reflexivity.
Qed.

Lemma checks_update_available
  (subprocess_run : string -> nat -> result CompletedProcess)
  (args : arguments) (image_tags : list item) :
  Forall (fun r =>
            exists latest,
              latest_value r = Some latest /\
              latest <> current_value (source r))
         (filter (has_status "update-available")
                 (checks subprocess_run args image_tags)).
Proof.
  destruct (checks_eq subprocess_run args image_tags) as [_ H].
  induction H as [|it r its rs Hr _ IH]; [constructor|].
  cbn [filter]. destruct (has_status "update-available" r) eqn:Es;
    [|exact IH].
  constructor; [|exact IH].
  destruct (main_item_cases subprocess_run (timeout args) it)
    as (r' & Hr' & [[_ ->]|[[_ ->]|(tags & latest & _ & _ & ->)]]);
    rewrite Hr' in Hr; injection Hr as <-; try discriminate.
  exists latest. split; [reflexivity|]. cbn [source].
  unfold has_status in Es. cbn [status] in Es.
  destruct (compare_versions_cases (current_value it) latest)
    as [[_ Hc]|[Hne _]]; [rewrite Hc in Es; discriminate|].
  congruence.
Qed.

(** X12. The text report announces an update for the records whose
    status is [update-available], once each and in the order of the
    items, and for no other record; each of them carries a latest value
    that differs from the current value. With [--json] no such line is
    printed. *)
Theorem main_checks_update_lines
  (subprocess_run : string -> nat -> result CompletedProcess)
  (args : arguments) (image_tags : list item) :
  filter is_SayUpdate (fst (main_checks subprocess_run args image_tags)) =
    (if json args then []
     else map update_line
              (filter (has_status "update-available")
                      (checks subprocess_run args image_tags))) /\
  Forall (fun r =>
            exists latest,
              latest_value r = Some latest /\
              latest <> current_value (source r))
         (filter (has_status "update-available")
                 (checks subprocess_run args image_tags)).
Proof.
  split; [|apply checks_update_available].
  destruct image_tags as [|it its] eqn:E.
  { destruct (json args); reflexivity. }
  rewrite <- E.
  destruct (main_checks_printed subprocess_run args image_tags)
    as (lines & Hlines & ->); [rewrite E; discriminate|].
  cbn [filter is_SayUpdate]. rewrite filter_app.
  rewrite (filter_progress_lines is_SayUpdate lines) by auto.
  destruct (json args); [reflexivity|].
  destruct (last_status None (checks subprocess_run args image_tags))
    as [s|] eqn:El.
  - destruct (String.eqb s "up-to-date" && negb (updates_only args));
      filter_lines; reflexivity.
  - apply last_status_none in El. destruct El as [_ Hf].
    rewrite (all_failed_no_update _ Hf).
    destruct (updates_only args); reflexivity.
Qed.

(** X13. With [--json] the records are printed once, after the checks:
    all of them, or with [--updates-only] those whose status is
    [update-available], in the order of the items; the program then
    exits with status 0 exactly when no record has that status. Without
    [--json], and when there is no item, no such list is printed. *)
Theorem main_checks_json
  (subprocess_run : string -> nat -> result CompletedProcess)
  (args : arguments) (image_tags : list item) :
  filter is_SayJson (fst (main_checks subprocess_run args image_tags)) =
    match image_tags with
    | [] => []
    | _ =>
        if json args then
          [SayJson (if updates_only args
                    then filter (has_status "update-available")
                                (checks subprocess_run args image_tags)
                    else checks subprocess_run args image_tags)]
        else []
    end /\
  (json args = true ->
   snd (main_checks subprocess_run args image_tags) =
   SysExit (match filter (has_status "update-available")
                         (checks subprocess_run args image_tags) with
            | [] => 0
            | _ => 1
            end)).
Proof.
  split.
  - destruct image_tags as [|it its] eqn:E; [reflexivity|].
    rewrite <- E.
    destruct (main_checks_printed subprocess_run args image_tags)
      as (lines & Hlines & ->); [rewrite E; discriminate|].
    cbn [filter is_SayJson]. rewrite filter_app.
    rewrite (filter_progress_lines is_SayJson lines) by auto.
    destruct (json args); [reflexivity|].
    destruct (last_status None (checks subprocess_run args image_tags))
      as [s|];
      destruct (updates_only args); cbn [negb];
        rewrite ?andb_false_r, ?andb_true_r;
        try destruct (String.eqb s "up-to-date");
        filter_lines; reflexivity.
  - intros Hj. rewrite main_checks_ending, Hj. cbn [negb andb].
    unfold exit_status, count_status.
    destruct (filter _ _); reflexivity.
Qed.

Lemma checks_statuses
  (subprocess_run : string -> nat -> result CompletedProcess)
  (args : arguments) (image_tags : list item) :
  Forall (fun r => status r = "up-to-date" \/ status r = "update-available" \/
                   status r = "error" \/ status r = "unknown")
         (checks subprocess_run args image_tags).
Proof.
  destruct (checks_eq subprocess_run args image_tags) as [_ H].
  induction H as [|it r its rs Hr _ IH]; constructor; [|exact IH].
  destruct (main_item_cases subprocess_run (timeout args) it)
    as (r' & Hr' & [[_ ->]|[[_ ->]|(tags & latest & _ & _ & ->)]]);
    rewrite Hr' in Hr; injection Hr as <-; cbn [status]; auto.
  destruct (compare_versions_cases (current_value it) latest)
    as [[_ ->]|[_ ->]]; auto.
Qed.

Lemma count_by_status (rs : list check) :
  Forall (fun r => status r = "up-to-date" \/ status r = "update-available" \/
                   status r = "error" \/ status r = "unknown") rs ->
  List.length rs =
  count_status "up-to-date" rs + count_status "update-available" rs +
  count_status "error" rs + count_status "unknown" rs.
Proof.
  unfold count_status.
  induction 1 as [|r rs Hr _ IH]; [reflexivity|].
  cbn [filter List.length].
  assert (E : forall s, has_status s r = String.eqb (status r) s)
    by reflexivity.
  rewrite !E.
  destruct Hr as [H|[H|[H|H]]]; rewrite H;
    repeat match goal with
           | |- context [String.eqb ?a ?b] =>
               let v := eval vm_compute in (String.eqb a b) in
               change (String.eqb a b) with v
           end;
    cbn [List.length]; lia.
Qed.

Lemma checks_length
  (subprocess_run : string -> nat -> result CompletedProcess)
  (args : arguments) (image_tags : list item) :
  List.length (checks subprocess_run args image_tags) = List.length image_tags.
Proof.
  rewrite <- (checks_source subprocess_run args image_tags) at 2.
  symmetry. apply length_map.
Qed.

(** X14. When the text report reaches its end, its last line is the
    summary: the total is the number of items, and the three counts it
    gives are the numbers of records with the statuses [up-to-date],
    [update-available] and [error]. The records with the status
    [unknown] are in the total and in none of the counts, so the counts
    add up to the total only when there is no such record. *)
Theorem main_checks_summary
  (subprocess_run : string -> nat -> result CompletedProcess)
  (args : arguments) (image_tags : list item) (code : Z) :
  json args = false -> image_tags <> [] ->
  snd (main_checks subprocess_run args image_tags) = SysExit code ->
  exists before,
    fst (main_checks subprocess_run args image_tags) =
      before ++
      [SaySummary
         (List.length image_tags)
         (count_status "up-to-date" (checks subprocess_run args image_tags))
         (count_status "update-available"
                       (checks subprocess_run args image_tags))
         (count_status "error" (checks subprocess_run args image_tags))] /\
    filter is_SaySummary before = [] /\
    List.length image_tags =
      count_status "up-to-date" (checks subprocess_run args image_tags) +
      count_status "update-available"
                   (checks subprocess_run args image_tags) +
      count_status "error" (checks subprocess_run args image_tags) +
      count_status "unknown" (checks subprocess_run args image_tags).
Proof.
  intros Hj Hne Hend.
  destruct (main_checks_printed subprocess_run args image_tags Hne)
    as (lines & Hlines & ->).
  rewrite main_checks_ending, Hj in Hend. rewrite Hj.
  rewrite (checks_length subprocess_run args image_tags).
  assert (Hsum := count_by_status _
                    (checks_statuses subprocess_run args image_tags)).
  rewrite checks_length in Hsum.
  assert (Hl : filter is_SaySummary lines = [])
    by (apply filter_progress_lines; auto).
  destruct (last_status None (checks subprocess_run args image_tags))
    as [s|] eqn:El.
  - set (marks := if String.eqb s "up-to-date" && negb (updates_only args)
                  then map up_to_date_line
                           (checks subprocess_run args image_tags)
                  else []).
    set (ups := map update_line
                    (filter (has_status "update-available")
                            (checks subprocess_run args image_tags))).
    exists (SayChecking (List.length image_tags)
            :: lines ++ SayResults :: marks ++ ups).
    split; [|split; [|exact Hsum]].
    + cbn [app]. rewrite <- !app_assoc. cbn [app].
      rewrite <- !app_assoc. reflexivity.
    + cbn [filter is_SaySummary]. rewrite filter_app, Hl.
      subst marks ups.
      destruct (String.eqb s "up-to-date" && negb (updates_only args));
        filter_lines; reflexivity.
  - apply last_status_none in El. destruct El as [_ Hf].
    rewrite Hf in Hend. cbn [negb andb] in Hend.
    destruct image_tags as [|it its]; [congruence|].
    rewrite andb_true_r in Hend.
    destruct (updates_only args); cbn [negb] in *; [|discriminate].
    set (ups := map update_line
                    (filter (has_status "update-available")
                            (checks subprocess_run args (it :: its)))).
    exists (SayChecking (List.length (it :: its))
            :: lines ++ SayResults :: ups).
    split; [|split; [|exact Hsum]].
    + cbn [app]. rewrite <- !app_assoc. cbn [app]. reflexivity.
    + cbn [filter is_SaySummary]. rewrite filter_app, Hl.
      subst ups. filter_lines. reflexivity.
Qed.

Lemma main_checks_summary_witness :
  exists before,
    fst (main_checks example_shell (Args 30 false false)
           [Item "foo_image_tag" "1.10" "skopeo list-tags docker://x" 1;
            Item "bar_image_tag" "v1.11" "skopeo list-tags docker://y" 2]) =
      before ++ [SaySummary 2 1 1 0] /\
    filter is_SaySummary before = [] /\
    2 = 1 + 1 + 0 + 0.
Proof.
  apply (main_checks_summary
           example_shell (Args 30 false false)
           [Item "foo_image_tag" "1.10" "skopeo list-tags docker://x" 1;
            Item "bar_image_tag" "v1.11" "skopeo list-tags docker://y" 2]
           1%Z).
  - reflexivity.
  - discriminate.
  - vm_compute. reflexivity.
Defined.

(* ================================================================= *)
(** * plugins/lookup/traefik_labels.py *)

Import TraefikLabels.

Lemma sapp_inv_head (s a b : string) :
  (s ++ a)%string = (s ++ b)%string -> a = b.
Proof. induction s as [|c s IH]; simpl; [auto|]. intros H. apply IH. congruence. Qed.

Lemma sapp_last (a b : string) (c d : ascii) :
  (a ++ String c "")%string = (b ++ String d "")%string -> a = b /\ c = d.
Proof.
  revert b. induction a as [|x a IH]; intros [|y b]; simpl; intros H.
  - split; congruence.
  - destruct b; discriminate.
  - destruct a; discriminate.
  - injection H as -> H. destruct (IH b H) as [-> ->]. split; reflexivity.
Qed.

Lemma sapp_inv_tail (s a b : string) :
  (a ++ s)%string = (b ++ s)%string -> a = b.
Proof.
  revert a b. induction s as [|c s IH]; intros a b H.
  - rewrite !sapp_nil_r in H. exact H.
  - change (String c s) with (String c "" ++ s)%string in H.
    rewrite <- !sapp_assoc in H. apply IH in H.
    apply sapp_last in H. apply H.
Qed.

Lemma rule_not_entrypoints (a b : string) :
  (a ++ ".rule")%string <> (b ++ ".entrypoints")%string.
Proof.
  change ".rule" with (".rul" ++ "e")%string.
  change ".entrypoints" with (".entrypoint" ++ "s")%string.
  rewrite <- !sapp_assoc. intros H. apply sapp_last in H.
  destruct H as [_ H]. discriminate.
Qed.

(** The five labels for [name], [host] and [port]. *)
Abbreviation labels_for kwargs name host port :=
  [("traefik.enable", VStr "true");
   ("traefik.docker.network", dict_get kwargs "network" (VStr "traefik"));
   (("traefik.http.routers." ++ str name ++ ".rule")%string,
    VStr ("Host(`" ++ str host ++ "`)")%string);
   (("traefik.http.routers." ++ str name ++ ".entrypoints")%string,
    dict_get kwargs "entrypoint" (VStr "websecure"));
   (("traefik.http.services." ++ str name
     ++ ".loadbalancer.server.port")%string,
    VStr (str port))].

Lemma run_labels (name host port : value) (extra : list value)
  (kwargs : dict) :
  run (name :: host :: port :: extra) kwargs =
  Returns [labels_for kwargs name host port].
Proof.
  unfold run, item. cbn [List.length Nat.ltb Nat.leb nth_error].
  f_equal. f_equal. unfold dict_of. cbn [fold_left fst snd dict_set].
  assert (E : String.eqb ("traefik.http.routers." ++ str name ++ ".rule")
                         ("traefik.http.routers." ++ str name
                          ++ ".entrypoints") = false).
  { apply String.eqb_neq. intros H. apply sapp_inv_head in H.
    apply (rule_not_entrypoints _ _ H). }
  change (String.eqb "traefik.enable" "traefik.docker.network") with false.
  cbv iota. cbn [dict_set].
  change (String.eqb "traefik.enable" _) with false.
  change (String.eqb "traefik.docker.network" _) with false.
  cbv iota. cbn [dict_set].
  change (String.eqb "traefik.enable" _) with false.
  change (String.eqb "traefik.docker.network" _) with false.
  cbv iota. rewrite E. cbn [dict_set].
  change (String.eqb "traefik.enable" _) with false.
  change (String.eqb "traefik.docker.network" _) with false.
  cbv iota.
  change (String.eqb ("traefik.http.routers." ++ str name ++ ".rule") _)
    with false.
  change (String.eqb ("traefik.http.routers." ++ str name ++ ".entrypoints") _)
    with false.
  reflexivity.
Qed.


(** X16. The dictionaries the lookup returns for two names whose texts
    differ have no key in common but [traefik.enable] and
    [traefik.docker.network]: the keys of the router and of the service
    of one name are not keys of another name. *)
Theorem traefik_labels_names
  (name1 host1 port1 name2 host2 port2 : value) (extra1 extra2 : list value)
  (kwargs1 kwargs2 labels1 labels2 : dict) :
  str name1 <> str name2 ->
  run (name1 :: host1 :: port1 :: extra1) kwargs1 = Returns [labels1] ->
  run (name2 :: host2 :: port2 :: extra2) kwargs2 = Returns [labels2] ->
  Forall (fun key =>
            In key (keys labels2) ->
            key = "traefik.enable" \/ key = "traefik.docker.network")
         (keys labels1).
Proof.
  intros Hne H1 H2. apply Forall_forall. intros key.
  rewrite run_labels in H1, H2. injection H1 as <-. injection H2 as <-.
  cbn [keys map fst In].
  intros [<-|[<-|[<-|[<-|[<-|[]]]]]]; auto;
    intros [H|[H|[H|[H|[H|[]]]]]]; auto; exfalso;
      try discriminate H;
      injection H as H;
      first [ apply sapp_inv_tail in H; congruence
            | apply (rule_not_entrypoints _ _ H)
            | symmetry in H; apply (rule_not_entrypoints _ _ H) ].
Qed.

Lemma traefik_labels_names_witness :
  Forall (fun key =>
            In key ["traefik.enable"; "traefik.docker.network";
                    "traefik.http.routers.8080.rule";
                    "traefik.http.routers.8080.entrypoints";
                    "traefik.http.services.8080.loadbalancer.server.port"] ->
            key = "traefik.enable" \/ key = "traefik.docker.network")
         ["traefik.enable"; "traefik.docker.network";
          "traefik.http.routers.app.rule";
          "traefik.http.routers.app.entrypoints";
          "traefik.http.services.app.loadbalancer.server.port"].
Proof.
  apply (traefik_labels_names
           (VStr "app") (VStr "app.example.com") (VStr "8080")
           (VInt 8080) (VStr "db.example.com") (VInt 5432) [] [VStr "x"]
           [] [("entrypoint", VStr "web")]
           [("traefik.enable", VStr "true");
            ("traefik.docker.network", VStr "traefik");
            ("traefik.http.routers.app.rule",
             VStr "Host(`app.example.com`)");
            ("traefik.http.routers.app.entrypoints", VStr "websecure");
            ("traefik.http.services.app.loadbalancer.server.port",
             VStr "8080")]
           [("traefik.enable", VStr "true");
            ("traefik.docker.network", VStr "traefik");
            ("traefik.http.routers.8080.rule",
             VStr "Host(`db.example.com`)");
            ("traefik.http.routers.8080.entrypoints", VStr "web");
            ("traefik.http.services.8080.loadbalancer.server.port",
             VStr "5432")]).
  - vm_compute. discriminate.
  - vm_compute. reflexivity.
  - vm_compute. reflexivity.
Defined.
